(** * CKB node dashboard: the history aggregator of [server.js]

    A shallow embedding of the RPC helpers ([ckbRequest], [rpcCall],
    [rpcBatch]), of [formatHashrate] and of [buildHistory], followed by the
    properties of the aggregation engine; then of [formatUptime], of the
    epoch block of [buildShowData] and of the body accumulator of the [/rpc]
    route, with their properties.

    Conventions of the embedding.
    - A JavaScript value that came out of [JSON.parse] is a [value]; JSON
      numbers are integers here (the ids, heights and counts the program
      handles), and strings are sequences of bytes (ASCII for the fields the
      program reads).
    - A JavaScript Number that holds an integer or NaN is a [num]: [Int z]
      keeps [z] exactly, which is what the double arithmetic of the source
      does as long as magnitudes stay within 2^53 (block heights and
      millisecond timestamps are far below).
    - A JavaScript Number that may hold a fraction (the averages and the
      scaled hashrate) is an IEEE-754 binary64 value, [spec_float] with
      precision 53 and maximal exponent 1024, computed with the correctly
      rounded operations of [SpecFloat].
    - A BigInt is a [Z].
    - A promise that rejects is a computation that returns [inl e]. *)

From Stdlib Require Import ZArith Ascii List Lia SpecFloat.
From stdpp Require Import base option list strings gmap sorting.

Local Open Scope Z_scope.
#[local] Set Warnings "-register-all".

(** ** Strings and digits *)

Module Text.

Definition digitChar (d : Z) : ascii :=
  match String.get (Z.to_nat d) "0123456789abcdef" with
  | Some c => c
  | None => "?"%char
  end.

Fixpoint digitsFuel (base : Z) (fuel : nat) (n : Z) (acc : string) : string :=
  match fuel with
  | O => acc
  | S fuel' =>
      let acc' := String (digitChar (n mod base)) acc in
      if n / base =? 0 then acc' else digitsFuel base fuel' (n / base) acc'
  end.

(** The digits of a non-negative integer in base 10 or 16, without sign and
    without leading zeros ("0" for zero). *)
Definition natural (base : Z) (n : Z) : string :=
  digitsFuel base (S (Z.to_nat (Z.log2 n))) n "".

(** [BigInt.prototype.toString()] and [Number.prototype.toString(radix)] on
    an integer: a minus sign, then the digits. *)
Definition integer (base : Z) (z : Z) : string :=
  if z <? 0 then String "-" (natural base (- z)) else natural base z.

Definition hexDigit (c : ascii) : option Z :=
  let n := Z.of_nat (nat_of_ascii c) in
  if (48 <=? n) && (n <=? 57) then Some (n - 48)
  else if (97 <=? n) && (n <=? 102) then Some (n - 87)
  else if (65 <=? n) && (n <=? 70) then Some (n - 55)
  else None.

Definition decDigit (c : ascii) : option Z :=
  let n := Z.of_nat (nat_of_ascii c) in
  if (48 <=? n) && (n <=? 57) then Some (n - 48) else None.

(** White space and line terminators (the ASCII ones). *)
Definition isSpace (c : ascii) : bool :=
  let n := nat_of_ascii c in
  ((9 <=? n) && (n <=? 13))%nat || (n =? 32)%nat.

Fixpoint trimLeft (s : string) : string :=
  match s with
  | String c s' => if isSpace c then trimLeft s' else s
  | EmptyString => EmptyString
  end.

Fixpoint trimRight (s : string) : string :=
  match s with
  | EmptyString => EmptyString
  | String c s' =>
      match trimRight s' with
      | EmptyString => if isSpace c then EmptyString else String c EmptyString
      | t => String c t
      end
  end.

Definition trim (s : string) : string := trimRight (trimLeft s).

(** The longest prefix of [s] made of digits accepted by [digit], read in
    base [base]: [Some] of the value accumulated so far, starting from
    [acc]; [acc = None] means no digit was read yet. *)
Fixpoint readPrefix (digit : ascii -> option Z) (base : Z)
         (s : string) (acc : option Z) : option Z :=
  match s with
  | EmptyString => acc
  | String c s' =>
      match digit c with
      | Some d => readPrefix digit base s' (Some (default 0 acc * base + d))
      | None => acc
      end
  end.

(** All of [s] must be digits, and at least one. *)
Fixpoint readAll (digit : ascii -> option Z) (base : Z)
         (s : string) (acc : option Z) : option Z :=
  match s with
  | EmptyString => acc
  | String c s' =>
      match digit c with
      | Some d => readAll digit base s' (Some (default 0 acc * base + d))
      | None => None
      end
  end.

(** Removes a leading [0x] or, when [upper] is set, also [0X]. *)
Definition stripHexPrefix (upper : bool) (s : string) : option string :=
  match s with
  | String "0" (String "x" r) => Some r
  | String "0" (String "X" r) => if upper then Some r else None
  | _ => None
  end.

End Text.

(** ** JavaScript values and numbers *)

Inductive value :=
| VUndef
| VNull
| VBool (b : bool)
| VNum (z : Z)
| VStr (s : string)
| VArr (elems : list value)
| VObj (fields : list (string * value)).

(** An integer-valued Number, or NaN. *)
Inductive num := Nan | Int (z : Z).

Global Instance num_eq_dec : EqDecision num.
Proof. solve_decision. Defined.

Global Instance num_countable : Countable num.
Proof.
  refine (inj_countable'
            (fun n => match n with Nan => None | Int z => Some z end)
            (fun o => match o with None => Nan | Some z => Int z end) _).
  intros []; reflexivity.
Defined.

Module Js.

(** Binary64. *)
Definition prec : Z := 53.
Definition emax : Z := 1024.

Definition ofZ (z : Z) : spec_float := binary_normalize prec emax z 0 false.

Definition toFloat (n : num) : spec_float :=
  match n with Nan => S754_nan | Int z => ofZ z end.

Definition fdiv (x y : spec_float) : spec_float := SFdiv prec emax x y.

Definition add (a b : num) : num :=
  match a, b with Int x, Int y => Int (x + y) | _, _ => Nan end.

Definition sub (a b : num) : num :=
  match a, b with Int x, Int y => Int (x - y) | _, _ => Nan end.

(** [Math.min] and [Math.max]: NaN if an argument is NaN. *)
Definition min (a b : num) : num :=
  match a, b with Int x, Int y => Int (Z.min x y) | _, _ => Nan end.

Definition max (a b : num) : num :=
  match a, b with Int x, Int y => Int (Z.max x y) | _, _ => Nan end.

(** ToBoolean. *)
Definition truthy (v : value) : bool :=
  match v with
  | VUndef | VNull => false
  | VBool b => b
  | VNum z => negb (z =? 0)
  | VStr s => negb (String.eqb s "")
  | VArr _ | VObj _ => true
  end.

Definition nullish (v : value) : bool :=
  match v with VUndef | VNull => true | _ => false end.

Fixpoint lookupField (k : string) (fields : list (string * value)) : value :=
  match fields with
  | [] => VUndef
  | (k', v) :: rest => if String.eqb k k' then v else lookupField k rest
  end.

(** [v.k] for a [v] that is neither null nor undefined: own fields of an
    object, [length] of an array or a string, undefined otherwise. *)
Definition prop (v : value) (k : string) : value :=
  match v with
  | VObj fields => lookupField k fields
  | VArr elems => if String.eqb k "length" then VNum (Z.of_nat (length elems)) else VUndef
  | VStr s => if String.eqb k "length" then VNum (Z.of_nat (String.length s)) else VUndef
  | _ => VUndef
  end.

(** [v.k] in general: [None] is the TypeError raised on null and undefined. *)
Definition get (v : value) (k : string) : option value :=
  if nullish v then None else Some (prop v k).

(** [v?.k]. *)
Definition getOpt (v : value) (k : string) : value :=
  if nullish v then VUndef else prop v k.

(** [a ?? b]. *)
Definition coalesce (a b : value) : value := if nullish a then b else a.

(** ToString. Array elements that are null or undefined print as the empty
    string, and elements are joined with commas. *)
Fixpoint toString (v : value) : string :=
  match v with
  | VUndef => "undefined"
  | VNull => "null"
  | VBool true => "true"
  | VBool false => "false"
  | VNum z => Text.integer 10 z
  | VStr s => s
  | VArr elems =>
      (fix join (l : list value) : string :=
         match l with
         | [] => ""
         | [x] => if nullish x then "" else toString x
         | x :: rest =>
             (if nullish x then "" else toString x) +:+ "," +:+ join rest
         end) elems
  | VObj _ => "[object Object]"
  end.

(** [parseInt(v, 16)]: leading white space, an optional sign, an optional
    [0x] or [0X], then the longest run of hexadecimal digits; NaN when
    there is none. *)
Definition parseInt16 (v : value) : num :=
  let s := Text.trimLeft (toString v) in
  let '(neg, s1) :=
    match s with
    | String "-" r => (true, r)
    | String "+" r => (false, r)
    | _ => (false, s)
    end in
  let s2 := default s1 (Text.stripHexPrefix true s1) in
  match Text.readPrefix Text.hexDigit 16 s2 None with
  | Some n => Int (if neg then - n else n)
  | None => Nan
  end.

(** StringToNumber on the literals that denote integers: the empty string,
    signed decimal digits, and [0x] hexadecimal digits. Other numeric
    literals (a fraction as in "1.5", an exponent as in "1e3", "Infinity")
    are not covered: the [Nan] returned for them is not the Number of the
    source, and the properties below say nothing about such strings. *)
Definition stringToNumber (s : string) : num :=
  let t := Text.trim s in
  match t with
  | EmptyString => Int 0
  | _ =>
      match Text.stripHexPrefix true t with
      | Some r =>
          match Text.readAll Text.hexDigit 16 r None with
          | Some n => Int n
          | None => Nan
          end
      | None =>
          let '(neg, r) :=
            match t with
            | String "-" r => (true, r)
            | String "+" r => (false, r)
            | _ => (false, t)
            end in
          match Text.readAll Text.decDigit 10 r None with
          | Some n => Int (if neg then - n else n)
          | None => Nan
          end
      end
  end.

(** ToNumber. *)
Definition toNumber (v : value) : num :=
  match v with
  | VUndef => Nan
  | VNull => Int 0
  | VBool b => Int (if b then 1 else 0)
  | VNum z => Int z
  | VStr s => stringToNumber s
  | VArr _ | VObj _ => stringToNumber (toString v)
  end.

(** [n.toString(16)]. *)
Definition toString16 (n : num) : string :=
  match n with Nan => "NaN" | Int z => Text.integer 16 z end.

(** ToLength, as [Array.from({ length: n }, ...)] applies it. *)
Definition toLength (n : num) : nat :=
  match n with Nan => O | Int z => Z.to_nat z end.

(** *** Rounding and rendering of binary64 values *)

(** The result of [Math.round]: NaN, an infinity, or an integer. *)
Inductive rounded := RNan | RInf (neg : bool) | RInt (z : Z).

(** The signed numerator of a finite value [m * 2^e]. *)
Definition signed (s : bool) (m : positive) : Z :=
  if s then Z.neg m else Z.pos m.

(** [floor (k * v + 1/2)] for [v = sm * 2^e], computed exactly. *)
Definition nearestUp (k sm e : Z) : Z :=
  if 0 <=? e then k * sm * 2 ^ e
  else (2 * k * sm + 2 ^ (- e)) / 2 ^ (1 - e).

(** [Math.round]: the nearest integer, halves towards plus infinity. *)
Definition mathRound (x : spec_float) : rounded :=
  match x with
  | S754_nan => RNan
  | S754_infinity s => RInf s
  | S754_zero _ => RInt 0
  | S754_finite s m e => RInt (nearestUp 1 (signed s m) e)
  end.

(** [Math.max(1, r)]. *)
Definition max1 (r : rounded) : rounded :=
  match r with
  | RNan => RNan
  | RInf true => RInt 1
  | RInf false => RInf false
  | RInt z => RInt (Z.max 1 z)
  end.

(** [BigInt(r)]: [None] is the RangeError raised on NaN and infinities. *)
Definition toBigInt (r : rounded) : option Z :=
  match r with RInt z => Some z | _ => None end.

(** [x > 0]. *)
Definition isPositive (x : spec_float) : bool := SFltb (S754_zero false) x.

Definition sameFloat (x y : spec_float) : bool :=
  match x, y with
  | S754_zero a, S754_zero b => Bool.eqb a b
  | S754_infinity a, S754_infinity b => Bool.eqb a b
  | S754_nan, S754_nan => true
  | S754_finite a m e, S754_finite b m' e' =>
      Bool.eqb a b && (m =? m')%positive && (e =? e')
  | _, _ => false
  end.

Fixpoint dropZeros (rev : list ascii) : list ascii :=
  match rev with
  | "0"%char :: rest => dropZeros rest
  | _ => rev
  end.

Definition stripTrailingZeros (s : string) : string :=
  String.string_of_list_ascii (rev (dropZeros (rev (String.list_ascii_of_string s)))).

(** The shortest decimal that reads back as [x], for [x] the double
    nearest to the integer [X >= 10^21] with [D] decimal digits: tries
    [k = 1, 2, ...] significant digits, at most [fuel] more times. *)
Fixpoint shortest (x : spec_float) (X D : Z) (k : Z) (fuel : nat) : Z :=
  let p := 10 ^ (D - k) in
  let lo := X / p * p in
  let hi := lo + p in
  let okLo := sameFloat (ofZ lo) x in
  let okHi := sameFloat (ofZ hi) x in
  let pick :=
    if okLo && okHi then
      if X - lo <? hi - X then lo
      else if hi - X <? X - lo then hi
      else if Z.even (lo / p) then lo else hi
    else if okLo then lo else hi in
  match fuel with
  | O => pick
  | S fuel' => if okLo || okHi then pick else shortest x X D (k + 1) fuel'
  end.

(** [Number::toString] of a finite integer-valued [x >= 10^21] whose exact
    value is [X]: exponential notation. *)
Definition exponential (x : spec_float) (X : Z) : string :=
  let D := Z.of_nat (String.length (Text.natural 10 X)) in
  let v := shortest x X D 1 16 in
  let all := Text.natural 10 v in
  let sig := stripTrailingZeros all in
  let ex := Text.natural 10 (Z.of_nat (String.length all) - 1) in
  match sig with
  | String d EmptyString => String d ("e+" +:+ ex)
  | String d rest => String d ("." +:+ rest +:+ "e+" +:+ ex)
  | EmptyString => "0"
  end.

Definition twoDigits (n : Z) : string :=
  String (Text.digitChar (n / 10)) (String (Text.digitChar (n mod 10)) "").

(** The fixed notation of [n / 100], two decimals. *)
Definition fixed2 (n : Z) : string :=
  Text.natural 10 (n / 100) +:+ "." +:+ twoDigits (n mod 100).

(** [x.toFixed(2)]: the integer [n] nearest to [100 |x|] (the larger one
    when two are as near), printed with two decimals; exponential notation
    from 10^21 on. *)
Definition toFixed2 (x : spec_float) : string :=
  match x with
  | S754_nan => "NaN"
  | S754_infinity s => if s then "-Infinity" else "Infinity"
  | S754_zero _ => "0.00"
  | S754_finite s m e =>
      let big :=
        if 0 <=? e then 10 ^ 21 <=? Z.pos m * 2 ^ e
        else 10 ^ 21 * 2 ^ (- e) <=? Z.pos m in
      (if s then "-" else "") +:+
      (if big then exponential (S754_finite false m e) (Z.pos m * 2 ^ e)
       else fixed2 (nearestUp 100 (Z.pos m) e))
  end.

End Js.


(** ** The hashrate formatter *)

Definition units : list (Z * string) :=
  [ (10 ^ 18, "EH/s");
    (10 ^ 15, "PH/s");
    (10 ^ 12, "TH/s");
    (10 ^ 9,  "GH/s");
    (10 ^ 6,  "MH/s");
    (10 ^ 3,  "kH/s");
    (1,       "H/s") ].

(** The loop of [formatHashrate] over the units still to try. *)
Fixpoint formatWith (us : list (Z * string)) (h : Z) : string :=
  match us with
  | [] => Text.integer 10 h +:+ " H/s"
  | (div, unit) :: rest =>
      if div <=? h then
        let val := Js.fdiv (Js.ofZ (Z.quot (h * 1000) div)) (Js.ofZ 1000) in
        Js.toFixed2 val +:+ " " +:+ unit
      else formatWith rest h
  end.

Definition formatHashrate (h : Z) : string := formatWith units h.

(** ** Errors, requests and the node *)

(** A rejection reason: the [name] and [message] of the Error object, and the
    [code] that Node.js system errors carry (ECONNREFUSED and the like). *)
Record error := mkError { name : string; message : string; code : option string }.

(** [new Error(msg)]: no message is set when [msg] is undefined. *)
Definition newError (msg : value) : error :=
  mkError "Error" (match msg with VUndef => "" | _ => Js.toString msg end) None.

(** The TypeError of reading property [k] of null or undefined. *)
Definition typeError (v : value) (k : string) : error :=
  mkError "TypeError"
          ("Cannot read properties of " +:+ Js.toString v +:+
           " (reading '" +:+ k +:+ "')") None.

(** The error with which [ckbRequest] destroys a request that timed out. *)
Definition timeoutError : error :=
  mkError "Error" "CKB node request timed out" None.

(** [{ jsonrpc: '2.0', id, method, params }]. *)
Record request := mkRequest { id : Z; method : string; params : list value }.

(** What [ckbRequest] writes: one request object or a batch array. *)
Inductive body := Single (r : request) | Batch (rs : list request).

(** The node and the network, as [ckbRequest] sees them: the [n]-th request
    this process writes either rejects (connection error, timeout, a reply
    that is not JSON) or resolves to the parsed reply. [infoFirst] tells
    which rejection [Promise.all] sees first when both of its calls reject. *)
Record Node := mkNode {
  send : nat -> body -> error + value;
  infoFirst : bool
}.

(** ** The snapshot *)

Module BlockData.
Record t := mk {
  number : num;
  timestamp : num;
  txCount : option num;   (* [None] is null *)
  blockTime : num
}.
End BlockData.

Module HashPoint.
Record t := mk { number : num; hashrate : num }.
End HashPoint.

Record Snapshot := mkSnapshot {
  blocks : list BlockData.t;
  avgBlockTimeSec : string;
  networkHashrate : string;
  hashratePerBlock : list HashPoint.t;
  tipHeight : num
}.

(** ** The process state and its monad *)

(** The module-level variables [rpcId], [histCache], [histCacheTime], and the
    requests written to the node so far, oldest first. *)
Record Proc := mkProc {
  rpcId : Z;
  histCache : option Snapshot;
  histCacheTime : Z;
  wire : list body
}.

Definition M (A : Type) : Type := Proc -> (error + A) * Proc.

Definition ret {A} (a : A) : M A := fun p => (inr a, p).

Definition throw {A} (e : error) : M A := fun p => (inl e, p).

Definition bind {A B} (m : M A) (k : A -> M B) : M B :=
  fun p =>
    match m p with
    | (inl e, p') => (inl e, p')
    | (inr a, p') => k a p'
    end.

Notation "'do' x <- m ; k" := (bind m (fun x => k))
  (at level 10, x name, m at level 100, k at level 200).
Notation "'do' ' pat <- m ; k" := (bind m (fun x => match x with pat => k end))
  (at level 10, pat pattern, m at level 100, k at level 200).

Definition HIST_TTL : Z := 15000.
Definition HIST_COUNT : Z := 60.
Definition TX_COUNT : Z := 30.

Section Rpc.

Variable node : Node.

(** [ckbRequest(bodyObj)]: the request is written, then the promise
    settles with the reply. *)
Definition ckbWrite (b : body) : Proc -> nat * Proc :=
  fun p =>
    (length (wire p),
     mkProc (rpcId p) (histCache p) (histCacheTime p) (wire p ++ [b])).

Definition ckbSettle (slot : nat) (b : body) : M value :=
  fun p => (send node slot b, p).

Definition ckbRequest (b : body) : M value :=
  fun p => let '(slot, p') := ckbWrite b p in ckbSettle slot b p'.

(** The synchronous part of [rpcCall]: [rpcId++] and the write. *)
Definition rpcWrite (m : string) (ps : list value) : Proc -> (nat * body) * Proc :=
  fun p =>
    let b := Single (mkRequest (rpcId p) m ps) in
    let p1 := mkProc (rpcId p + 1) (histCache p) (histCacheTime p) (wire p) in
    let '(slot, p2) := ckbWrite b p1 in
    ((slot, b), p2).

(** The [then] handler of [rpcCall]. *)
Definition rpcThen (r : value) : M value :=
  match Js.get r "error" with
  | None => throw (typeError r "error")
  | Some e =>
      if Js.truthy e then throw (newError (Js.prop e "message"))
      else ret (Js.prop r "result")
  end.

Definition rpcCall (m : string) (ps : list value) : M value :=
  fun p =>
    let '((slot, b), p') := rpcWrite m ps p in
    (do r <- ckbSettle slot b; rpcThen r) p'.

(** The comparator [(a, b) => a.id - b.id] of two elements that are not
    null. *)
Definition compareIds (a b : value) : num :=
  Js.sub (Js.toNumber (Js.prop a "id")) (Js.toNumber (Js.prop b "id")).

(** Whether the comparator puts [a] no later than [b]: a negative result,
    or a zero or NaN result, which leaves the two in their order. *)
Definition notAfter (a b : value) : bool :=
  match compareIds a b with
  | Int z => z <=? 0
  | Nan => true
  end.

Fixpoint insertSorted (x : value) (l : list value) : list value :=
  match l with
  | [] => [x]
  | y :: rest => if notAfter x y then x :: l else y :: insertSorted x rest
  end.

(** [results.sort((a, b) => a.id - b.id)]: the sort is stable, so for ids
    that are numbers its result is the one of a stable insertion sort. When
    some id is not a number the comparator answers NaN for its pairs, the
    order then depends on which pairs the engine's algorithm compares, and
    the list computed here is only known to be a permutation of the reply:
    the properties below that speak of positions assume numeric ids. *)
Fixpoint sortById (l : list value) : list value :=
  match l with
  | [] => []
  | x :: rest => insertSorted x (sortById rest)
  end.

(** The [then] handler of [rpcBatch]. An element that is null makes the
    comparator (or, for a single element, the [map] callback) raise a
    TypeError. *)
Definition batchThen (results : value) : M (list value) :=
  match results with
  | VArr elems =>
      match List.find Js.nullish elems with
      | Some v =>
          throw (typeError v (if (2 <=? length elems)%nat then "id" else "result"))
      | None => ret (map (fun r => Js.prop r "result") (sortById elems))
      end
  | _ => throw (mkError "Error" "Expected batch array response" None)
  end.

(** [rpcBatch(requests)], for requests given as [(method, params)]. *)
Definition rpcBatch (requests : list (string * list value)) : M (list value) :=
  let batch := imap (fun i r => mkRequest (Z.of_nat i) (fst r) (snd r)) requests in
  do results <- ckbRequest (Batch batch); batchThen results.

(** [Promise.all([a, b])] of two calls already started: both settle, and a
    rejection wins. *)
Definition promiseAll2 {A B} (a : M A) (b : M B) : M (A * B) :=
  fun p =>
    let '(ra, p1) := a p in
    let '(rb, p2) := b p1 in
    (match ra, rb with
     | inr x, inr y => inr (x, y)
     | inl e, inr _ => inl e
     | inr _, inl e => inl e
     | inl e1, inl e2 => inl (if infoFirst node then e2 else e1)
     end, p2).

End Rpc.

(** ** The aggregation cycle *)

(** The text of the hashrate when it could not be computed. *)
Definition unavailable : string := "—".

(** [Array.from({ length }, (_, i) => ({ method, params: ['0x' + (first + i).toString(16)] }))]. *)
Definition heightRequests (m : string) (first : num) (len : num)
  : list (string * list value) :=
  map (fun i : nat =>
         (m, [VStr ("0x" +:+ Js.toString16 (Js.add first (Int (Z.of_nat i))))]))
      (seq 0 (Js.toLength len)).

(** [Math.max(0, (b.transactions?.length ?? 1) - 1)]. *)
Definition txCountOf (b : value) : num :=
  Js.max (Int 0)
         (Js.sub (Js.toNumber
                    (Js.coalesce (Js.getOpt (Js.prop b "transactions") "length")
                                 (VNum 1)))
                 (Int 1)).

(** The body of [blocks.forEach]. *)
Definition recordTx (txMap : gmap num num) (b : value) : gmap num num :=
  if Js.truthy b && Js.truthy (Js.prop b "header") then
    <[Js.parseInt16 (Js.prop (Js.prop b "header") "number") := txCountOf b]> txMap
  else txMap.

Definition buildTxMap (blocks : list value) : gmap num num :=
  fold_left recordTx blocks ∅.

(** One turn of the loop over [headers], for [h = headers[i]] and
    [prev = headers[i - 1]]. *)
Definition blockRow (txMap : gmap num num) (prev h : value) : list BlockData.t :=
  if negb (Js.truthy h) || negb (Js.truthy prev) then []
  else
    let num := Js.parseInt16 (Js.prop h "number") in
    let ts := Js.parseInt16 (Js.prop h "timestamp") in
    let prevTs := Js.parseInt16 (Js.prop prev "timestamp") in
    [BlockData.mk num ts (txMap !! num) (Js.sub ts prevTs)].

Fixpoint blockRows (txMap : gmap num num) (prev : value) (rest : list value)
  : list BlockData.t :=
  match rest with
  | [] => []
  | h :: rest' => blockRow txMap prev h ++ blockRows txMap h rest'
  end.

(** The loop [for (let i = 1; i < headers.length; i++)]. *)
Definition buildBlockData (txMap : gmap num num) (headers : list value)
  : list BlockData.t :=
  match headers with
  | [] => []
  | h0 :: rest => blockRows txMap h0 rest
  end.

(** [l.slice(-n)]. *)
Definition sliceLast {A} (n : nat) (l : list A) : list A :=
  drop (length l - n) l.

(** [l.slice(from, to)] for [0 <= from <= to]. *)
Definition slice {A} (from to : nat) (l : list A) : list A :=
  take (to - from) (drop from l).

(** [l.reduce((s, b) => s + b.blockTime, 0)]. *)
Definition sumBlockTime (l : list BlockData.t) : num :=
  fold_left (fun s b => Js.add s (BlockData.blockTime b)) l (Int 0).

(** [sum / (l.length || 1) / 1000] of the block times of [l]. *)
Definition averageSec (l : list BlockData.t) : spec_float :=
  let len := Z.of_nat (length l) in
  let avgMs := Js.fdiv (Js.toFloat (sumBlockTime l))
                       (Js.ofZ (if len =? 0 then 1 else len)) in
  Js.fdiv avgMs (Js.ofZ 1000).

Definition avgSecOf (blockData : list BlockData.t) : spec_float :=
  averageSec (sliceLast 20 blockData).

(** [BigInt('0x' + chainInfo.difficulty.replace(/^0x/, ''))]; [None] when a
    TypeError or a SyntaxError is raised on the way. *)
Definition parseDifficulty (chainInfo : value) : option Z :=
  match Js.get chainInfo "difficulty" with
  | Some (VStr s) =>
      let t := default s (Text.stripHexPrefix false s) in
      Text.readAll Text.hexDigit 16 (Text.trimRight t) None
  | _ => None
  end.

(** [diff / BigInt(Math.max(1, Math.round(avg)))]; [None] when [BigInt]
    raises a RangeError. *)
Definition hashrateOver (diff : Z) (avg : spec_float) : option Z :=
  match Js.toBigInt (Js.max1 (Js.mathRound avg)) with
  | Some d => Some (Z.quot diff d)
  | None => None
  end.

Definition window : nat := 10.

(** One turn of the per-block loop; [None] when it raises. *)
Definition hashPoint (diff : Z) (blockData : list BlockData.t) (i : nat)
  : option HashPoint.t :=
  let sl := slice (i - window) i blockData in
  let wAvgMs := Js.fdiv (Js.toFloat (sumBlockTime sl))
                        (Js.ofZ (Z.of_nat (length sl))) in
  let wAvgS := Js.fdiv wAvgMs (Js.ofZ 1000) in
  match (if Js.isPositive wAvgS then hashrateOver diff wAvgS else Some 0) with
  | Some wHr =>
      match blockData !! i with
      | Some b => Some (HashPoint.mk (BlockData.number b) (Int (Z.quot wHr (10 ^ 12))))
      | None => None
      end
  | None => None
  end.

(** The per-block loop over the indices [idx]: what was pushed before the
    first turn that raised. *)
Fixpoint hashPoints (diff : Z) (blockData : list BlockData.t) (idx : list nat)
  : list HashPoint.t :=
  match idx with
  | [] => []
  | i :: rest =>
      match hashPoint diff blockData i with
      | Some pt => pt :: hashPoints diff blockData rest
      | None => []
      end
  end.

(** The [try] block: the values of [hashrateStr] and [hashratePerBlock] when
    it is left, normally or through [catch]. *)
Definition hashrates (chainInfo : value) (avgSec : spec_float)
           (blockData : list BlockData.t) : string * list HashPoint.t :=
  match parseDifficulty chainInfo with
  | None => (unavailable, [])
  | Some diff =>
      match hashrateOver diff avgSec with
      | None => (unavailable, [])
      | Some hrBig =>
          (formatHashrate hrBig,
           hashPoints diff blockData
                      (seq window (length blockData - window)))
      end
  end.

(** Everything [buildHistory] computes once its four fetches have settled. *)
Definition assemble (tipNum : num) (chainInfo : value)
           (headers blocks : list value) : Snapshot :=
  let txMap := buildTxMap blocks in
  let blockData := buildBlockData txMap headers in
  let avgSec := avgSecOf blockData in
  let '(hashrateStr, perBlock) := hashrates chainInfo avgSec blockData in
  mkSnapshot blockData (Js.toFixed2 avgSec) hashrateStr perBlock tipNum.

Definition readCache (now : Z) (p : Proc) : option Snapshot :=
  match histCache p with
  | Some s => if now - histCacheTime p <? HIST_TTL then Some s else None
  | None => None
  end.

Definition storeCache (s : Snapshot) (now : Z) : M unit :=
  fun p => (inr tt, mkProc (rpcId p) (Some s) now (wire p)).

(** [count = Math.min(HIST_COUNT, tipNum + 1)] and
    [start = tipNum - count + 1]. *)
Definition countOf (tipNum : num) : num :=
  Js.min (Int HIST_COUNT) (Js.add tipNum (Int 1)).

Definition startOf (tipNum : num) : num :=
  Js.add (Js.sub tipNum (countOf tipNum)) (Int 1).

Section Aggregator.

Variable node : Node.

(** [Promise.all([rpcCall('get_tip_header'), rpcCall('get_blockchain_info')])]. *)
Definition fetchTipAndInfo : M (value * value) :=
  promiseAll2 node (rpcCall node "get_tip_header" [])
                   (rpcCall node "get_blockchain_info" []).

(** The batch of [get_header_by_number] for the window of [tipNum]. *)
Definition fetchHeaders (tipNum : num) : M (list value) :=
  rpcBatch node
    (heightRequests "get_header_by_number" (startOf tipNum) (countOf tipNum)).

(** The batch of [get_block_by_number] for the last [txFetchCount] heights. *)
Definition fetchBlocks (tipNum : num) : M (list value) :=
  let txFetchCount := Js.min (Int TX_COUNT) (countOf tipNum) in
  rpcBatch node
    (heightRequests "get_block_by_number"
       (Js.add (Js.sub tipNum txFetchCount) (Int 1)) txFetchCount).

(** What [buildHistory] does between the first [await] and the end of its
    fetches: it reads the tip number and awaits the two batches. *)
Definition afterTipAndInfo (r : value * value)
  : M (num * value * list value * list value) :=
  let '(tipHeader, chainInfo) := r in
  match Js.get tipHeader "number" with
  | None => throw (typeError tipHeader "number")
  | Some n =>
      let tipNum := Js.parseInt16 n in
      do headers <- fetchHeaders tipNum;
      do blocks <- fetchBlocks tipNum;
      ret (tipNum, chainInfo, headers, blocks)
  end.

(** The four fetches of a cycle, in the order [buildHistory] awaits them. *)
Definition fetchAll : M (num * value * list value * list value) :=
  do r <- fetchTipAndInfo; afterTipAndInfo r.

(** [buildHistory()], called when [Date.now()] is [now]. *)
Definition buildHistory (now : Z) : M Snapshot :=
  fun p =>
    match readCache now p with
    | Some s => (inr s, p)
    | None =>
        (do '(tipNum, chainInfo, headers, blocks) <- fetchAll;
         let s := assemble tipNum chainInfo headers blocks in
         do _ <- storeCache s now;
         ret s) p
    end.

End Aggregator.

(** What a call of [buildHistory] has done when it first suspends: nothing
    on a cache hit, otherwise the two requests of [Promise.all] are written. *)
Inductive entered :=
| Hit (s : Snapshot)
| Waiting (tip info : nat * body).

Definition buildHistory_begin (now : Z) (p : Proc) : entered * Proc :=
  match readCache now p with
  | Some s => (Hit s, p)
  | None =>
      let '(tip, p1) := rpcWrite "get_tip_header" [] p in
      let '(info, p2) := rpcWrite "get_blockchain_info" [] p1 in
      (Waiting tip info, p2)
  end.

(** [buildHistory_begin] called [n] times in a row, as by [n] requests that
    arrive before any reply does. *)
Fixpoint beginMany (now : Z) (n : nat) (p : Proc) : list entered * Proc :=
  match n with
  | O => ([], p)
  | S n' =>
      let '(e, p1) := buildHistory_begin now p in
      let '(es, p2) := beginMany now n' p1 in
      (e :: es, p2)
  end.

(** ** Vocabulary of the properties *)

(** The id of a response item, as the comparator of [rpcBatch] reads it. *)
Definition idOf (r : value) : num := Js.toNumber (Js.prop r "id").

Definition idZ (r : value) : Z :=
  match idOf r with Int z => z | Nan => 0 end.

Definition numbered (r : value) : Prop := exists z, idOf r = Int z.

(** The heights [first, first + 1, ...], [len] of them. *)
Definition heights (first : Z) (len : nat) : list num :=
  map (fun i : nat => Int (first + Z.of_nat i)) (seq 0 len).

(** Whether a written request is a single call of method [m]. *)
Definition isCall (m : string) (b : body) : bool :=
  match b with
  | Single r => String.eqb (method r) m
  | Batch _ => false
  end.

Definition callsOf (m : string) (w : list body) : nat :=
  length (filter (fun b => isCall m b = true) w).

Definition cacheSlot (p : Proc) : option Snapshot * Z :=
  (histCache p, histCacheTime p).

(** The number a decimal numeral denotes, as numerator and power-of-ten
    denominator: an optional minus sign, digits, and optionally a point and
    more digits. *)
Fixpoint readDecimal (s : string) (acc : Z) (scale : option Z) : option (Z * Z) :=
  match s with
  | EmptyString => Some (acc, default 1 scale)
  | String "." s' =>
      match scale with
      | None => readDecimal s' acc (Some 1)
      | Some _ => None
      end
  | String c s' =>
      match Text.decDigit c with
      | Some d => readDecimal s' (acc * 10 + d) (option_map (Z.mul 10) scale)
      | None => None
      end
  end.

Definition decimalValue (s : string) : option (Z * Z) :=
  match s with
  | EmptyString => None
  | String "-" s' =>
      match readDecimal s' 0 None with
      | Some (n, d) => Some (- n, d)
      | None => None
      end
  | _ => readDecimal s 0 None
  end.

(** The numeral [s] denotes the fraction [a / b]. *)
Definition denotes (s : string) (a b : Z) : Prop :=
  exists n d, decimalValue s = Some (n, d) /\ n * b = a * d.

(** An action leaves the cache slot alone and only adds to the wire. *)
Definition quiet {A} (m : M A) : Prop :=
  forall p, cacheSlot (snd (m p)) = cacheSlot p /\
            wire p `prefix_of` wire (snd (m p)).

(** Strictly ascending heights. *)
Definition numLt (a b : num) : Prop :=
  match a, b with Int x, Int y => x < y | _, _ => False end.

(** The text [formatHashrate] builds once it has chosen a unit. *)
Definition scaled (h div : Z) (unit : string) : string :=
  Js.toFixed2 (Js.fdiv (Js.ofZ (Z.quot (h * 1000) div)) (Js.ofZ 1000))
  +:+ " " +:+ unit.

(** Whether [blocks.forEach] records a count for [b], and under which key. *)
Definition recorded (b : value) : bool :=
  Js.truthy b && Js.truthy (Js.prop b "header").

Definition heightOf (b : value) : num :=
  Js.parseInt16 (Js.prop (Js.prop b "header") "number").

Definition isWaitingForTip (e : entered) : Prop :=
  exists tip info, e = Waiting tip info /\ isCall "get_tip_header" (snd tip) = true.

(** Whether the header batch holds a header (a truthy result) at position
    [i]. *)
Definition present (hs : list value) (i : nat) : bool :=
  match hs !! i with
  | Some h => Js.truthy h
  | None => false
  end.

(** The positions of the header batch that yield an entry of [blocks]:
    those from 1 on at which the header and the one before it are present. *)
Definition rowPositions (hs : list value) : list nat :=
  List.filter (fun i => present hs i && present hs (i - 1))
              (seq 1 (length hs - 1)).

(** ** Sample nodes *)

Module Sample.

Definition hex (n : Z) : value := VStr ("0x" +:+ Text.integer 16 n).

(** A header as the node prints it. *)
Definition header (height ts : Z) : value :=
  VObj [("number", hex height); ("timestamp", hex ts)].

(** A full block with [k] transactions. *)
Definition block (height : Z) (k : nat) : value :=
  VObj [("header", header height 0);
        ("transactions", VArr (replicate k (VStr "0x")))].

Definition envelope (i : Z) (r : value) : value :=
  VObj [("jsonrpc", VStr "2.0"); ("id", VNum i); ("result", r)].

Definition failure (i : Z) (c : Z) (msg : string) : value :=
  VObj [("jsonrpc", VStr "2.0"); ("id", VNum i);
        ("error", VObj [("code", VNum c); ("message", VStr msg)])].

(** A node that answers the [n]-th request with the [n]-th reply of a
    script, and lets requests beyond the script time out. *)
Definition script (replies : list (error + value)) : Node :=
  mkNode (fun n _ => nth n replies (inl timeoutError)) false.

Definition fresh : Proc := mkProc 1 None 0 [].

Definition chainInfo : value := VObj [("difficulty", hex (10 ^ 13))].

(** The tip is block 3; the header batch arrives out of order. *)
Definition tipReply : error + value := inr (envelope 1 (header 3 10123)).
Definition infoReply : error + value := inr (envelope 2 chainInfo).

Definition headerItems : list value :=
  [envelope 2 (header 2 2000); envelope 0 (header 0 0);
   envelope 3 (header 3 10123); envelope 1 (header 1 1000)].

Definition blockItems : list value :=
  [envelope 0 (block 0 1); envelope 1 (block 1 5);
   envelope 2 (block 2 2); envelope 3 (block 3 0)].

Definition healthy : Node :=
  script [tipReply; infoReply; inr (VArr headerItems); inr (VArr blockItems)].

(** The node reports no difficulty. *)
Definition noDifficulty : Node :=
  script [tipReply; inr (envelope 2 (VObj [("chain", VStr "ckb")]));
          inr (VArr headerItems); inr (VArr blockItems)].

(** The header of height 2 is missing from the batch reply. *)
Definition gapItems : list value :=
  [envelope 0 (header 0 0); envelope 1 (header 1 1000);
   envelope 2 VNull; envelope 3 (header 3 10123)].

Definition gappy : Node :=
  script [tipReply; infoReply; inr (VArr gapItems); inr (VArr blockItems)].

(** The block batch times out. *)
Definition blocksDown : Node :=
  script [tipReply; infoReply; inr (VArr headerItems); inl timeoutError].

(** The header batch is refused by the network. *)
Definition refused : error :=
  mkError "Error" "connect ECONNREFUSED 192.168.68.87:8114" (Some "ECONNREFUSED").

Definition headersDown : Node :=
  script [tipReply; infoReply; inl refused].

(** A snapshot cached long ago. *)
Definition oldSnapshot : Snapshot := mkSnapshot [] "0.00" unavailable [] (Int 0).
Definition stale : Proc := mkProc 7 (Some oldSnapshot) 1000 [].

(** Two headers, 8123 ms apart. *)
Definition twoHeaders : list value := [header 0 0; header 1 8123].

(** The block of height 2 is missing from the batch reply. *)
Definition sparseBlocks : list value :=
  [block 0 1; block 1 5; VNull; block 3 0].

Definition orderedHeaders : list value :=
  [header 0 0; header 1 1000; header 2 2000; header 3 10123].

(** The node reports an error whose message is the one of a timeout. *)
Definition complaining (c : Z) : Node :=
  script [inr (failure 1 c "CKB node request timed out")].

Definition silent : Node := script [].

End Sample.

(** ** The status page helpers and the proxy route *)

Module Arith.

(** [a % b] on integer-valued Numbers: the remainder has the sign of the
    dividend; NaN for a NaN operand and for a zero divisor. *)
Definition rem (a b : num) : num :=
  match a, b with
  | Int x, Int y => if y =? 0 then Nan else Int (Z.rem x y)
  | _, _ => Nan
  end.

(** [Math.floor], computed exactly on the value [m * 2^e]. *)
Definition floor (x : spec_float) : Js.rounded :=
  match x with
  | S754_nan => Js.RNan
  | S754_infinity s => Js.RInf s
  | S754_zero _ => Js.RInt 0
  | S754_finite s m e =>
      Js.RInt (if 0 <=? e then Js.signed s m * 2 ^ e
               else Js.signed s m / 2 ^ (- e))
  end.

(** [r > 0]. *)
Definition positive (r : Js.rounded) : bool :=
  match r with
  | Js.RInt z => 0 <? z
  | Js.RInf neg => negb neg
  | Js.RNan => false
  end.

(** The text of [r] inside a template string (integers below 10^21 in
    magnitude, which print in full). *)
Definition show (r : Js.rounded) : string :=
  match r with
  | Js.RInt z => Text.integer 10 z
  | Js.RInf neg => if neg then "-Infinity" else "Infinity"
  | Js.RNan => "NaN"
  end.

End Arith.

(** [formatUptime(secs)]. *)
Definition formatUptime (secs : value) : string :=
  if negb (Js.truthy secs) then "—"
  else
    let n := Js.toNumber secs in
    let d := Arith.floor (Js.fdiv (Js.toFloat n) (Js.ofZ 86400)) in
    let h := Arith.floor (Js.fdiv (Js.toFloat (Arith.rem n (Int 86400)))
                                   (Js.ofZ 3600)) in
    let m := Arith.floor (Js.fdiv (Js.toFloat (Arith.rem n (Int 3600)))
                                   (Js.ofZ 60)) in
    if Arith.positive d then
      Arith.show d +:+ "d " +:+ Arith.show h +:+ "h " +:+ Arith.show m +:+ "m"
    else if Arith.positive h then
      Arith.show h +:+ "h " +:+ Arith.show m +:+ "m"
    else Arith.show m +:+ "m".

(** [BigInt('0x' + v.replace(/^0x/, ''))] for a [v] that is not null;
    [None] when a TypeError or a SyntaxError is raised. *)
Definition bigIntOfHex (v : value) : option Z :=
  match v with
  | VStr s =>
      Text.readAll Text.hexDigit 16
                   (Text.trimRight (default s (Text.stripHexPrefix false s))) None
  | _ => None
  end.

(** What the epoch block of [buildShowData] computes from the tip header. *)
Record Epoch := mkEpoch {
  epochNum : Z;
  epochIdx : Z;          (* the local [idx] *)
  epochLength : Z;       (* the local [length] *)
  epochPct : spec_float
}.

(** The body of the [try] block once [tip] has arrived; [None] when it is
    left through [catch], with [epochNum] and [epochPct] still undefined. *)
Definition decodeEpoch (tip : value) : option Epoch :=
  match Js.get tip "epoch" with
  | None => None
  | Some epochHex =>
      match bigIntOfHex epochHex with
      | None => None
      | Some epochVal =>
          let num := Z.land (Z.shiftr epochVal 32) 65535 in
          let idx := Z.land epochVal 65535 in
          let len := Z.land (Z.shiftr epochVal 16) 65535 in
          Some (mkEpoch num idx len
                        (if 0 <? len then Js.fdiv (Js.ofZ idx) (Js.ofZ len)
                         else S754_zero false))
      end
  end.

(** The epoch word that the comment of [buildShowData] describes: the block
    index in bits 0-15, the epoch length in bits 16-31 and the epoch number
    in bits 32-47. *)
Definition epochWord (num idx len : Z) : Z :=
  Z.lor (Z.shiftl num 32) (Z.lor (Z.shiftl len 16) idx).

Definition MAX_BODY : Z := 64 * 1024.

Section ProxyBody.

(** The text of a chunk: [body += d] appends [d.toString()], the bytes of the
    Buffer [d] decoded as UTF-8 on their own, where a byte sequence that is
    not complete and valid inside the chunk becomes U+FFFD. The result is
    given by its UTF-8 bytes, the bytes [proxyRpc] writes for it; it is the
    chunk itself when the chunk is valid UTF-8 on its own (ASCII, say), and
    can be up to three times as long when it is not. *)
Variable decode : string -> string.

(** The [data] handler of the [/rpc] route: the state is [body] and
    [bodySize], a chunk is the bytes of its Buffer, [d.length] their
    number. *)
Definition onData (st : string * Z) (d : string) : string * Z :=
  let '(body, bodySize) := st in
  let bodySize' := bodySize + Z.of_nat (String.length d) in
  if MAX_BODY <? bodySize' then (body, bodySize')
  else (body +:+ decode d, bodySize').

(** [body] and [bodySize] after the chunks of a request. *)
Definition received (chunks : list string) : string * Z :=
  fold_left onData chunks ("", 0).

End ProxyBody.



(** U+FFFD in UTF-8. *)
Definition replacement : string :=
  String (ascii_of_nat 239) (String (ascii_of_nat 191) (String (ascii_of_nat 189) "")).

(** ** More vocabulary *)

(** What a process does with its node, one call after the other. *)
Inductive action :=
| DoCall (m : string) (ps : list value)
| DoBatch (requests : list (string * list value))
| DoHistory (now : Z).

Definition perform (node : Node) (p : Proc) (a : action) : Proc :=
  match a with
  | DoCall m ps => snd (rpcCall node m ps p)
  | DoBatch requests => snd (rpcBatch node requests p)
  | DoHistory now => snd (buildHistory node now p)
  end.

Definition performAll (node : Node) (acts : list action) (p : Proc) : Proc :=
  fold_left (perform node) acts p.

(** The ids of the single calls on the wire, oldest first. *)
Definition singleIds (w : list body) : list Z :=
  omap (fun b => match b with Single r => Some (id r) | Batch _ => None end) w.

(** The ids handed out so far are ascending and below the next one. *)
Definition idsInOrder (p : Proc) : Prop :=
  StronglySorted Z.lt (singleIds (wire p)) /\
  Forall (fun i => i < rpcId p) (singleIds (wire p)).

(** The heights a batch asks for, as the node reads them. *)
Definition askedHeights (b : body) : list (list num) :=
  match b with
  | Batch rs => map (fun r => map Js.parseInt16 (params r)) rs
  | Single r => [map Js.parseInt16 (params r)]
  end.

Definition timestampOf (h : value) : num := Js.parseInt16 (Js.prop h "timestamp").

(** A block time that is NaN, or an integer of less than 48 bits. *)
Definition modest (t : num) : Prop :=
  match t with Nan => True | Int z => Z.abs z < 2 ^ 48 end.

(** An action keeps the ids handed out in order and never lowers [rpcId]. *)
Definition orderly {A} (m : M A) : Prop :=
  forall p, (idsInOrder p -> idsInOrder (snd (m p))) /\ rpcId p <= rpcId (snd (m p)).

Definition isBatch (b : body) : Prop := exists rs, b = Batch rs.

(** A zero or a finite double: neither NaN nor an infinity. *)
Definition settled (x : spec_float) : Prop :=
  match x with
  | S754_zero _ | S754_finite _ _ _ => True
  | _ => False
  end.

(** Plus zero or a positive finite double. *)
Definition nonnegFinite (x : spec_float) : Prop :=
  match x with
  | S754_zero false | S754_finite false _ _ => True
  | _ => False
  end.

(** Thirteen headers, 8 s apart. *)
Definition steadyHeaders : list value :=
  map (fun i : nat => Sample.header (Z.of_nat i) (8000 * Z.of_nat i)) (seq 0 13).

Example parseInt16_hex : Js.parseInt16 (VStr "0x1f") = Int 31.
Proof. reflexivity. Qed.

Example parseInt16_false : Js.parseInt16 (VBool false) = Int 250.
Proof. reflexivity. Qed.

Example parseInt16_undefined : Js.parseInt16 VUndef = Nan.
Proof. reflexivity. Qed.

Example toString16_255 : Js.toString16 (Int 255) = "ff".
Proof. reflexivity. Qed.

Example toString_array : Js.toString (VArr [VNum 1; VNull; VStr "a"]) = "1,,a".
Proof. reflexivity. Qed.

Example toFixed2_half : Js.toFixed2 (Js.fdiv (Js.ofZ 1005) (Js.ofZ 1000)) = "1.00".
Proof. vm_compute. reflexivity. Qed.

Example toFixed2_neg : Js.toFixed2 (Js.fdiv (Js.ofZ (-1)) (Js.ofZ 1000)) = "-0.00".
Proof. vm_compute. reflexivity. Qed.

Example toFixed2_big : Js.toFixed2 (Js.ofZ (2 ^ 70)) = "1.1805916207174113e+21".
Proof. vm_compute. reflexivity. Qed.

Example toFixed2_e22 : Js.toFixed2 (Js.ofZ (10 ^ 22)) = "1e+22".
Proof. vm_compute. reflexivity. Qed.

Example toFixed2_999 : Js.toFixed2 (Js.fdiv (Js.ofZ 999999) (Js.ofZ 1000)) = "1000.00".
Proof. vm_compute. reflexivity. Qed.

Example mathRound_half : Js.mathRound (Js.fdiv (Js.ofZ 5) (Js.ofZ 2)) = Js.RInt 3.
Proof. vm_compute. reflexivity. Qed.

Example mathRound_neg_half : Js.mathRound (Js.fdiv (Js.ofZ (-5)) (Js.ofZ 2)) = Js.RInt (-2).
Proof. vm_compute. reflexivity. Qed.

Example formatHashrate_zero : formatHashrate 0 = "0 H/s".
Proof. vm_compute. reflexivity. Qed.

Example formatHashrate_tera : formatHashrate (10 ^ 12) = "1.00 TH/s".
Proof. vm_compute. reflexivity. Qed.

(** * Properties *)

(** ** The pieces of a snapshot *)

Lemma assemble_blocks tip ci hs bs :
  blocks (assemble tip ci hs bs) = buildBlockData (buildTxMap bs) hs.
Proof. unfold assemble. by destruct (hashrates _ _ _). Qed.

Lemma assemble_avg tip ci hs bs :
  avgBlockTimeSec (assemble tip ci hs bs)
  = Js.toFixed2 (avgSecOf (buildBlockData (buildTxMap bs) hs)).
Proof. unfold assemble. by destruct (hashrates _ _ _). Qed.

Lemma assemble_hashrates tip ci hs bs :
  (networkHashrate (assemble tip ci hs bs), hashratePerBlock (assemble tip ci hs bs))
  = hashrates ci (avgSecOf (buildBlockData (buildTxMap bs) hs))
              (buildBlockData (buildTxMap bs) hs).
Proof. unfold assemble. by destruct (hashrates _ _ _). Qed.

Lemma assemble_tip tip ci hs bs : tipHeight (assemble tip ci hs bs) = tip.
Proof. unfold assemble. by destruct (hashrates _ _ _). Qed.

(** A cycle that finds the cache stale is its fetches, then the assembly,
    then the store. *)
Lemma buildHistory_stale node now p :
  readCache now p = None ->
  buildHistory node now p =
    match fetchAll node p with
    | (inl e, p1) => (inl e, p1)
    | (inr (tipNum, chainInfo, headers, blocks), p1) =>
        let s := assemble tipNum chainInfo headers blocks in
        (inr s, mkProc (rpcId p1) (Some s) now (wire p1))
    end.
Proof.
  intros H. unfold buildHistory. rewrite H. unfold bind.
  destruct (fetchAll node p) as [[e|[[[tipNum chainInfo] headers] blocks]] p1];
    reflexivity.
Qed.

Lemma buildHistory_fresh node now p s :
  readCache now p = Some s -> buildHistory node now p = (inr s, p).
Proof. intros H. unfold buildHistory. by rewrite H. Qed.

(** ** Binary64 arithmetic

    What the correctly rounded division does to the integers the program
    divides: a quotient of two doubles with full mantissas is a finite
    double within two units in the last place of the 54-bit quotient. *)

Section Binary64.

Lemma fexp_binary64 e : fexp 53 1024 e = Z.max (e - 53) (-1074).
Proof. reflexivity. Qed.

Lemma digits2_pos_size p : digits2_pos p = Pos.size p.
Proof. induction p; simpl; congruence. Qed.

Lemma size_bounds p :
  2 ^ Z.pos (Pos.size p) <= 2 * Z.pos p /\ Z.pos p < 2 ^ Z.pos (Pos.size p).
Proof.
  pose proof (Pos.size_gt p) as Hgt. pose proof (Pos.size_le p) as Hle.
  apply Pos2Z.pos_lt_pos in Hgt. apply Pos2Z.pos_le_pos in Hle.
  rewrite Pos2Z.inj_pow in Hgt, Hle.
  change (Z.pos p~0) with (2 * Z.pos p) in Hle. lia.
Qed.

Lemma Zdigits2_range m a :
  0 < a -> 2 ^ (a - 1) <= m < 2 ^ a -> Zdigits2 m = a.
Proof.
  intros Ha [Hlo Hhi].
  assert (0 < m) as Hm by (pose proof (Z.pow_pos_nonneg 2 (a - 1)); lia).
  destruct m as [|p|p]; try lia.
  simpl. rewrite digits2_pos_size.
  destruct (size_bounds p) as [H2 H1].
  destruct (Z.lt_trichotomy (Z.pos (Pos.size p)) a) as [H|[H|H]]; [|exact H|].
  - assert (2 ^ Z.pos (Pos.size p) <= 2 ^ (a - 1)) by (apply Z.pow_le_mono_r; lia). lia.
  - assert (2 ^ (a + 1) <= 2 ^ Z.pos (Pos.size p)) by (apply Z.pow_le_mono_r; lia).
    rewrite Z.pow_add_r in * by lia. lia.
Qed.

Lemma iter_xO_value p n : Z.pos (Pos.iter xO p n) = Z.pos p * 2 ^ Z.pos n.
Proof.
  induction n as [|n IH] using Pos.peano_ind.
  - simpl. lia.
  - rewrite Pos.iter_succ, Pos2Z.inj_xO, IH, Pos2Z.inj_succ, Z.pow_succ_r by lia. lia.
Qed.

Lemma shr_fexp_canonical m e l :
  Zdigits2 m = 53 -> -1074 <= e ->
  shr_fexp 53 1024 m e l = (shr_record_of_loc m l, e).
Proof.
  intros Hd He. unfold shr_fexp. rewrite Hd, fexp_binary64.
  replace (Z.max (53 + e - 53) (-1074) - e) with 0 by lia. reflexivity.
Qed.

Lemma binary_round_aux_canonical s m e :
  Zdigits2 (Z.pos m) = 53 -> -1074 <= e <= 971 ->
  binary_round_aux 53 1024 s (Z.pos m) e loc_Exact = S754_finite s m e.
Proof.
  intros Hd He. unfold binary_round_aux.
  rewrite (shr_fexp_canonical _ _ _ Hd) by lia. simpl.
  rewrite (shr_fexp_canonical _ _ _ Hd) by lia. simpl.
  destruct (Z.leb_spec e (1024 - 53)); [reflexivity | lia].
Qed.

(** A positive integer below 2^53 is a double: its [d] binary digits, moved
    to the top of the 53-bit mantissa. *)
Lemma binary_round_small (s : bool) p :
  Z.pos p < 2 ^ 53 ->
  exists m, binary_round 53 1024 s p 0 = S754_finite s m (Zdigits2 (Z.pos p) - 53) /\
            Z.pos m = Z.pos p * 2 ^ (53 - Zdigits2 (Z.pos p)) /\
            Zdigits2 (Z.pos m) = 53 /\ 1 <= Zdigits2 (Z.pos p) <= 53.
Proof.
  intros Hhi.
  assert (1 <= Zdigits2 (Z.pos p) <= 53) as Hd.
  { simpl. rewrite digits2_pos_size. destruct (size_bounds p) as [H1 H2].
    split; [lia|].
    destruct (Z.le_gt_cases (Z.pos (Pos.size p)) 53) as [H|H]; [exact H|].
    assert (2 ^ 54 <= 2 ^ Z.pos (Pos.size p)) by (apply Z.pow_le_mono_r; lia).
    lia. }
  assert (2 ^ (Zdigits2 (Z.pos p) - 1) <= Z.pos p < 2 ^ Zdigits2 (Z.pos p)) as Hr.
  { simpl. rewrite digits2_pos_size. destruct (size_bounds p) as [H1 H2].
    split; [|exact H2].
    replace (Z.pos (Pos.size p)) with (Z.pos (Pos.size p) - 1 + 1) in H1 by lia.
    rewrite Z.pow_add_r in H1 by lia. lia. }
  set (d := Zdigits2 (Z.pos p)) in *.
  unfold binary_round.
  change (Z.pos (digits2_pos p)) with d. rewrite fexp_binary64.
  replace (Z.max (d + 0 - 53) (-1074)) with (d - 53) by lia.
  unfold shl_align.
  destruct (d - 53 - 0) as [|n|n] eqn:Hs; try lia.
  - exists p. assert (d = 53) as Hd53 by lia.
    rewrite binary_round_aux_canonical by (fold d; lia).
    split; [f_equal; lia|]. rewrite Hd53. simpl. split; [lia|]. split; [exact Hd53 | lia].
  - assert (Zdigits2 (Z.pos (Pos.iter xO p n)) = 53) as Hd'.
    { apply Zdigits2_range; [lia|]. rewrite iter_xO_value.
      assert (Z.pos n = 53 - d) as -> by lia.
      split.
      - replace (53 - 1) with ((d - 1) + (53 - d)) by lia.
        rewrite Z.pow_add_r by lia. apply Z.mul_le_mono_nonneg_r; [apply Z.pow_nonneg|]; lia.
      - replace 53 with (d + (53 - d)) at 2 by lia.
        rewrite Z.pow_add_r by lia. apply Z.mul_lt_mono_pos_r; [apply Z.pow_pos_nonneg|]; lia. }
    exists (Pos.iter xO p n).
    rewrite binary_round_aux_canonical by (try exact Hd'; lia).
    split; [reflexivity|]. split; [|split; [exact Hd' | lia]].
    rewrite iter_xO_value. f_equal. f_equal. lia.
Qed.

Lemma ofZ_small k :
  0 < k < 2 ^ 53 ->
  exists m, Js.ofZ k = S754_finite false m (Zdigits2 k - 53) /\
            Z.pos m = k * 2 ^ (53 - Zdigits2 k) /\
            Zdigits2 (Z.pos m) = 53 /\ 1 <= Zdigits2 k <= 53.
Proof.
  intros [Hlo Hhi]. destruct k as [|p|p]; try lia.
  apply (binary_round_small false p Hhi).
Qed.

Lemma ofZ_small_neg k :
  0 < k < 2 ^ 53 ->
  exists m, Js.ofZ (- k) = S754_finite true m (Zdigits2 k - 53) /\
            Z.pos m = k * 2 ^ (53 - Zdigits2 k) /\
            Zdigits2 (Z.pos m) = 53 /\ 1 <= Zdigits2 k <= 53.
Proof.
  intros [Hlo Hhi]. destruct k as [|p|p]; try lia.
  apply (binary_round_small true p Hhi).
Qed.

Lemma round_nearest_even_near m l :
  m <= round_nearest_even m l <= m + 1.
Proof. destruct l as [|[]]; simpl; try destruct (Z.even m); lia. Qed.

Lemma shr_fexp_54 m e l :
  0 < m -> Zdigits2 m = 54 -> -1074 <= e ->
  exists mrs, shr_fexp 53 1024 m e l = (mrs, e + 1) /\ shr_m mrs = m / 2.
Proof.
  intros Hm Hd He. unfold shr_fexp. rewrite Hd, fexp_binary64.
  replace (Z.max (54 + e - 53) (-1074) - e) with 1 by lia.
  unfold shr. simpl iter_pos.
  exists (shr_1 (shr_record_of_loc m l)). split; [reflexivity|].
  rewrite <- Z.div2_div.
  destruct m as [|p|p]; try lia.
  destruct p; [| |vm_compute in Hd; discriminate Hd];
    destruct l as [|[]]; reflexivity.
Qed.

(** The second normalisation of [binary_round_aux], after rounding. *)
Lemma renormalise (s : bool) m' e :
  2 ^ 52 <= m' <= 2 ^ 53 -> -1074 <= e <= 970 ->
  exists m e2,
    (let '(mrs'', e'') := shr_fexp 53 1024 m' e loc_Exact in
     match shr_m mrs'' with
     | Z0 => S754_zero s
     | Zpos m => if e'' <=? 1024 - 53 then S754_finite s m e'' else S754_infinity s
     | Zneg _ => S754_nan
     end) = S754_finite s m e2 /\
    e <= e2 <= e + 1 /\ 2 ^ 52 <= Z.pos m < 2 ^ 53 /\
    Z.pos m * 2 ^ (e2 - e) = m'.
Proof.
  intros Hm He. destruct (Z.ltb_spec m' (2 ^ 53)) as [Hlt|Hge].
  - rewrite shr_fexp_canonical by (try (apply Zdigits2_range; lia); lia).
    simpl shr_m. destruct m' as [|p|p]; try lia.
    destruct (Z.leb_spec e (1024 - 53)); [|lia].
    exists p, e. rewrite Z.sub_diag. change (2 ^ 0) with 1.
    split; [reflexivity|]. lia.
  - assert (m' = 2 ^ 53) as -> by lia.
    destruct (shr_fexp_54 (2 ^ 53) e loc_Exact) as (mrs & -> & Hmrs);
      [reflexivity | reflexivity | lia|].
    rewrite Hmrs. change (2 ^ 53 / 2) with (Z.pos (2 ^ 52)).
    destruct (Z.leb_spec (e + 1) (1024 - 53)); [|lia].
    exists (2 ^ 52)%positive, (e + 1). replace (e + 1 - e) with 1 by lia.
    split; [reflexivity|]. split; [lia|]. split; [lia | reflexivity].
Qed.

Lemma loc_of_shr_record_of_loc m l : loc_of_shr_record (shr_record_of_loc m l) = l.
Proof. by destruct l as [|[]]. Qed.

(** Rounding a quotient of 53 or 54 bits to a double moves it by less than
    two units of its last place. *)
Lemma binary_round_aux_quotient (s : bool) q e l :
  2 ^ 52 <= q < 2 ^ 54 -> -1074 <= e <= 960 ->
  exists m e2,
    binary_round_aux 53 1024 s q e l = S754_finite s m e2 /\
    e <= e2 <= e + 2 /\ 2 ^ 52 <= Z.pos m < 2 ^ 53 /\
    q - 1 <= Z.pos m * 2 ^ (e2 - e) <= q + 2.
Proof.
  intros Hq He. unfold binary_round_aux.
  destruct (Z.ltb_spec q (2 ^ 53)) as [Hlt|Hge].
  - rewrite shr_fexp_canonical by (try (apply Zdigits2_range; lia); lia).
    rewrite loc_of_shr_record_of_loc.
    assert (shr_m (shr_record_of_loc q l) = q) as -> by (by destruct l as [|[]]).
    pose proof (round_nearest_even_near q l) as Hr.
    destruct (renormalise s (round_nearest_even q l) e) as (m & e2 & -> & He2 & Hm & Hv);
      [lia | lia |].
    exists m, e2. repeat split; lia.
  - destruct (shr_fexp_54 q e l) as (mrs & -> & Hmrs);
      [lia | apply Zdigits2_range; lia | lia |].
    pose proof (round_nearest_even_near (shr_m mrs) (loc_of_shr_record mrs)) as Hr.
    rewrite Hmrs in Hr.
    assert (2 ^ 52 <= q / 2 < 2 ^ 53) as Hh.
    { split; [apply Z.div_le_lower_bound; lia | apply Z.div_lt_upper_bound; lia]. }
    destruct (renormalise s (round_nearest_even (shr_m mrs) (loc_of_shr_record mrs)) (e + 1))
      as (m & e2 & -> & He2 & Hm & Hv); [rewrite Hmrs; lia | lia |].
    exists m, e2. split; [reflexivity|]. split; [lia|]. split; [exact Hm|].
    replace (e2 - e) with ((e2 - (e + 1)) + 1) by lia.
    rewrite Z.pow_add_r by lia. rewrite Z.mul_assoc, Hv, Hmrs.
    pose proof (Z.div_mod q 2 ltac:(lia)) as Hdm.
    pose proof (Z.mod_pos_bound q 2 ltac:(lia)) as Hmod.
    change (2 ^ 1) with 2. lia.
Qed.

Lemma Zdigits2_53_range m : Zdigits2 (Z.pos m) = 53 -> 2 ^ 52 <= Z.pos m < 2 ^ 53.
Proof.
  simpl. rewrite digits2_pos_size. intros [= H].
  destruct (size_bounds m) as [H1 H2]. rewrite H in H1, H2. lia.
Qed.

(** The quotient of two doubles with full mantissas. *)
Lemma SFdiv_finite (s : bool) m1 e1 m2 e2 :
  Zdigits2 (Z.pos m1) = 53 -> Zdigits2 (Z.pos m2) = 53 ->
  -1000 <= e1 - e2 <= 1000 ->
  exists q m e,
    Z.pos m2 * q <= Z.pos m1 * 2 ^ 53 < Z.pos m2 * (q + 1) /\
    SFdiv 53 1024 (S754_finite s m1 e1) (S754_finite false m2 e2)
      = S754_finite s m e /\
    e1 - e2 - 53 <= e <= e1 - e2 - 51 /\
    2 ^ 52 <= Z.pos m < 2 ^ 53 /\
    q - 1 <= Z.pos m * 2 ^ (e - (e1 - e2 - 53)) <= q + 2.
Proof.
  intros H1 H2 He.
  pose proof (Zdigits2_53_range m1 H1) as R1.
  pose proof (Zdigits2_53_range m2 H2) as R2.
  unfold SFdiv, SFdiv_core_binary. rewrite H1, H2, fexp_binary64.
  replace (Z.min (Z.max (53 + e1 - (53 + e2) - 53) (-1074)) (e1 - e2))
    with (e1 - e2 - 53) by lia.
  replace (e1 - e2 - (e1 - e2 - 53)) with 53 by lia.
  rewrite Z.shiftl_mul_pow2 by lia.
  pose proof (Z_div_mod (Z.pos m1 * 2 ^ 53) (Z.pos m2) ltac:(lia)) as Hdiv.
  destruct (Z.div_eucl (Z.pos m1 * 2 ^ 53) (Z.pos m2)) as [q r].
  destruct Hdiv as [Heq Hr].
  assert (2 ^ 52 <= q < 2 ^ 54) as Hq by nia.
  destruct (binary_round_aux_quotient s q (e1 - e2 - 53)
              (new_location (Z.pos m2) r)) as (m & e & Hres & Hbe & Hm & Hv);
    [exact Hq | lia |].
  exists q, m, e. rewrite Bool.xorb_false_r, Hres.
  split; [lia|]. split; [reflexivity|]. split; [lia|]. split; [exact Hm | exact Hv].
Qed.

Lemma Zdigits2_bounds k :
  0 < k -> 2 ^ (Zdigits2 k - 1) <= k < 2 ^ Zdigits2 k.
Proof.
  intros Hk. destruct k as [|p|p]; try lia.
  simpl. rewrite digits2_pos_size. destruct (size_bounds p) as [H1 H2].
  split; [|exact H2].
  replace (Z.pos (Pos.size p)) with (Z.pos (Pos.size p) - 1 + 1) in H1 by lia.
  rewrite Z.pow_add_r in H1 by lia. lia.
Qed.

Lemma ofZ_1000 : Js.ofZ 1000 = S754_finite false 8796093022208000 (-43).
Proof. reflexivity. Qed.

(** From a strict bound by a large multiple to a bound between integers. *)
Lemma small_excess (T a : Z) : 4000 < T -> T * a <= 4000 -> a <= 0.
Proof. nia. Qed.

(** The text of [k / 1000] with two decimals is that of the hundredths
    nearest to it. *)
Lemma toFixed2_thousandths k :
  1 <= k < 2 ^ 40 ->
  exists n,
    Js.toFixed2 (Js.fdiv (Js.ofZ k) (Js.ofZ 1000)) = Js.fixed2 n /\
    0 <= n /\ 10 * n - 5 <= k <= 10 * n + 5.
Proof.
  intros Hk.
  destruct (ofZ_small k) as (m1 & Hof & Hm1 & Hd1 & Hd); [lia|].
  pose proof (Zdigits2_bounds k ltac:(lia)) as Hkb.
  set (d := Zdigits2 k) in *.
  assert (d <= 40) as Hd40.
  { destruct (Z.le_gt_cases d 40) as [H|H]; [exact H|].
    assert (2 ^ 40 <= 2 ^ (d - 1)) by (apply Z.pow_le_mono_r; lia). lia. }
  unfold Js.fdiv, Js.prec, Js.emax. rewrite Hof, ofZ_1000.
  destruct (SFdiv_finite false m1 (d - 53) 8796093022208000 (-43))
    as (q & m & e & Hq & -> & He & Hm & Hv); [exact Hd1 | reflexivity | lia |].
  replace (d - 53 - -43 - 53) with (d - 63) in * by lia.
  replace (d - 53 - -43 - 51) with (d - 61) in He by lia.
  unfold Js.toFixed2.
  destruct (Z.leb_spec 0 e) as [H0|H0]; [lia|].
  assert (0 < 2 ^ (- e)) as HP by (apply Z.pow_pos_nonneg; lia).
  destruct (Z.leb_spec (10 ^ 21 * 2 ^ (- e)) (Z.pos m)) as [Hbig|_]; [nia|].
  unfold Js.nearestUp. destruct (Z.leb_spec 0 e) as [H0'|_]; [lia|].
  set (P := 2 ^ (- e)) in *.
  replace (2 ^ (1 - e)) with (2 * P)
    by (unfold P; replace (1 - e) with (1 + - e) by lia; by rewrite Z.pow_add_r by lia).
  set (n := (2 * 100 * Z.pos m + P) / (2 * P)).
  exists n. split; [reflexivity|].
  pose proof (Z.div_mod (2 * 100 * Z.pos m + P) (2 * P) ltac:(lia)) as Hdm.
  pose proof (Z.mod_pos_bound (2 * 100 * Z.pos m + P) (2 * P) ltac:(lia)) as Hmod.
  fold n in Hdm.
  assert (0 <= n) as Hn by (apply Z.div_pos; lia).
  split; [exact Hn|].
  set (S := 2 ^ (e - (d - 63))) in *.
  set (T := 2 ^ (63 - d)).
  assert (T = P * S) as HT.
  { unfold T, P, S. rewrite <- Z.pow_add_r by lia. f_equal. lia. }
  assert (0 < S) as HS by (apply Z.pow_pos_nonneg; lia).
  assert (4000 < T) as HTbig.
  { assert (2 ^ 23 <= T) by (apply Z.pow_le_mono_r; lia). lia. }
  assert (Z.pos m1 * 2 ^ 53 = k * T * 2 ^ 43) as Hnum.
  { rewrite Hm1. unfold T. rewrite <- !Z.mul_assoc, <- !Z.pow_add_r by lia.
    f_equal. f_equal. lia. }
  change 8796093022208000 with (1000 * 2 ^ 43) in Hq. rewrite Hnum in Hq.
  assert (1000 * q <= k * T < 1000 * (q + 1)) as Hq' by lia.
  split.
  - apply Z.le_0_sub. cut (10 * n - 5 - k <= 0); [lia|].
    cut (20 * n - 10 - 2 * k <= 0); [lia|].
    apply (small_excess T); [exact HTbig|]. nia.
  - cut (2 * k - 20 * n - 10 <= 0); [lia|].
    apply (small_excess T); [exact HTbig|]. nia.
Qed.

Lemma pow2_small_range a b : 0 <= a <= b -> 1 <= 2 ^ a <= 2 ^ b.
Proof.
  intros H. split.
  - change 1 with (2 ^ 0). apply Z.pow_le_mono_r; lia.
  - apply Z.pow_le_mono_r; lia.
Qed.

Lemma large_excess (T a B : Z) : 0 <= B < T -> T * a <= B -> a <= 0.
Proof. nia. Qed.

(** The text of a mean of milliseconds, in seconds with two decimals, is
    that of the hundredths nearest to it. *)
Lemma toFixed2_mean (s : bool) a N :
  1 <= a < 2 ^ 40 -> 1 <= N <= 20 ->
  exists c,
    Js.toFixed2 (Js.fdiv (Js.fdiv (Js.ofZ (if s then - a else a)) (Js.ofZ N))
                         (Js.ofZ 1000))
      = (if s then "-" else "") +:+ Js.fixed2 c /\
    0 <= c /\ 10 * N * c - 5 * N <= a <= 10 * N * c + 5 * N.
Proof.
  intros Ha HN.
  assert (exists m1, Js.ofZ (if s then - a else a)
                     = S754_finite s m1 (Zdigits2 a - 53) /\
                     Z.pos m1 = a * 2 ^ (53 - Zdigits2 a) /\
                     Zdigits2 (Z.pos m1) = 53 /\ 1 <= Zdigits2 a <= 53)
    as (m1 & Hof & Hm1 & Hd1 & Hda).
  { destruct s; [apply ofZ_small_neg | apply ofZ_small]; lia. }
  destruct (ofZ_small N) as (mN & HofN & HmN & HdN & HdNr); [lia|].
  pose proof (Zdigits2_bounds a ltac:(lia)) as Hab.
  pose proof (Zdigits2_bounds N ltac:(lia)) as HNb.
  set (da := Zdigits2 a) in *. set (dN := Zdigits2 N) in *.
  assert (da <= 40) as Hda40.
  { destruct (Z.le_gt_cases da 40) as [H|H]; [exact H|].
    assert (2 ^ 40 <= 2 ^ (da - 1)) by (apply Z.pow_le_mono_r; lia). lia. }
  assert (dN <= 5) as HdN5.
  { destruct (Z.le_gt_cases dN 5) as [H|H]; [exact H|].
    assert (2 ^ 5 <= 2 ^ (dN - 1)) by (apply Z.pow_le_mono_r; lia). lia. }
  unfold Js.fdiv, Js.prec, Js.emax. rewrite Hof, HofN, ofZ_1000.
  destruct (SFdiv_finite s m1 (da - 53) mN (dN - 53))
    as (q1 & m' & e' & Hq1 & -> & He' & Hm' & Hv1); [exact Hd1 | exact HdN | lia |].
  replace (da - 53 - (dN - 53) - 53) with (da - dN - 53) in * by lia.
  replace (da - 53 - (dN - 53) - 51) with (da - dN - 51) in He' by lia.
  destruct (SFdiv_finite s m' e' 8796093022208000 (-43))
    as (q2 & m'' & e'' & Hq2 & -> & He'' & Hm'' & Hv2);
    [apply Zdigits2_range; lia | reflexivity | lia |].
  replace (e' - -43 - 53) with (e' - 10) in * by lia.
  replace (e' - -43 - 51) with (e' - 8) in He'' by lia.
  unfold Js.toFixed2.
  destruct (Z.leb_spec 0 e'') as [H0|H0]; [lia|].
  assert (0 < 2 ^ (- e'')) as HP by (apply Z.pow_pos_nonneg; lia).
  destruct (Z.leb_spec (10 ^ 21 * 2 ^ (- e'')) (Z.pos m'')) as [Hbig|_]; [nia|].
  unfold Js.nearestUp. destruct (Z.leb_spec 0 e'') as [H0'|_]; [lia|].
  set (P := 2 ^ (- e'')) in *.
  replace (2 ^ (1 - e'')) with (2 * P)
    by (unfold P; replace (1 - e'') with (1 + - e'') by lia;
        by rewrite Z.pow_add_r by lia).
  set (c := (2 * 100 * Z.pos m'' + P) / (2 * P)).
  exists c. split; [reflexivity|].
  pose proof (Z.div_mod (2 * 100 * Z.pos m'' + P) (2 * P) ltac:(lia)) as Hdm.
  pose proof (Z.mod_pos_bound (2 * 100 * Z.pos m'' + P) (2 * P) ltac:(lia)) as Hmod.
  fold c in Hdm.
  assert (0 <= c) as Hc by (apply Z.div_pos; lia).
  split; [exact Hc|].
  (* the scales *)
  set (S1 := 2 ^ (e' - (da - dN - 53))) in *.
  set (S2 := 2 ^ (e'' - (e' - 10))) in *.
  set (W := 2 ^ (- e')).
  set (U := 2 ^ (53 - da + dN)).
  assert (1 <= S1 <= 4) as HS1 by (apply (pow2_small_range _ 2); lia).
  assert (1 <= S2 <= 4) as HS2 by (apply (pow2_small_range _ 2); lia).
  assert (U = S1 * W) as HU.
  { unfold U, S1, W. rewrite <- Z.pow_add_r by lia. f_equal. lia. }
  assert (1024 * W = P * S2) as HT.
  { unfold W, P, S2. change 1024 with (2 ^ 10).
    rewrite <- !Z.pow_add_r by lia. f_equal. lia. }
  assert (2 ^ 14 <= U) as HUbig by (apply Z.pow_le_mono_r; lia).
  assert (0 < W) as HW by (apply Z.pow_pos_nonneg; lia).
  (* the first quotient, freed of the common power of two *)
  assert (N * q1 <= a * U < N * (q1 + 1)) as Hq1'.
  { assert (Z.pos m1 * 2 ^ 53 = a * U * 2 ^ (53 - dN)) as E1.
    { rewrite Hm1. unfold U. rewrite <- !Z.mul_assoc, <- !Z.pow_add_r by lia.
      f_equal. f_equal. lia. }
    assert (0 < 2 ^ (53 - dN)) by (apply Z.pow_pos_nonneg; lia).
    rewrite E1, HmN in Hq1. nia. }
  assert (1000 * q2 <= 1024 * Z.pos m' < 1000 * (q2 + 1)) as Hq2'.
  { change 8796093022208000 with (1000 * 2 ^ 43) in Hq2.
    change (2 ^ 53) with (1024 * 2 ^ 43) in Hq2. lia. }
  assert (N * (Z.pos m' * S1) <= a * U + 2 * N /\
          a * U < N * (Z.pos m' * S1) + 2 * N) as [HB1 HB2] by nia.
  assert (1000 * (Z.pos m'' * S2) <= 1024 * Z.pos m' + 2000 /\
          1024 * Z.pos m' < 1000 * (Z.pos m'' * S2) + 2000) as [HA1 HA2] by nia.
  assert (2 * (1024 * W) * c <= 200 * (Z.pos m'' * S2) + 1024 * W /\
          200 * (Z.pos m'' * S2) + 1024 * W < 2 * (1024 * W) * c + 2 * (1024 * W))
    as [HC1 HC2] by (rewrite HT; nia).
  assert (2048000 * W * c <= 204800 * Z.pos m' + 400000 + 1024000 * W /\
          204800 * Z.pos m' < 2048000 * W * c + 1024000 * W + 400000)
    as [HD1 HD2] by lia.
  split.
  - cut (10 * N * c - 5 * N - a <= 0); [lia|].
    apply (large_excess (204800 * U) _ 41000000); [lia|].
    assert (2048000 * W * c * (N * S1)
            <= (204800 * Z.pos m' + 400000 + 1024000 * W) * (N * S1)) as HE
      by (apply Z.mul_le_mono_nonneg_r; lia).
    assert (N * S1 <= 80) as HNS by (clear - HN HS1; nia).
    rewrite HU. clear - HE HB1 HU HNS HN. rewrite HU in HB1.
    replace (204800 * (S1 * W) * (10 * N * c - 5 * N - a))
      with (2048000 * W * c * (N * S1) - 1024000 * W * (N * S1)
            - 204800 * (a * (S1 * W))) by ring.
    replace ((204800 * Z.pos m' + 400000 + 1024000 * W) * (N * S1))
      with (204800 * (N * (Z.pos m' * S1)) + 400000 * (N * S1)
            + 1024000 * W * (N * S1)) in HE by ring.
    lia.
  - cut (a - 10 * N * c - 5 * N <= 0); [lia|].
    apply (large_excess (204800 * U) _ 41000000); [lia|].
    assert (204800 * Z.pos m' * (N * S1)
            <= (2048000 * W * c + 1024000 * W + 400000) * (N * S1)) as HE
      by (apply Z.mul_le_mono_nonneg_r; lia).
    assert (N * S1 <= 80) as HNS by (clear - HN HS1; nia).
    rewrite HU. clear - HE HB2 HU HNS HN. rewrite HU in HB2.
    replace (204800 * (S1 * W) * (a - 10 * N * c - 5 * N))
      with (204800 * (a * (S1 * W)) - 2048000 * W * c * (N * S1)
            - 1024000 * W * (N * S1)) by ring.
    replace (204800 * Z.pos m' * (N * S1))
      with (204800 * (N * (Z.pos m' * S1))) in HE by ring.
    replace ((2048000 * W * c + 1024000 * W + 400000) * (N * S1))
      with (2048000 * W * c * (N * S1) + 1024000 * W * (N * S1)
            + 400000 * (N * S1)) in HE by ring.
    lia.
Qed.

End Binary64.

(** ** The batch call restores the request order *)

Section SortById.

Lemma notAfter_numbered a b :
  numbered a -> numbered b -> notAfter a b = (idZ a <=? idZ b).
Proof.
  intros [x Hx] [y Hy]. unfold notAfter, compareIds, idZ.
  fold (idOf a) (idOf b). rewrite Hx, Hy. simpl.
  destruct (Z.leb_spec (x - y) 0), (Z.leb_spec x y); try reflexivity; lia.
Qed.

Lemma insertSorted_Permutation x l : Permutation (insertSorted x l) (x :: l).
Proof.
  induction l as [|y l IH]; simpl; [reflexivity|].
  destruct (notAfter x y); [reflexivity|].
  rewrite IH. apply perm_swap.
Qed.

Lemma sortById_Permutation l : Permutation (sortById l) l.
Proof.
  induction l as [|x l IH]; simpl; [reflexivity|].
  rewrite insertSorted_Permutation. by constructor.
Qed.

Lemma insertSorted_sorted x l :
  numbered x -> Forall numbered l ->
  StronglySorted Z.le (map idZ l) ->
  StronglySorted Z.le (map idZ (insertSorted x l)).
Proof.
  intros Hx Hl Hs. induction l as [|y l IH]; simpl.
  - repeat constructor.
  - inversion Hl as [|? ? Hy Hl']; subst.
    inversion Hs as [|? ? Hs' Hall]; subst.
    rewrite (notAfter_numbered x y Hx Hy).
    destruct (Z.leb_spec (idZ x) (idZ y)) as [Hle|Hgt]; simpl.
    + constructor; [constructor; assumption|].
      constructor; [assumption|].
      eapply Forall_impl; [exact Hall|]. intros z Hz. simpl in Hz. lia.
    + constructor; [apply IH; assumption|].
      rewrite (insertSorted_Permutation x l). simpl.
      constructor; [lia | assumption].
Qed.

Lemma sortById_sorted l :
  Forall numbered l -> StronglySorted Z.le (map idZ (sortById l)).
Proof.
  induction l as [|x l IH]; simpl; intros H; [constructor|].
  inversion H; subst.
  apply insertSorted_sorted; [assumption | | by apply IH].
  by rewrite sortById_Permutation.
Qed.

Lemma ascending_sorted a n : StronglySorted Z.le (map Z.of_nat (seq a n)).
Proof.
  revert a. induction n as [|n IH]; intros a; simpl; constructor; [apply IH|].
  apply Forall_forall. intros z Hz.
  apply list_elem_of_In, in_map_iff in Hz. destruct Hz as (k & <- & Hk).
  apply in_seq in Hk. lia.
Qed.

Lemma numbered_idZ r : numbered r -> idOf r = Int (idZ r).
Proof. intros [z Hz]. unfold idZ. by rewrite Hz. Qed.

Lemma nullish_not_numbered r : Js.nullish r = true -> ~ numbered r.
Proof. destruct r; try discriminate; intros _ [z Hz]; discriminate. Qed.

Lemma find_nullish_numbered l :
  Forall numbered l -> List.find Js.nullish l = None.
Proof.
  induction 1 as [|r l Hr _ IH]; simpl; [reflexivity|].
  destruct (Js.nullish r) eqn:E; [|exact IH].
  exfalso. by apply (nullish_not_numbered r).
Qed.

Lemma numbered_of_Permutation elems n :
  Permutation (map idOf elems) (map (fun i => Int (Z.of_nat i)) (seq 0 n)) ->
  Forall numbered elems.
Proof.
  intros HP. apply Forall_forall. intros r Hr.
  assert (idOf r ∈ map (fun i => Int (Z.of_nat i)) (seq 0 n)) as Hin.
  { rewrite <- HP. apply list_elem_of_fmap. by exists r. }
  apply list_elem_of_fmap in Hin. destruct Hin as (i & Hi & _).
  by exists (Z.of_nat i).
Qed.

Lemma sortById_ids elems n :
  Permutation (map idOf elems) (map (fun i => Int (Z.of_nat i)) (seq 0 n)) ->
  map idZ (sortById elems) = map Z.of_nat (seq 0 n).
Proof.
  intros HP. pose proof (numbered_of_Permutation _ _ HP) as Hnum.
  apply (StronglySorted_unique Z.le).
  - by apply sortById_sorted.
  - apply ascending_sorted.
  - rewrite (sortById_Permutation elems).
    transitivity (map (fun k => match k with Int z => z | Nan => 0 end)
                      (map idOf elems)).
    { rewrite map_map. reflexivity. }
    rewrite HP, map_map. reflexivity.
Qed.

End SortById.

(** C1. When the reply to a batch of N requests is an array that holds, in
    any order, one response item for each id 0 .. N-1, [rpcBatch] resolves
    to exactly N results, and the result at position i is the [result] field
    of the item whose id is i. *)
Theorem rpcBatch_restores_request_order
        (node : Node) (requests : list (string * list value))
        (elems : list value) (p : Proc) :
  send node (length (wire p))
       (Batch (imap (fun i r => mkRequest (Z.of_nat i) (fst r) (snd r)) requests))
    = inr (VArr elems) ->
  Permutation (map idOf elems)
              (map (fun i => Int (Z.of_nat i)) (seq 0 (length requests))) ->
  exists out,
    fst (rpcBatch node requests p) = inr out /\
    length out = length requests /\
    forall i, (i < length requests)%nat ->
      exists r, In r elems /\ idOf r = Int (Z.of_nat i) /\
                out !! i = Some (Js.prop r "result").
Proof.
  intros Hsend HP.
  pose proof (numbered_of_Permutation _ _ HP) as Hnum.
  pose proof (sortById_ids _ _ HP) as Hids.
  assert (length (sortById elems) = length requests) as Hlen.
  { rewrite <- (length_map idZ), Hids, length_map. apply length_seq. }
  exists (map (fun r => Js.prop r "result") (sortById elems)).
  split; [|split].
  - unfold rpcBatch, bind, ckbRequest, ckbWrite, ckbSettle. simpl.
    rewrite Hsend. simpl. unfold batchThen. by rewrite find_nullish_numbered.
  - by rewrite length_map.
  - intros i Hi.
    destruct (lookup_lt_is_Some_2 (sortById elems) i) as [r Hr]; [lia|].
    assert (r ∈ elems) as Hin.
    { rewrite <- (sortById_Permutation elems). by eapply list_elem_of_lookup_2. }
    exists r. split; [by apply list_elem_of_In|]. split.
    + rewrite (numbered_idZ r); [|by eapply Forall_forall in Hnum].
      f_equal.
      assert (map idZ (sortById elems) !! i = Some (idZ r)) as H1.
      { by rewrite list_lookup_fmap, Hr. }
      rewrite Hids, list_lookup_fmap, lookup_seq_lt in H1 by lia.
      simpl in H1. congruence.
    + by rewrite list_lookup_fmap, Hr.
Qed.

Lemma rpcBatch_restores_request_order_witness :
  exists out,
    fst (rpcBatch (Sample.script [inr (VArr Sample.headerItems)])
                  (heightRequests "get_header_by_number" (Int 0) (Int 4))
                  Sample.fresh) = inr out /\
    length out = 4%nat /\
    forall i, (i < 4)%nat ->
      exists r, In r Sample.headerItems /\ idOf r = Int (Z.of_nat i) /\
                out !! i = Some (Js.prop r "result").
Proof.
  apply (rpcBatch_restores_request_order
           (Sample.script [inr (VArr Sample.headerItems)])
           (heightRequests "get_header_by_number" (Int 0) (Int 4))
           Sample.headerItems Sample.fresh).
  - reflexivity.
  - change (Permutation [Int 2; Int 0; Int 3; Int 1] [Int 0; Int 1; Int 2; Int 3]).
    apply (Permutation_cons_app [Int 0; Int 1] [Int 3] (Int 2)).
    simpl. apply perm_skip. apply perm_swap.
Defined.

Example rpcBatch_out_of_order :
  fst (rpcBatch (Sample.script [inr (VArr Sample.headerItems)])
                (heightRequests "get_header_by_number" (Int 0) (Int 4))
                Sample.fresh)
  = inr Sample.orderedHeaders.
Proof. vm_compute. reflexivity. Qed.

Example rpcBatch_not_an_array :
  fst (rpcBatch (Sample.script [inr (Sample.failure 0 (-32600) "Invalid request")])
                [] Sample.fresh)
  = inl (mkError "Error" "Expected batch array response" None).
Proof. reflexivity. Qed.

(** ** The average block time *)

Lemma sliceLast_min {A} (l : list A) :
  sliceLast 20 l = sliceLast (Nat.min (length l) 20) l.
Proof. unfold sliceLast. f_equal. lia. Qed.

Lemma sliceLast_length {A} (n : nat) (l : list A) :
  length (sliceLast n l) = Nat.min (length l) n.
Proof. unfold sliceLast. rewrite length_drop. lia. Qed.

(** C2, as stated, fails: for two headers 8123 ms apart the only block time
    is 8123 ms, its mean divided by 1000 is 8.123, and the snapshot holds
    the text "8.12". *)
Lemma avgBlockTimeSec_not_the_mean :
  let s := assemble (Int 1) Sample.chainInfo Sample.twoHeaders [] in
  map BlockData.blockTime (blocks s) = [Int 8123] /\
  avgBlockTimeSec s = "8.12" /\
  ~ denotes (avgBlockTimeSec s) 8123 (1000 * 1).
Proof.
  split; [reflexivity|]. split; [vm_compute; reflexivity|].
  intros (n & d & Hv & Heq).
  vm_compute in Hv. injection Hv as <- <-. lia.
Qed.

Lemma toFixed2_zero_mean N :
  1 <= N <= 20 ->
  Js.toFixed2 (Js.fdiv (Js.fdiv (Js.ofZ 0) (Js.ofZ N)) (Js.ofZ 1000)) = "0.00".
Proof.
  intros HN. destruct (ofZ_small N) as (mN & -> & _); [lia|]. reflexivity.
Qed.

(** C2, amended. The [avgBlockTimeSec] of a snapshot is the text, with two
    decimals as [toFixed(2)] prints them, of the binary64 mean of the block
    times of the last n = min(len, 20) entries of [blocks], divided by 1000;
    it is "0.00" when [blocks] is empty. For block times that sum to
    [total] (below 2^40 ms in magnitude) the text is a sign and c/100 for
    the hundredths c nearest to |total| / (1000 n). *)
Theorem avgBlockTimeSec_two_decimals
        (tip : num) (chainInfo : value) (headers blocks' : list value) :
  let s := assemble tip chainInfo headers blocks' in
  let n := Nat.min (length (blocks s)) 20 in
  let recent := sliceLast n (blocks s) in
  length recent = n /\
  avgBlockTimeSec s =
    (if (n =? 0)%nat then "0.00"
     else Js.toFixed2
            (Js.fdiv (Js.fdiv (Js.toFloat (sumBlockTime recent))
                              (Js.ofZ (Z.of_nat n)))
                     (Js.ofZ 1000))) /\
  (forall total : Z,
      (0 < n)%nat ->
      sumBlockTime recent = Int total ->
      Z.abs total < 2 ^ 40 ->
      exists c,
        avgBlockTimeSec s = (if total <? 0 then "-" else "") +:+ Js.fixed2 c /\
        0 <= c /\
        10 * Z.of_nat n * c - 5 * Z.of_nat n <= Z.abs total
          <= 10 * Z.of_nat n * c + 5 * Z.of_nat n).
Proof.
  intros s n recent. subst s n recent.
  rewrite assemble_blocks, assemble_avg.
  set (bd := buildBlockData (buildTxMap blocks') headers).
  assert (avgSecOf bd
          = Js.fdiv (Js.fdiv (Js.toFloat
                                (sumBlockTime (sliceLast (Nat.min (length bd) 20) bd)))
                             (Js.ofZ (if Z.of_nat (Nat.min (length bd) 20) =? 0
                                      then 1 else Z.of_nat (Nat.min (length bd) 20))))
                    (Js.ofZ 1000)) as Havg.
  { unfold avgSecOf. rewrite (sliceLast_min bd). unfold averageSec.
    rewrite sliceLast_length.
    replace (Nat.min (length bd) (Nat.min (length bd) 20))
      with (Nat.min (length bd) 20) by lia.
    reflexivity. }
  rewrite Havg. clear Havg.
  set (n := Nat.min (length bd) 20).
  assert (n <= 20)%nat as Hn20 by lia.
  split; [rewrite sliceLast_length; lia|]. split.
  - destruct (Nat.eqb_spec n 0) as [Hz|Hnz].
    + assert (bd = []) as -> by (destruct bd; [reflexivity | simpl in *; lia]).
      vm_compute. reflexivity.
    + destruct (Z.eqb_spec (Z.of_nat n) 0); [lia | reflexivity].
  - intros total Hpos Hsum Htot. rewrite Hsum. simpl Js.toFloat.
    destruct (Z.eqb_spec (Z.of_nat n) 0); [lia|].
    destruct (Z.lt_trichotomy total 0) as [Hneg|[->|Hgt]].
    + destruct (toFixed2_mean true (- total) (Z.of_nat n)) as (c & Hc & Hc0 & Hcb);
        [lia | lia |].
      rewrite Z.opp_involutive in Hc. exists c.
      destruct (Z.ltb_spec total 0); [|lia]. rewrite Z.abs_neq by lia.
      split; [exact Hc | split; [exact Hc0 | exact Hcb]].
    + exists 0. rewrite toFixed2_zero_mean by lia. simpl. split; [reflexivity | lia].
    + destruct (toFixed2_mean false total (Z.of_nat n)) as (c & Hc & Hc0 & Hcb);
        [lia | lia |].
      exists c. destruct (Z.ltb_spec total 0); [lia|]. rewrite Z.abs_eq by lia.
      split; [exact Hc | split; [exact Hc0 | exact Hcb]].
Qed.

Lemma avgBlockTimeSec_two_decimals_witness :
  exists c,
    avgBlockTimeSec (assemble (Int 3) Sample.chainInfo Sample.orderedHeaders [])
      = "" +:+ Js.fixed2 c /\
    0 <= c /\ 10 * 3 * c - 5 * 3 <= 10123 <= 10 * 3 * c + 5 * 3.
Proof.
  apply (proj2 (proj2 (avgBlockTimeSec_two_decimals
                         (Int 3) Sample.chainInfo Sample.orderedHeaders []))
               10123).
  - vm_compute. lia.
  - reflexivity.
  - vm_compute. reflexivity.
Defined.

Example avgBlockTimeSec_sample :
  avgBlockTimeSec (assemble (Int 3) Sample.chainInfo Sample.orderedHeaders [])
  = "3.37".
Proof. vm_compute. reflexivity. Qed.

(** ** Transaction counts *)

Lemma txCountOf_array b txs :
  Js.prop b "transactions" = VArr txs ->
  txCountOf b = Int (Z.max 0 (Z.of_nat (length txs) - 1)).
Proof. intros H. unfold txCountOf. rewrite H. reflexivity. Qed.

Lemma txCountOf_nonneg b z : txCountOf b = Int z -> 0 <= z.
Proof.
  unfold txCountOf.
  destruct (Js.sub _ _) as [|y]; simpl; [discriminate|].
  intros [= <-]. lia.
Qed.

Lemma fold_recordTx_lookup (bs : list value) (m : gmap num num) (k : num) :
  fold_left recordTx bs m !! k
  = match last (filter (fun b => recorded b = true /\ heightOf b = k) bs) with
    | Some b => Some (txCountOf b)
    | None => m !! k
    end.
Proof.
  revert m. induction bs as [|b bs IH]; intros m; [reflexivity|].
  simpl fold_left. rewrite IH.
  destruct (decide (recorded b = true /\ heightOf b = k)) as [[Hr Hk]|Hn].
  - rewrite filter_cons_True by done. rewrite last_cons.
    destruct (last _); [reflexivity|].
    change (recordTx m b) with
      (if recorded b then <[heightOf b := txCountOf b]> m else m).
    rewrite Hr, Hk. apply lookup_insert_eq.
  - rewrite filter_cons_False by done.
    destruct (last _); [reflexivity|].
    change (recordTx m b) with
      (if recorded b then <[heightOf b := txCountOf b]> m else m).
    destruct (recorded b) eqn:Hr; [|reflexivity].
    apply lookup_insert_ne. intros Heq. by apply Hn.
Qed.

Lemma blockRows_txCount txMap prev rest :
  Forall (fun r => BlockData.txCount r = txMap !! BlockData.number r)
         (blockRows txMap prev rest).
Proof.
  revert prev. induction rest as [|h rest IH]; intros prev; simpl; [constructor|].
  apply Forall_app. split; [|apply IH].
  unfold blockRow. destruct (_ || _); repeat constructor.
Qed.

Lemma buildBlockData_txCount txMap hs :
  Forall (fun r => BlockData.txCount r = txMap !! BlockData.number r)
         (buildBlockData txMap hs).
Proof. destruct hs; [constructor | apply blockRows_txCount]. Qed.

(** The count under the height of a recorded block that no later block of
    the reply overwrites. *)
Lemma buildTxMap_last_of_height (pre post : list value) (b : value) :
  recorded b = true ->
  Forall (fun b' => recorded b' = true -> heightOf b' <> heightOf b) post ->
  buildTxMap (pre ++ b :: post) !! heightOf b = Some (txCountOf b).
Proof.
  intros Hr Hpost. unfold buildTxMap. rewrite fold_recordTx_lookup.
  rewrite filter_app, filter_cons_True by done.
  assert (filter (fun b' => recorded b' = true /\ heightOf b' = heightOf b) post = [])
    as ->.
  { induction Hpost as [|b' post Hb' _ IH]; [reflexivity|].
    rewrite filter_cons_False; [exact IH|]. intros [H1 H2]. by apply Hb'. }
  by rewrite last_snoc.
Qed.

(** Every count of a snapshot is the count of some block of the reply. *)
Lemma snapshot_txCount_of_block tipNum chainInfo headers bs row c :
  In row (blocks (assemble tipNum chainInfo headers bs)) ->
  BlockData.txCount row = Some c ->
  exists b, In b bs /\ recorded b = true /\
            heightOf b = BlockData.number row /\ c = txCountOf b.
Proof.
  intros Hin Hc. rewrite assemble_blocks in Hin.
  pose proof (buildBlockData_txCount (buildTxMap bs) headers) as Hrows.
  rewrite Forall_forall in Hrows. apply list_elem_of_In, Hrows in Hin.
  rewrite Hin in Hc. unfold buildTxMap in Hc. rewrite fold_recordTx_lookup in Hc.
  destruct (last _) as [b|] eqn:Hl; [|by rewrite lookup_empty in Hc].
  injection Hc as <-. exists b.
  apply last_Some in Hl as [l' Hl].
  assert (b ∈ filter (fun b => recorded b = true /\
                               heightOf b = BlockData.number row) bs) as Hb.
  { rewrite Hl. apply elem_of_app. right. by left. }
  apply list_elem_of_filter in Hb as [[Hr Hk] Hb].
  split; [by apply list_elem_of_In|]. by repeat split.
Qed.

(** C3. In every snapshot of a cycle, the [txCount] shown for the height of
    a fetched block - one that is present and has a header, and that no
    later block of the same batch reply overwrites - whose [transactions]
    is an array, is max(0, length - 1): the count [txMap] holds under that
    height, and the [txCount] of every entry of [blocks] with that height.
    Five transactions give 4, none and one give 0, also in the snapshot;
    and no count of a snapshot, nor any count derived from a block, is
    negative. *)
Theorem transactionCount_drops_first_transaction :
  (forall (node : Node) (now : Z) (p p1 : Proc) (tipNum : num)
          (chainInfo : value) (headers pre post : list value)
          (b : value) (txs : list value),
      readCache now p = None ->
      fetchAll node p = (inr (tipNum, chainInfo, headers, pre ++ b :: post), p1) ->
      Js.truthy b = true ->
      Js.truthy (Js.prop b "header") = true ->
      Js.prop b "transactions" = VArr txs ->
      Forall (fun b' => recorded b' = true -> heightOf b' <> heightOf b) post ->
      exists s p2,
        buildHistory node now p = (inr s, p2) /\
        txCountOf b = Int (Z.max 0 (Z.of_nat (length txs) - 1)) /\
        buildTxMap (pre ++ b :: post) !! heightOf b
          = Some (Int (Z.max 0 (Z.of_nat (length txs) - 1))) /\
        forall row, In row (blocks s) ->
                    BlockData.number row = heightOf b ->
                    BlockData.txCount row
                    = Some (Int (Z.max 0 (Z.of_nat (length txs) - 1)))) /\
  map (fun r => (BlockData.number r, BlockData.txCount r))
      (blocks (assemble (Int 3) Sample.chainInfo Sample.orderedHeaders
                        [Sample.block 1 5; Sample.block 2 0; Sample.block 3 1]))
    = [(Int 1, Some (Int 4)); (Int 2, Some (Int 0)); (Int 3, Some (Int 0))] /\
  txCountOf (Sample.block 7 5) = Int 4 /\
  txCountOf (Sample.block 7 0) = Int 0 /\
  txCountOf (Sample.block 7 1) = Int 0 /\
  (forall (b : value) (z : Z), txCountOf b = Int z -> 0 <= z) /\
  (forall tipNum chainInfo headers bs row z,
      In row (blocks (assemble tipNum chainInfo headers bs)) ->
      BlockData.txCount row = Some (Int z) -> 0 <= z).
Proof.
  split; [|split; [|split; [|split; [|split; [|split]]]]].
  2: vm_compute; reflexivity.
  2: reflexivity.
  2: reflexivity.
  2: reflexivity.
  - intros node now p p1 tipNum chainInfo headers pre post b txs
           Hc Hf Hb Hh Ht Hpost.
    pose proof (txCountOf_array b txs Ht) as Hcount.
    assert (recorded b = true) as Hr by (unfold recorded; by rewrite Hb, Hh).
    pose proof (buildTxMap_last_of_height pre post b Hr Hpost) as Hmap.
    rewrite Hcount in Hmap.
    exists (assemble tipNum chainInfo headers (pre ++ b :: post)). eexists.
    split; [rewrite (buildHistory_stale node now p Hc), Hf; reflexivity|].
    split; [exact Hcount|]. split; [exact Hmap|].
    intros row Hin Hnum. rewrite assemble_blocks in Hin.
    pose proof (buildBlockData_txCount (buildTxMap (pre ++ b :: post)) headers)
      as Hrows.
    rewrite Forall_forall in Hrows. apply list_elem_of_In, Hrows in Hin.
    by rewrite Hin, Hnum.
  - exact txCountOf_nonneg.
  - intros tipNum chainInfo headers bs row z Hin Hc.
    destruct (snapshot_txCount_of_block _ _ _ _ _ _ Hin Hc) as (b & _ & _ & _ & Hb).
    by apply (txCountOf_nonneg b).
Qed.

Lemma transactionCount_drops_first_transaction_witness :
  exists s p2,
    buildHistory Sample.healthy 20000 Sample.fresh = (inr s, p2) /\
    txCountOf (Sample.block 1 5)
      = Int (Z.max 0 (Z.of_nat (length (replicate 5 (VStr "0x"))) - 1)) /\
    buildTxMap ([Sample.block 0 1] ++ Sample.block 1 5
                  :: [Sample.block 2 2; Sample.block 3 0])
      !! heightOf (Sample.block 1 5)
      = Some (Int (Z.max 0 (Z.of_nat (length (replicate 5 (VStr "0x"))) - 1))) /\
    forall row, In row (blocks s) ->
                BlockData.number row = heightOf (Sample.block 1 5) ->
                BlockData.txCount row
                = Some (Int (Z.max 0 (Z.of_nat (length (replicate 5 (VStr "0x"))) - 1))).
Proof.
  refine (proj1 transactionCount_drops_first_transaction
                Sample.healthy 20000 Sample.fresh _ (Int 3) Sample.chainInfo
                Sample.orderedHeaders [Sample.block 0 1]
                [Sample.block 2 2; Sample.block 3 0] (Sample.block 1 5)
                (replicate 5 (VStr "0x")) _ _ _ _ _ _).
  - reflexivity.
  - vm_compute. reflexivity.
  - reflexivity.
  - reflexivity.
  - reflexivity.
  - repeat constructor; vm_compute; intros; discriminate.
Defined.

Example txCounts_of_a_cycle :
  exists s p',
    buildHistory Sample.healthy 20000 Sample.fresh = (inr s, p') /\
    map (fun r => (BlockData.number r, BlockData.txCount r)) (blocks s)
    = [(Int 1, Some (Int 4)); (Int 2, Some (Int 1)); (Int 3, Some (Int 0))].
Proof. eexists. eexists. split; vm_compute; reflexivity. Qed.

Example txCount_without_transactions :
  txCountOf (VObj [("header", Sample.header 7 0)]) = Int 0.
Proof. reflexivity. Qed.

(** ** The hashrate when the difficulty cannot be read *)

Lemma parseDifficulty_missing ci :
  Js.nullish (Js.getOpt ci "difficulty") = true -> parseDifficulty ci = None.
Proof.
  unfold parseDifficulty, Js.getOpt, Js.get.
  destruct (Js.nullish ci); [reflexivity|].
  by destruct (Js.prop ci "difficulty").
Qed.

Example parseDifficulty_hex : parseDifficulty Sample.chainInfo = Some (10 ^ 13).
Proof. reflexivity. Qed.

Example parseDifficulty_not_hex :
  parseDifficulty (VObj [("difficulty", VStr "0xzz")]) = None.
Proof. reflexivity. Qed.

Example parseDifficulty_number :
  parseDifficulty (VObj [("difficulty", VNum 5)]) = None.
Proof. reflexivity. Qed.

(** C4. When the fetches of a cycle succeed and [chainInfo.difficulty] is
    missing or does not parse, the cycle succeeds, the snapshot carries the
    text for an unavailable hashrate and an empty [hashratePerBlock], and it
    is stored in the cache. *)
Theorem unparseable_difficulty_gives_sentinel
        (node : Node) (now : Z) (p p1 : Proc)
        (tipNum : num) (chainInfo : value) (headers blocks' : list value) :
  readCache now p = None ->
  fetchAll node p = (inr (tipNum, chainInfo, headers, blocks'), p1) ->
  Js.nullish (Js.getOpt chainInfo "difficulty") = true \/
    parseDifficulty chainInfo = None ->
  exists s p2,
    buildHistory node now p = (inr s, p2) /\
    networkHashrate s = unavailable /\
    hashratePerBlock s = [] /\
    histCache p2 = Some s.
Proof.
  intros Hstale Hfetch Hdiff.
  assert (parseDifficulty chainInfo = None) as Hnone.
  { destruct Hdiff as [H|H]; [by apply parseDifficulty_missing | exact H]. }
  exists (assemble tipNum chainInfo headers blocks').
  eexists. split; [|split; [|split]].
  - rewrite (buildHistory_stale node now p Hstale), Hfetch. reflexivity.
  - pose proof (assemble_hashrates tipNum chainInfo headers blocks') as H.
    unfold hashrates in H. rewrite Hnone in H. congruence.
  - pose proof (assemble_hashrates tipNum chainInfo headers blocks') as H.
    unfold hashrates in H. rewrite Hnone in H. congruence.
  - reflexivity.
Qed.

Lemma unparseable_difficulty_gives_sentinel_witness :
  exists s p2,
    buildHistory Sample.noDifficulty 20000 Sample.fresh = (inr s, p2) /\
    networkHashrate s = unavailable /\
    hashratePerBlock s = [] /\
    histCache p2 = Some s.
Proof.
  eapply (unparseable_difficulty_gives_sentinel
            Sample.noDifficulty 20000 Sample.fresh).
  - reflexivity.
  - vm_compute. reflexivity.
  - left. reflexivity.
Defined.

(** ** What a failed cycle leaves behind *)

Create HintDb quiet.

Lemma quiet_ret {A} (a : A) : quiet (ret a).
Proof. intros p. split; reflexivity. Qed.

Lemma quiet_throw {A} (e : error) : quiet (@throw A e).
Proof. intros p. split; reflexivity. Qed.

Lemma quiet_bind {A B} (m : M A) (k : A -> M B) :
  quiet m -> (forall a, quiet (k a)) -> quiet (bind m k).
Proof.
  intros Hm Hk p. unfold bind.
  destruct (Hm p) as [Hc Hw]. destruct (m p) as [[e|a] p1]; simpl in *; [done|].
  destruct (Hk a p1) as [Hc' Hw']. split; [congruence | by etransitivity].
Qed.

Lemma quiet_ckbRequest node b : quiet (ckbRequest node b).
Proof. intros p. split; [reflexivity | by apply prefix_app_r]. Qed.

Lemma quiet_rpcThen r : quiet (rpcThen r).
Proof.
  unfold rpcThen. destruct (Js.get r "error") as [e|]; [|apply quiet_throw].
  destruct (Js.truthy e); [apply quiet_throw | apply quiet_ret].
Qed.

(** [rpcCall] changes the state as its synchronous part does. *)
Lemma rpcCall_state node m ps p :
  snd (rpcCall node m ps p) = snd (rpcWrite m ps p).
Proof.
  unfold rpcCall, rpcWrite, ckbWrite, ckbSettle, bind. simpl.
  destruct (send node _ _) as [e|r]; simpl; [reflexivity|].
  unfold rpcThen. destruct (Js.get r "error") as [e|]; [|reflexivity].
  by destruct (Js.truthy e).
Qed.

Lemma quiet_rpcCall node m ps : quiet (rpcCall node m ps).
Proof.
  intros p. rewrite rpcCall_state. unfold rpcWrite, ckbWrite. simpl.
  split; [reflexivity | by apply prefix_app_r].
Qed.

Lemma quiet_batchThen results : quiet (batchThen results).
Proof.
  unfold batchThen. destruct results; try apply quiet_throw.
  destruct (List.find _ _); [apply quiet_throw | apply quiet_ret].
Qed.

Lemma quiet_rpcBatch node requests : quiet (rpcBatch node requests).
Proof.
  unfold rpcBatch. apply quiet_bind; [apply quiet_ckbRequest|].
  intros a. apply quiet_batchThen.
Qed.

Lemma quiet_promiseAll2 {A B} node (a : M A) (b : M B) :
  quiet a -> quiet b -> quiet (promiseAll2 node a b).
Proof.
  intros Ha Hb p. unfold promiseAll2.
  destruct (Ha p) as [Hc Hw]. destruct (a p) as [ra p1]. simpl in *.
  destruct (Hb p1) as [Hc' Hw']. destruct (b p1) as [rb p2]. simpl in *.
  split; [congruence | by etransitivity].
Qed.

#[local] Hint Resolve quiet_ret quiet_throw quiet_rpcCall quiet_rpcBatch
  quiet_promiseAll2 quiet_bind : quiet.

Lemma quiet_fetchTipAndInfo node : quiet (fetchTipAndInfo node).
Proof. unfold fetchTipAndInfo. auto with quiet. Qed.

Lemma quiet_fetchHeaders node tipNum : quiet (fetchHeaders node tipNum).
Proof. unfold fetchHeaders. auto with quiet. Qed.

Lemma quiet_fetchBlocks node tipNum : quiet (fetchBlocks node tipNum).
Proof. unfold fetchBlocks. auto with quiet. Qed.

#[local] Hint Resolve quiet_fetchTipAndInfo quiet_fetchHeaders
  quiet_fetchBlocks : quiet.

Lemma quiet_afterTipAndInfo node r : quiet (afterTipAndInfo node r).
Proof.
  destruct r as [tipHeader chainInfo]. unfold afterTipAndInfo.
  destruct (Js.get tipHeader "number"); [|auto with quiet].
  apply quiet_bind; [auto with quiet|]. intros headers.
  apply quiet_bind; [auto with quiet|]. intros blocks. auto with quiet.
Qed.

Lemma quiet_fetchAll node : quiet (fetchAll node).
Proof.
  unfold fetchAll. apply quiet_bind; [auto with quiet|].
  apply quiet_afterTipAndInfo.
Qed.

Lemma buildHistory_failure_keeps_cache node now p e p' :
  buildHistory node now p = (inl e, p') -> cacheSlot p' = cacheSlot p.
Proof.
  destruct (readCache now p) as [s|] eqn:Hc.
  - rewrite (buildHistory_fresh node now p s Hc). discriminate.
  - rewrite (buildHistory_stale node now p Hc).
    pose proof (quiet_fetchAll node p) as [Hq _].
    destruct (fetchAll node p) as [[e1|[[[tipNum chainInfo] headers] blocks]] p1];
      simpl in *; [|discriminate].
    intros [= <- <-]. exact Hq.
Qed.

Lemma fetchAll_tip_failure node p e :
  fst (fetchTipAndInfo node p) = inl e -> fst (fetchAll node p) = inl e.
Proof.
  unfold fetchAll, bind.
  destruct (fetchTipAndInfo node p) as [[e1|a] p1]; simpl; congruence.
Qed.

Lemma fetchAll_headers_failure node p tip ci p1 n e :
  fetchTipAndInfo node p = (inr (tip, ci), p1) ->
  Js.get tip "number" = Some n ->
  fst (fetchHeaders node (Js.parseInt16 n) p1) = inl e ->
  fst (fetchAll node p) = inl e.
Proof.
  intros H1 H2 H3. unfold fetchAll, bind. rewrite H1.
  unfold afterTipAndInfo, bind. rewrite H2.
  destruct (fetchHeaders node (Js.parseInt16 n) p1) as [[e1|a] p2];
    simpl in *; congruence.
Qed.

Lemma fetchAll_blocks_failure node p tip ci p1 n hs p2 e :
  fetchTipAndInfo node p = (inr (tip, ci), p1) ->
  Js.get tip "number" = Some n ->
  fetchHeaders node (Js.parseInt16 n) p1 = (inr hs, p2) ->
  fst (fetchBlocks node (Js.parseInt16 n) p2) = inl e ->
  fst (fetchAll node p) = inl e.
Proof.
  intros H1 H2 H3 H4. unfold fetchAll, bind. rewrite H1.
  unfold afterTipAndInfo, bind. rewrite H2, H3.
  destruct (fetchBlocks node (Js.parseInt16 n) p2) as [[e1|a] p3];
    simpl in *; congruence.
Qed.

Lemma buildHistory_fetch_failure node now p e :
  readCache now p = None ->
  fst (fetchAll node p) = inl e ->
  exists p', buildHistory node now p = (inl e, p') /\ cacheSlot p' = cacheSlot p.
Proof.
  intros Hc Hf. rewrite (buildHistory_stale node now p Hc).
  pose proof (quiet_fetchAll node p) as [Hq _].
  destruct (fetchAll node p) as [[e1|a] p1]; simpl in *; [|discriminate].
  injection Hf as ->. by exists p1.
Qed.

(** A rejected request rejects the call with the same reason. *)
Lemma rpcCall_transport_failure node m ps p e :
  send node (length (wire p)) (Single (mkRequest (rpcId p) m ps)) = inl e ->
  fst (rpcCall node m ps p) = inl e.
Proof.
  intros H. unfold rpcCall, rpcWrite, ckbWrite, ckbSettle, bind. simpl.
  by rewrite H.
Qed.

Lemma rpcBatch_transport_failure node requests p e :
  send node (length (wire p))
       (Batch (imap (fun i r => mkRequest (Z.of_nat i) (fst r) (snd r)) requests))
    = inl e ->
  fst (rpcBatch node requests p) = inl e.
Proof.
  intros H. unfold rpcBatch, ckbRequest, ckbWrite, ckbSettle, bind. simpl.
  by rewrite H.
Qed.

(** The rejection of [Promise.all] is the rejection of one of its calls. *)
Lemma fetchTipAndInfo_cause node p e :
  fst (fetchTipAndInfo node p) = inl e ->
  fst (rpcCall node "get_tip_header" [] p) = inl e \/
  fst (rpcCall node "get_blockchain_info" []
               (snd (rpcCall node "get_tip_header" [] p))) = inl e.
Proof.
  unfold fetchTipAndInfo, promiseAll2.
  destruct (rpcCall node "get_tip_header" [] p) as [ra p1]. simpl.
  destruct (rpcCall node "get_blockchain_info" [] p1) as [rb p2]. simpl.
  destruct ra, rb; simpl; try destruct (infoFirst node); intros [= ->]; auto.
Qed.

(** C5. A cycle whose fetch of the tip header and chain info, or whose header
    batch, rejects with [e] rejects with [e] itself, and the cache slot
    (snapshot and timestamp) is as it was; more generally no rejected cycle
    touches the cache slot. *)
Theorem failed_mandatory_fetch_keeps_cache (node : Node) (now : Z) (p : Proc) :
  (forall e, readCache now p = None ->
             fst (fetchTipAndInfo node p) = inl e ->
             exists p', buildHistory node now p = (inl e, p') /\
                        cacheSlot p' = cacheSlot p) /\
  (forall e tip ci p1 n,
      readCache now p = None ->
      fetchTipAndInfo node p = (inr (tip, ci), p1) ->
      Js.get tip "number" = Some n ->
      fst (fetchHeaders node (Js.parseInt16 n) p1) = inl e ->
      exists p', buildHistory node now p = (inl e, p') /\
                 cacheSlot p' = cacheSlot p) /\
  (forall e p', buildHistory node now p = (inl e, p') -> cacheSlot p' = cacheSlot p).
Proof.
  split; [|split].
  - intros e Hc Hf. apply buildHistory_fetch_failure; [exact Hc|].
    by apply fetchAll_tip_failure.
  - intros e tip ci p1 n Hc H1 H2 H3. apply buildHistory_fetch_failure; [exact Hc|].
    by eapply fetchAll_headers_failure.
  - intros e p'. apply buildHistory_failure_keeps_cache.
Qed.

Lemma failed_mandatory_fetch_keeps_cache_witness :
  exists p',
    buildHistory Sample.headersDown 20000 Sample.stale = (inl Sample.refused, p') /\
    cacheSlot p' = (Some Sample.oldSnapshot, 1000).
Proof.
  refine (proj1 (proj2 (failed_mandatory_fetch_keeps_cache
                          Sample.headersDown 20000 Sample.stale))
                Sample.refused _ _ _ _ _ _ _ _).
  - reflexivity.
  - vm_compute. reflexivity.
  - reflexivity.
  - vm_compute. reflexivity.
Defined.

Example tip_header_null_is_a_TypeError :
  fst (buildHistory (Sample.script [inr (Sample.envelope 1 VNull); Sample.infoReply])
                    20000 Sample.stale)
  = inl (mkError "TypeError" "Cannot read properties of null (reading 'number')" None).
Proof. vm_compute. reflexivity. Qed.

(** ** The heights of the blocks of a snapshot *)

(** C6, as stated, fails: when the batch reply lacks the header of height 2
    (a null result), the loop skips the two turns that read it, and the
    snapshot for tip 3 holds the block of height 1 only. *)
Lemma blocks_can_have_gaps :
  exists s p',
    buildHistory Sample.gappy 20000 Sample.fresh = (inr s, p') /\
    tipHeight s = Int 3 /\
    map BlockData.number (blocks s) = [Int 1] /\
    map BlockData.number (blocks s) <> heights (0 + 1) 3.
Proof.
  eexists. eexists. split; [vm_compute; reflexivity|].
  split; [reflexivity|]. split; [reflexivity|]. discriminate.
Qed.

(** With every header present, each turn of the loop pushes one row. *)
Lemma blockRows_numbers txMap prev rest :
  Js.truthy prev = true ->
  Forall (fun h => Js.truthy h = true) rest ->
  map BlockData.number (blockRows txMap prev rest)
  = map (fun h => Js.parseInt16 (Js.prop h "number")) rest.
Proof.
  intros Hp Hall. revert prev Hp.
  induction Hall as [|h rest Hh _ IH]; intros prev Hp; simpl; [reflexivity|].
  unfold blockRow. rewrite Hh, Hp. simpl. f_equal. by apply IH.
Qed.

Lemma heights_sorted a n : StronglySorted numLt (heights a n).
Proof.
  unfold heights. generalize 0%nat as k.
  induction n as [|n IH]; intros k; simpl; constructor; [apply IH|].
  apply Forall_forall. intros x Hx.
  apply list_elem_of_fmap in Hx. destruct Hx as (j & -> & Hj).
  apply list_elem_of_In, in_seq in Hj. simpl. lia.
Qed.

Lemma heights_NoDup a n : NoDup (heights a n).
Proof.
  unfold heights. apply NoDup_fmap_2; [|apply NoDup_seq].
  intros i j [= H]. lia.
Qed.

Lemma faithful_headers_numbers (start : Z) (hs : list value) :
  (forall (i : nat) h, hs !! i = Some h ->
        Js.truthy h = true /\
        Js.parseInt16 (Js.prop h "number") = Int (start + Z.of_nat i)) ->
  forall txMap,
    map BlockData.number (buildBlockData txMap hs)
    = heights (start + 1) (length hs - 1).
Proof.
  intros Hf txMap. destruct hs as [|h0 rest]; [reflexivity|]. simpl.
  rewrite blockRows_numbers.
  - replace (length rest - 0)%nat with (length rest) by lia.
    apply list_eq. intros i. unfold heights.
    rewrite !list_lookup_fmap.
    destruct (rest !! i) as [h|] eqn:Hi; simpl.
    + destruct (Hf (S i) h Hi) as [_ Hn]. rewrite Hn.
      rewrite lookup_seq_lt by (by eapply lookup_lt_Some).
      simpl. do 2 f_equal. lia.
    + rewrite lookup_seq_ge by (by apply lookup_ge_None). reflexivity.
  - by destruct (Hf 0%nat h0 eq_refl).
  - apply Forall_forall. intros h Hh.
    apply list_elem_of_lookup in Hh. destruct Hh as [i Hi].
    by destruct (Hf (S i) h Hi).
Qed.

Lemma blockRows_length_iff txMap (rest : list value) :
  forall prev,
    (length (blockRows txMap prev rest) <= length rest)%nat /\
    (length (blockRows txMap prev rest) = length rest <->
     rest = [] \/
     (Js.truthy prev = true /\ Forall (fun h => Js.truthy h = true) rest)).
Proof.
  induction rest as [|h rest IH]; intros prev.
  - simpl. split; [lia|]. split; [by left | reflexivity].
  - destruct (IH h) as [Hle Hiff]. simpl blockRows. rewrite length_app.
    unfold blockRow.
    destruct (Js.truthy h) eqn:Hh, (Js.truthy prev) eqn:Hp; simpl.
    + split; [lia|]. split.
      * intros Heq. right. split; [reflexivity|]. constructor; [exact Hh|].
        assert (length (blockRows txMap h rest) = length rest) as Hl by lia.
        apply Hiff in Hl as [->|[_ Hall]]; [constructor | exact Hall].
      * intros [?|[_ Hall]]; [discriminate|].
        inversion Hall; subst. f_equal. apply Hiff. right. by split.
    + split; [lia|]. split; [lia|]. intros [?|[? _]]; discriminate.
    + split; [lia|]. split; [lia|].
      intros [?|[_ Hall]]; [discriminate|]. inversion Hall; congruence.
    + split; [lia|]. split; [lia|]. intros [?|[? _]]; discriminate.
Qed.

Lemma filter_seq_S (f : nat -> bool) (a n : nat) :
  List.filter f (seq (S a) n) = map S (List.filter (fun i => f (S i)) (seq a n)).
Proof.
  revert a. induction n as [|n IH]; intros a; [reflexivity|].
  simpl. rewrite (IH (S a)). by destruct (f (S a)).
Qed.

(** The heights of the rows, when every header that is present carries the
    height of its position. *)
Lemma blockRows_positions txMap (rest : list value) :
  forall (prev : value) (a : Z),
    (forall (i : nat) h, (prev :: rest) !! i = Some h -> Js.truthy h = true ->
        Js.parseInt16 (Js.prop h "number") = Int (a + Z.of_nat i)) ->
    map BlockData.number (blockRows txMap prev rest)
    = map (fun i : nat => Int (a + Z.of_nat i))
          (List.filter (fun i => present (prev :: rest) i
                                 && present (prev :: rest) (i - 1))
                       (seq 1 (length rest))).
Proof.
  induction rest as [|h rest IH]; intros prev a Hf; [reflexivity|].
  simpl blockRows. rewrite map_app.
  rewrite (IH h (a + 1)).
  2:{ intros i x Hi Hx. rewrite (Hf (S i) x Hi Hx). f_equal. lia. }
  change (seq 1 (length (h :: rest))) with (1%nat :: seq 2 (length rest)).
  simpl List.filter.
  change (present (prev :: h :: rest) 1) with (Js.truthy h).
  change (present (prev :: h :: rest) 0) with (Js.truthy prev).
  rewrite (filter_seq_S _ 1 (length rest)).
  assert (List.filter (fun i => present (prev :: h :: rest) (S i)
                                && present (prev :: h :: rest) (S i - 1))
                      (seq 1 (length rest))
          = List.filter (fun i => present (h :: rest) i
                                  && present (h :: rest) (i - 1))
                        (seq 1 (length rest))) as ->.
  { apply filter_ext_in. intros i Hi. apply in_seq in Hi.
    destruct i as [|i]; [lia|]. simpl. by rewrite Nat.sub_0_r. }
  assert (map (fun i : nat => Int (a + Z.of_nat i))
              (map S (List.filter (fun i => present (h :: rest) i
                                            && present (h :: rest) (i - 1))
                                  (seq 1 (length rest))))
          = map (fun i : nat => Int (a + 1 + Z.of_nat i))
                (List.filter (fun i => present (h :: rest) i
                                       && present (h :: rest) (i - 1))
                             (seq 1 (length rest)))) as Hshift.
  { rewrite map_map. apply map_ext. intros i. f_equal. lia. }
  unfold blockRow.
  destruct (Js.truthy h) eqn:Hh, (Js.truthy prev) eqn:Hp; simpl;
    rewrite ?Hshift; try reflexivity.
  f_equal. rewrite (Hf 1%nat h eq_refl Hh). reflexivity.
Qed.

Lemma buildBlockData_positions txMap (hs : list value) (a : Z) :
  (forall (i : nat) h, hs !! i = Some h -> Js.truthy h = true ->
      Js.parseInt16 (Js.prop h "number") = Int (a + Z.of_nat i)) ->
  map BlockData.number (buildBlockData txMap hs)
  = map (fun i : nat => Int (a + Z.of_nat i)) (rowPositions hs).
Proof.
  intros Hf. destruct hs as [|h0 rest]; [reflexivity|].
  unfold rowPositions.
  replace (length (h0 :: rest) - 1)%nat with (length rest) by (simpl; lia).
  by apply blockRows_positions.
Qed.

Lemma positions_sorted (f : nat -> bool) (a : Z) (n k : nat) :
  StronglySorted numLt
    (map (fun i : nat => Int (a + Z.of_nat i)) (List.filter f (seq k n))).
Proof.
  revert k. induction n as [|n IH]; intros k; simpl; [constructor|].
  destruct (f k); [|apply IH]. simpl. constructor; [apply IH|].
  apply Forall_forall. intros x Hx. apply list_elem_of_In, in_map_iff in Hx.
  destruct Hx as (j & <- & Hj). apply filter_In in Hj as [Hj _].
  apply in_seq in Hj. simpl. lia.
Qed.

Lemma positions_NoDup (f : nat -> bool) (a : Z) (n k : nat) :
  NoDup (map (fun i : nat => Int (a + Z.of_nat i)) (List.filter f (seq k n))).
Proof.
  apply NoDup_fmap_2.
  - intros i j [= H]. lia.
  - apply NoDup_ListNoDup, List.NoDup_filter, seq_NoDup.
Qed.

Lemma rowPositions_spec (hs : list value) (i : nat) :
  In i (rowPositions hs) <->
  (1 <= i < length hs)%nat /\ present hs i = true /\ present hs (i - 1) = true.
Proof.
  unfold rowPositions. rewrite filter_In, in_seq, andb_true_iff.
  split; intros [H1 H2]; (split; [lia | exact H2]).
Qed.

(** C6, amended. For a cycle with tip height [tip], [count = min(60, tip + 1)]
    and [start = tip - count + 1], in which every header that the header
    batch holds (at a position [i] where the result is present) carries the
    height [start + i] it was asked for - results may be missing: the
    heights of [blocks] are, in this order, the [start + i] for the
    positions [i >= 1] at which the header and the one before it are both
    present; hence they are strictly ascending and without duplicates, and
    each lies from [start + 1] on and below [start] plus the number of
    results. When the batch holds [count] results, [blocks] covers exactly
    [start + 1 .. tip] - no gaps - if and only if every header is present
    (or there is but one); the oldest header yields no entry. *)
Theorem blocks_cover_window_of_faithful_headers
        (node : Node) (now : Z) (p p1 : Proc) (tip : Z)
        (chainInfo : value) (headers blocks' : list value) :
  let count := Z.min 60 (tip + 1) in
  let start := tip - count + 1 in
  0 <= tip ->
  readCache now p = None ->
  fetchAll node p = (inr (Int tip, chainInfo, headers, blocks'), p1) ->
  (forall (i : nat) h, headers !! i = Some h -> Js.truthy h = true ->
        Js.parseInt16 (Js.prop h "number") = Int (start + Z.of_nat i)) ->
  exists s p2,
    buildHistory node now p = (inr s, p2) /\
    countOf (tipHeight s) = Int count /\
    startOf (tipHeight s) = Int start /\
    map BlockData.number (blocks s)
      = map (fun i : nat => Int (start + Z.of_nat i)) (rowPositions headers) /\
    StronglySorted numLt (map BlockData.number (blocks s)) /\
    NoDup (map BlockData.number (blocks s)) /\
    (forall n, In n (map BlockData.number (blocks s)) ->
       exists i : nat,
         n = Int (start + Z.of_nat i) /\ (1 <= i < length headers)%nat /\
         present headers i = true /\ present headers (i - 1) = true) /\
    (length headers = Z.to_nat count ->
     (forall n, In n (map BlockData.number (blocks s)) ->
        exists z, n = Int z /\ start + 1 <= z <= tip) /\
     (map BlockData.number (blocks s) = heights (start + 1) (Z.to_nat (tip - start))
      <-> (length headers <= 1)%nat \/
          Forall (fun h => Js.truthy h = true) headers)).
Proof.
  intros count start Htip Hc Hf Hfaith.
  exists (assemble (Int tip) chainInfo headers blocks'). eexists.
  split; [rewrite (buildHistory_stale node now p Hc), Hf; reflexivity|].
  rewrite assemble_tip, assemble_blocks.
  pose proof (buildBlockData_positions (buildTxMap blocks') headers start Hfaith)
    as Heq.
  split; [reflexivity|]. split; [reflexivity|]. split; [exact Heq|].
  rewrite Heq.
  split; [apply positions_sorted|]. split; [apply positions_NoDup|].
  assert (forall n,
            In n (map (fun i : nat => Int (start + Z.of_nat i)) (rowPositions headers)) ->
            exists i : nat,
              n = Int (start + Z.of_nat i) /\ (1 <= i < length headers)%nat /\
              present headers i = true /\ present headers (i - 1) = true) as Hin.
  { intros n Hn. apply in_map_iff in Hn as (i & <- & Hi).
    apply rowPositions_spec in Hi. by exists i. }
  split; [exact Hin|].
  intros Hlen. split.
  - intros n Hn. destruct (Hin n Hn) as (i & -> & Hi & _).
    eexists. split; [reflexivity|]. subst start count. lia.
  - rewrite <- Heq. split.
    + intros Hcov. apply (f_equal length) in Hcov.
      rewrite length_map in Hcov. unfold heights in Hcov.
      rewrite length_map, length_seq in Hcov.
      destruct headers as [|h0 rest]; [left; simpl; lia|].
      simpl in Hcov.
      assert (length (blockRows (buildTxMap blocks') h0 rest) = length rest) as Hl.
      { rewrite Hcov. simpl in Hlen. subst start count. lia. }
      apply (blockRows_length_iff (buildTxMap blocks') rest h0) in Hl.
      destruct Hl as [->|[H0 Hall]]; [left; simpl; lia | right; by constructor].
    + intros [Hshort|Hall].
      * assert (Z.to_nat (tip - start) = 0%nat) as ->
          by (subst start count; lia).
        by destruct headers as [|h0 [|h1 rest]]; [| |simpl in Hshort; lia].
      * rewrite (faithful_headers_numbers start headers).
        -- f_equal. subst start count. lia.
        -- intros i h Hi. split; [|apply (Hfaith i h Hi)];
             rewrite Forall_forall in Hall; apply Hall;
             by eapply list_elem_of_lookup_2.
Qed.

Lemma blocks_cover_window_of_faithful_headers_witness :
  let count := Z.min 60 (3 + 1) in
  let start := 3 - count + 1 in
  let headers := [Sample.header 0 0; Sample.header 1 1000; VNull;
                  Sample.header 3 10123] in
  exists s p2,
    buildHistory Sample.gappy 20000 Sample.fresh = (inr s, p2) /\
    countOf (tipHeight s) = Int count /\
    startOf (tipHeight s) = Int start /\
    map BlockData.number (blocks s)
      = map (fun i : nat => Int (start + Z.of_nat i)) (rowPositions headers) /\
    StronglySorted numLt (map BlockData.number (blocks s)) /\
    NoDup (map BlockData.number (blocks s)) /\
    (forall n, In n (map BlockData.number (blocks s)) ->
       exists i : nat,
         n = Int (start + Z.of_nat i) /\ (1 <= i < length headers)%nat /\
         present headers i = true /\ present headers (i - 1) = true) /\
    (length headers = Z.to_nat count ->
     (forall n, In n (map BlockData.number (blocks s)) ->
        exists z, n = Int z /\ start + 1 <= z <= 3) /\
     (map BlockData.number (blocks s) = heights (start + 1) (Z.to_nat (3 - start))
      <-> (length headers <= 1)%nat \/
          Forall (fun h => Js.truthy h = true) headers)).
Proof.
  eapply (blocks_cover_window_of_faithful_headers
            Sample.gappy 20000 Sample.fresh _ 3).
  - lia.
  - reflexivity.
  - vm_compute. reflexivity.
  - intros i h Hi Ht.
    destruct i as [|[|[|[|i]]]]; simpl in Hi; try discriminate;
      injection Hi as <-; try reflexivity; discriminate Ht.
Defined.

Example rowPositions_with_a_gap :
  rowPositions [Sample.header 0 0; Sample.header 1 1000; VNull;
                Sample.header 3 10123; Sample.header 4 11000]
  = [1%nat; 4%nat].
Proof. reflexivity. Qed.

(** The window for tip height 5: six headers from height 0 on. *)
Example window_of_tip_5 :
  countOf (Int 5) = Int 6 /\ startOf (Int 5) = Int 0.
Proof. split; reflexivity. Qed.

Example window_of_tip_1000 :
  countOf (Int 1000) = Int 60 /\ startOf (Int 1000) = Int 941.
Proof. split; reflexivity. Qed.

(** ** The hashrate formatter *)

Lemma formatWith_first us h :
  (exists d u, In (d, u) us /\ d <= h) ->
  exists pre div unit post,
    us = pre ++ (div, unit) :: post /\ div <= h /\
    Forall (fun du => h < fst du) pre /\
    formatWith us h = scaled h div unit.
Proof.
  induction us as [|[d0 u0] us IH]; intros (d & u & Hin & Hle); [destruct Hin|].
  simpl. destruct (Z.leb_spec d0 h) as [H0|H0].
  - exists [], d0, u0, us. repeat split; auto.
  - destruct IH as (pre & div & unit & post & -> & Hdiv & Hpre & Heq).
    { destruct Hin as [[= -> ->]|Hin]; [lia|]. by exists d, u. }
    exists ((d0, u0) :: pre), div, unit, post. repeat split; auto.
Qed.

Lemma units_descending : StronglySorted (fun a b => fst b <= fst a) units.
Proof. unfold units. repeat constructor; simpl; lia. Qed.

Lemma formatHashrate_largest_unit h :
  1 <= h ->
  exists div unit,
    In (div, unit) units /\ div <= h /\
    (forall d u, In (d, u) units -> d <= h -> d <= div) /\
    formatHashrate h = scaled h div unit.
Proof.
  intros Hh.
  destruct (formatWith_first units h)
    as (pre & div & unit & post & Hu & Hdiv & Hpre & Heq).
  { exists 1, "H/s". split; [|exact Hh]. unfold units. simpl. auto 10. }
  exists div, unit. split; [|split; [exact Hdiv|split; [|exact Heq]]].
  - rewrite Hu. apply in_or_app. right. by left.
  - intros d u Hin Hle. pose proof units_descending as Hs.
    rewrite Hu in Hin, Hs. apply in_app_or in Hin.
    destruct Hin as [Hin|[[= -> ->]|Hin]].
    + rewrite Forall_forall in Hpre. apply list_elem_of_In, Hpre in Hin.
      simpl in Hin. lia.
    + lia.
    + apply StronglySorted_app_1_r in Hs. inversion Hs as [|? ? _ Hall]; subst.
      rewrite Forall_forall in Hall. apply list_elem_of_In, Hall in Hin.
      exact Hin.
Qed.

Ltac literal_powers :=
  repeat match goal with
         | |- context [10 ^ ?b] =>
             let v := eval vm_compute in (10 ^ b) in change (10 ^ b) with v
         | H : context [10 ^ ?b] |- _ =>
             let v := eval vm_compute in (10 ^ b) in change (10 ^ b) with v in H
         end.

(** Below 10^27 H/s the rate in its unit, in thousandths, fits 40 bits. *)
Lemma scaled_rate_range h div unit :
  1 <= h < 10 ^ 27 ->
  In (div, unit) units -> div <= h ->
  (forall d u, In (d, u) units -> d <= h -> d <= div) ->
  1 <= Z.quot (h * 1000) div < 2 ^ 40.
Proof.
  intros Hh Hin Hle Hmax.
  assert (0 < div /\ (div = 10 ^ 18 \/ h < 1000 * div)) as [Hpos Hnext].
  { unfold units in Hin. simpl in Hin.
    destruct Hin as [[= <- <-]|Hin]; [split; [lia | by left]|].
    repeat (destruct Hin as [[= <- <-]|Hin];
            [split; [lia|]; right;
             match goal with
             | |- h < 1000 * ?d =>
                 destruct (Z.lt_ge_cases h (1000 * d)) as [H|H]; [exact H|];
                 exfalso;
                 assert (exists u, In (1000 * d, u) units) as [u Hu]
                   by (unfold units; simpl; eauto 10);
                 pose proof (Hmax _ _ Hu H); lia
             end|]).
    destruct Hin. }
  rewrite Z.quot_div_nonneg by lia. split.
  - apply Z.div_le_lower_bound; lia.
  - apply Z.div_lt_upper_bound; [lia|].
    destruct Hnext as [->|Hnext]; literal_powers; lia.
Qed.

(** C7. A difficulty of 10^13 over an average of 10 s is 10^12 H/s, printed
    "1.00 TH/s"; a difficulty of 500 over 1 s is 500 H/s, printed
    "500.00 H/s"; and for every rate of at least 1 H/s the formatter takes
    the largest unit threshold that does not exceed the rate and prints the
    rate in that unit with [toFixed(2)]: below 10^27 H/s that is n/100, with
    two decimals, for the hundredths n nearest to the rate in that unit. *)
Theorem formatHashrate_units_and_decimals :
  (hashrateOver (10 ^ 13) (Js.ofZ 10) = Some (10 ^ 12) /\
   formatHashrate (10 ^ 12) = "1.00 TH/s") /\
  (hashrateOver 500 (Js.ofZ 1) = Some 500 /\
   formatHashrate 500 = "500.00 H/s") /\
  (forall h, 1 <= h ->
     exists div unit,
       In (div, unit) units /\ div <= h /\
       (forall d u, In (d, u) units -> d <= h -> d <= div) /\
       formatHashrate h = scaled h div unit /\
       (h < 10 ^ 27 ->
        exists n,
          formatHashrate h = Js.fixed2 n +:+ " " +:+ unit /\
          0 <= n /\
          10 * n - 5 <= Z.quot (h * 1000) div <= 10 * n + 5)).
Proof.
  split; [split; vm_compute; reflexivity|].
  split; [split; vm_compute; reflexivity|].
  intros h Hh.
  destruct (formatHashrate_largest_unit h Hh) as (div & unit & Hin & Hle & Hmax & Heq).
  exists div, unit. repeat (split; [assumption|]).
  intros Hlt.
  pose proof (scaled_rate_range h div unit ltac:(lia) Hin Hle Hmax) as Hk.
  destruct (toFixed2_thousandths (Z.quot (h * 1000) div) Hk) as (n & Hn & Hn0 & Hnb).
  exists n. split; [|split; [exact Hn0 | exact Hnb]].
  rewrite Heq. unfold scaled. by rewrite Hn.
Qed.

Lemma formatHashrate_units_and_decimals_witness :
  exists div unit,
    In (div, unit) units /\ div <= 2500000 /\
    (forall d u, In (d, u) units -> d <= 2500000 -> d <= div) /\
    formatHashrate 2500000 = scaled 2500000 div unit /\
    (2500000 < 10 ^ 27 ->
     exists n,
       formatHashrate 2500000 = Js.fixed2 n +:+ " " +:+ unit /\
       0 <= n /\
       10 * n - 5 <= Z.quot (2500000 * 1000) div <= 10 * n + 5).
Proof.
  apply (proj2 (proj2 formatHashrate_units_and_decimals) 2500000). lia.
Defined.

Example formatHashrate_mega : formatHashrate 2500000 = "2.50 MH/s".
Proof. vm_compute. reflexivity. Qed.

Example networkHashrate_sample :
  networkHashrate (assemble (Int 3) Sample.chainInfo Sample.orderedHeaders [])
  = "3.33 TH/s".
Proof. vm_compute. reflexivity. Qed.

(** ** When transaction counts cannot be fetched *)

(** C8, as stated, fails: with the tip, the chain info and the header batch
    answered and the block batch timing out, the cycle rejects with the
    timeout instead of resolving to a snapshot. *)
Lemma block_batch_failure_fails_cycle :
  exists tip ci p1 hs p2 p',
    fetchTipAndInfo Sample.blocksDown Sample.fresh = (inr (tip, ci), p1) /\
    fetchHeaders Sample.blocksDown (Int 3) p1 = (inr hs, p2) /\
    fst (fetchBlocks Sample.blocksDown (Int 3) p2) = inl timeoutError /\
    buildHistory Sample.blocksDown 20000 Sample.fresh = (inl timeoutError, p') /\
    forall s, fst (buildHistory Sample.blocksDown 20000 Sample.fresh) <> inr s.
Proof.
  do 6 eexists.
  split; [vm_compute; reflexivity|].
  split; [vm_compute; reflexivity|].
  split; [vm_compute; reflexivity|].
  split; [vm_compute; reflexivity|].
  intros s. vm_compute. discriminate.
Qed.

Lemma fold_recordTx_lookup_None (bs : list value) (m : gmap num num) (k : num) :
  m !! k = None ->
  Forall (fun b => recorded b = true -> heightOf b <> k) bs ->
  fold_left recordTx bs m !! k = None.
Proof.
  intros Hm Hall. revert m Hm.
  induction Hall as [|b bs Hb _ IH]; intros m Hm; simpl; [exact Hm|].
  apply IH. unfold recordTx. fold (recorded b). fold (heightOf b).
  destruct (recorded b) eqn:E; [|exact Hm].
  rewrite lookup_insert_ne; [exact Hm | by apply Hb].
Qed.

(** C8, amended. When the block batch rejects with [e], the cycle rejects
    with [e] and leaves the cache slot as it was. What degrades to a null
    [txCount] is a height for which a resolved batch holds no block (a null
    result, or a block without header): every entry of [blocks] whose height
    no fetched block recorded has a null [txCount]. *)
Theorem block_batch_failure_propagates (node : Node) (now : Z) (p : Proc) :
  (forall tip ci p1 n hs p2 e,
      readCache now p = None ->
      fetchTipAndInfo node p = (inr (tip, ci), p1) ->
      Js.get tip "number" = Some n ->
      fetchHeaders node (Js.parseInt16 n) p1 = (inr hs, p2) ->
      fst (fetchBlocks node (Js.parseInt16 n) p2) = inl e ->
      exists p', buildHistory node now p = (inl e, p') /\
                 cacheSlot p' = cacheSlot p) /\
  (forall tipNum chainInfo headers blocks' row,
      In row (blocks (assemble tipNum chainInfo headers blocks')) ->
      Forall (fun b => recorded b = true -> heightOf b <> BlockData.number row)
             blocks' ->
      BlockData.txCount row = None).
Proof.
  split.
  - intros tip ci p1 n hs p2 e Hc H1 H2 H3 H4.
    apply buildHistory_fetch_failure; [exact Hc|].
    by eapply fetchAll_blocks_failure.
  - intros tipNum chainInfo headers blocks' row Hin Hall.
    rewrite assemble_blocks in Hin.
    pose proof (buildBlockData_txCount (buildTxMap blocks') headers) as Hrows.
    rewrite Forall_forall in Hrows. apply list_elem_of_In, Hrows in Hin.
    rewrite Hin. by apply fold_recordTx_lookup_None.
Qed.

Lemma block_batch_failure_propagates_witness :
  (exists p',
      buildHistory Sample.blocksDown 20000 Sample.stale = (inl timeoutError, p') /\
      cacheSlot p' = (Some Sample.oldSnapshot, 1000)) /\
  (exists row,
      In row (blocks (assemble (Int 3) Sample.chainInfo Sample.orderedHeaders
                               Sample.sparseBlocks)) /\
      BlockData.number row = Int 2 /\
      BlockData.txCount row = None).
Proof.
  split.
  - refine (proj1 (block_batch_failure_propagates
                     Sample.blocksDown 20000 Sample.stale)
                  _ _ _ _ _ _ timeoutError _ _ _ _ _).
    + reflexivity.
    + vm_compute. reflexivity.
    + reflexivity.
    + vm_compute. reflexivity.
    + vm_compute. reflexivity.
  - assert (In (BlockData.mk (Int 2) (Int 2000) None (Int 1000))
               (blocks (assemble (Int 3) Sample.chainInfo Sample.orderedHeaders
                                 Sample.sparseBlocks))) as Hin.
    { vm_compute. auto. }
    eexists. split; [exact Hin|]. split; [reflexivity|].
    apply (proj2 (block_batch_failure_propagates
                    Sample.blocksDown 20000 Sample.stale)
                 (Int 3) Sample.chainInfo Sample.orderedHeaders Sample.sparseBlocks
                 _ Hin).
    repeat constructor; vm_compute; intros; discriminate.
Defined.

Example sparse_blocks_txCounts :
  map BlockData.txCount
      (blocks (assemble (Int 3) Sample.chainInfo Sample.orderedHeaders
                        Sample.sparseBlocks))
  = [Some (Int 4); None; Some (Int 0)].
Proof. vm_compute. reflexivity. Qed.

(** ** Errors of a single call *)

(** C9, as stated, fails: an error envelope whose message reads like the
    timeout's rejects the call with the very reason a timed-out request
    does, and two envelopes that differ in their code only reject it with
    the same reason. *)
Lemma rpc_error_same_as_timeout :
  fst (rpcCall (Sample.complaining (-32601)) "get_tip_header" [] Sample.fresh)
    = inl timeoutError /\
  fst (rpcCall Sample.silent "get_tip_header" [] Sample.fresh)
    = inl timeoutError /\
  fst (rpcCall (Sample.complaining (-32601)) "get_tip_header" [] Sample.fresh)
    = fst (rpcCall (Sample.complaining (-32000)) "get_tip_header" [] Sample.fresh).
Proof. repeat split. Qed.

(** C9, amended. When the envelope of a single call holds a truthy [error],
    [rpcCall] rejects with a plain Error whose message is the node's
    [error.message] and which carries no code; a rejected request rejects
    the call with its own reason, unchanged. *)
Theorem rpcCall_rejects_with_plain_Error
        (node : Node) (m : string) (ps : list value) (p : Proc) :
  (forall r e,
      send node (length (wire p)) (Single (mkRequest (rpcId p) m ps)) = inr r ->
      Js.get r "error" = Some e ->
      Js.truthy e = true ->
      fst (rpcCall node m ps p) = inl (newError (Js.prop e "message")) /\
      name (newError (Js.prop e "message")) = "Error" /\
      code (newError (Js.prop e "message")) = None /\
      forall s, Js.prop e "message" = VStr s ->
                message (newError (Js.prop e "message")) = s) /\
  (forall e,
      send node (length (wire p)) (Single (mkRequest (rpcId p) m ps)) = inl e ->
      fst (rpcCall node m ps p) = inl e).
Proof.
  split.
  - intros r e Hs Hg Ht. split; [|split; [reflexivity|split; [reflexivity|]]].
    + unfold rpcCall, rpcWrite, ckbWrite, ckbSettle, bind. simpl.
      rewrite Hs. simpl. unfold rpcThen. by rewrite Hg, Ht.
    + intros s ->. reflexivity.
  - intros e. apply rpcCall_transport_failure.
Qed.

Lemma rpcCall_rejects_with_plain_Error_witness :
  fst (rpcCall (Sample.complaining (-32601)) "get_tip_header" [] Sample.fresh)
    = inl (newError (VStr "CKB node request timed out")) /\
  fst (rpcCall Sample.silent "get_tip_header" [] Sample.fresh) = inl timeoutError.
Proof.
  split.
  - exact (proj1 (proj1 (rpcCall_rejects_with_plain_Error
                           (Sample.complaining (-32601)) "get_tip_header" []
                           Sample.fresh)
                        (Sample.failure 1 (-32601) "CKB node request timed out")
                        (VObj [("code", VNum (-32601));
                               ("message", VStr "CKB node request timed out")])
                        eq_refl eq_refl eq_refl)).
  - exact (proj2 (rpcCall_rejects_with_plain_Error
                    Sample.silent "get_tip_header" [] Sample.fresh)
                 timeoutError eq_refl).
Defined.

Example rpcCall_result :
  fst (rpcCall Sample.healthy "get_tip_header" [] Sample.fresh)
  = inr (Sample.header 3 10123).
Proof. reflexivity. Qed.

(** ** Calls that overlap *)

(** The synchronous part of a call is the beginning of the call. *)
Lemma fetchTipAndInfo_state node p :
  snd (fetchTipAndInfo node p)
  = snd (rpcWrite "get_blockchain_info" [] (snd (rpcWrite "get_tip_header" [] p))).
Proof.
  unfold fetchTipAndInfo, promiseAll2.
  pose proof (rpcCall_state node "get_tip_header" [] p) as H1.
  destruct (rpcCall node "get_tip_header" [] p) as [ra p1]. simpl in *.
  pose proof (rpcCall_state node "get_blockchain_info" [] p1) as H2.
  destruct (rpcCall node "get_blockchain_info" [] p1) as [rb p2]. simpl in *.
  by rewrite H2, H1.
Qed.

Lemma buildHistory_begin_stale now p :
  readCache now p = None ->
  snd (buildHistory_begin now p)
  = snd (rpcWrite "get_blockchain_info" [] (snd (rpcWrite "get_tip_header" [] p))).
Proof. intros H. unfold buildHistory_begin. rewrite H. reflexivity. Qed.

Lemma buildHistory_starts_with_begin node now p :
  wire (snd (buildHistory_begin now p)) `prefix_of`
  wire (snd (buildHistory node now p)).
Proof.
  destruct (readCache now p) as [s|] eqn:Hc.
  - rewrite (buildHistory_fresh node now p s Hc).
    unfold buildHistory_begin. by rewrite Hc.
  - rewrite (buildHistory_begin_stale now p Hc), <- (fetchTipAndInfo_state node p).
    rewrite (buildHistory_stale node now p Hc).
    unfold fetchAll, bind.
    destruct (fetchTipAndInfo node p) as [[e|r] p1]; simpl; [reflexivity|].
    pose proof (quiet_afterTipAndInfo node r p1) as [_ Hw].
    by destruct (afterTipAndInfo node r p1)
      as [[e|[[[tipNum chainInfo] headers] blocks]] p2].
Qed.

Lemma buildHistory_begin_cache now p :
  cacheSlot (snd (buildHistory_begin now p)) = cacheSlot p.
Proof. unfold buildHistory_begin. by destruct (readCache now p). Qed.

Lemma readCache_cacheSlot now p q :
  cacheSlot p = cacheSlot q -> readCache now p = readCache now q.
Proof. unfold cacheSlot, readCache. by intros [= -> ->]. Qed.

Lemma callsOf_app m w1 w2 : callsOf m (w1 ++ w2) = (callsOf m w1 + callsOf m w2)%nat.
Proof. unfold callsOf. by rewrite filter_app, length_app. Qed.

Lemma buildHistory_begin_tip_calls now p :
  readCache now p = None ->
  isWaitingForTip (fst (buildHistory_begin now p)) /\
  callsOf "get_tip_header" (wire (snd (buildHistory_begin now p)))
  = S (callsOf "get_tip_header" (wire p)).
Proof.
  intros Hc. unfold buildHistory_begin. rewrite Hc.
  unfold rpcWrite, ckbWrite. simpl. split.
  - eexists _, _. split; reflexivity.
  - rewrite <- app_assoc, callsOf_app. simpl. unfold callsOf. simpl. lia.
Qed.

(** C10, as stated, fails: two calls that both start while the cached
    snapshot is stale write two [get_tip_header] requests, not one. *)
Lemma two_overlapping_calls_fetch_tip_twice :
  histCache Sample.stale = Some Sample.oldSnapshot /\
  readCache 20000 Sample.stale = None /\
  callsOf "get_tip_header" (wire (snd (beginMany 20000 2 Sample.stale))) = 2%nat /\
  callsOf "get_tip_header" (wire (snd (beginMany 20000 2 Sample.stale))) <> 1%nat.
Proof. repeat split. discriminate. Qed.

(** C10, amended. Each of [n] calls of [buildHistory] that start while the
    cache is stale or empty, before any reply has arrived, starts a refresh
    of its own: every one of them writes a [get_tip_header] request and
    waits for its reply ([n] such requests in all), none returns the cached
    snapshot or waits for the refresh of another, and the cache slot is not
    touched. *)
Theorem overlapping_calls_each_start_a_refresh (now : Z) (n : nat) (p : Proc) :
  readCache now p = None ->
  length (fst (beginMany now n p)) = n /\
  Forall isWaitingForTip (fst (beginMany now n p)) /\
  callsOf "get_tip_header" (wire (snd (beginMany now n p)))
    = (callsOf "get_tip_header" (wire p) + n)%nat /\
  cacheSlot (snd (beginMany now n p)) = cacheSlot p.
Proof.
  revert p. induction n as [|n IH]; intros p Hc; simpl.
  - repeat split; [constructor | lia].
  - destruct (buildHistory_begin_tip_calls now p Hc) as [Hw Hcalls].
    pose proof (buildHistory_begin_cache now p) as Hslot.
    destruct (buildHistory_begin now p) as [e p1]. simpl in *.
    assert (readCache now p1 = None) as Hc1.
    { by rewrite (readCache_cacheSlot now p1 p Hslot). }
    destruct (IH p1 Hc1) as (Hlen & Hall & Hn & Hs).
    destruct (beginMany now n p1) as [es p2]. simpl in *.
    repeat split.
    + by rewrite Hlen.
    + by constructor.
    + rewrite Hn, Hcalls. lia.
    + congruence.
Qed.

Lemma overlapping_calls_each_start_a_refresh_witness :
  length (fst (beginMany 20000 3 Sample.stale)) = 3%nat /\
  Forall isWaitingForTip (fst (beginMany 20000 3 Sample.stale)) /\
  callsOf "get_tip_header" (wire (snd (beginMany 20000 3 Sample.stale)))
    = (callsOf "get_tip_header" (wire Sample.stale) + 3)%nat /\
  cacheSlot (snd (beginMany 20000 3 Sample.stale)) = cacheSlot Sample.stale.
Proof.
  apply (overlapping_calls_each_start_a_refresh 20000 3 Sample.stale).
  reflexivity.
Defined.

Example fresh_cache_is_served :
  buildHistory Sample.silent 1500 Sample.stale = (inr Sample.oldSnapshot, Sample.stale).
Proof. reflexivity. Qed.


(** * Further properties of the server *)

(** ** Heights on the wire *)

Lemma hexDigit_digitChar d :
  0 <= d < 16 -> Text.hexDigit (Text.digitChar d) = Some d.
Proof.
  intros H.
  assert (d = 0 \/ d = 1 \/ d = 2 \/ d = 3 \/ d = 4 \/ d = 5 \/ d = 6 \/ d = 7 \/
          d = 8 \/ d = 9 \/ d = 10 \/ d = 11 \/ d = 12 \/ d = 13 \/ d = 14 \/ d = 15)
    as Hd by lia.
  repeat (destruct Hd as [->|Hd]; [reflexivity|]). by subst.
Qed.

(** Reading the digits that [digitsFuel] writes in front of [acc] shifts the
    number read so far and adds the number written. *)
Lemma read_digitsFuel fuel n acc :
  0 <= n < 16 ^ Z.of_nat (S fuel) ->
  exists k, 0 < k /\
    (forall a, Text.readPrefix Text.hexDigit 16 (Text.digitsFuel 16 (S fuel) n acc) a
               = Text.readPrefix Text.hexDigit 16 acc (Some (default 0 a * 16 ^ k + n))) /\
    (forall a, Text.readAll Text.hexDigit 16 (Text.digitsFuel 16 (S fuel) n acc) a
               = Text.readAll Text.hexDigit 16 acc (Some (default 0 a * 16 ^ k + n))).
Proof.
  revert n acc. induction fuel as [|fuel IH]; intros n acc Hn.
  - exists 1. change (16 ^ Z.of_nat 1) with 16 in Hn.
    split; [lia|].
    assert (n / 16 = 0) as Hq by (apply Z.div_small; lia).
    assert (n mod 16 = n) as Hm by (apply Z.mod_small; lia).
    split; intros a; simpl; rewrite Hq, Hm; simpl;
      rewrite hexDigit_digitChar by lia; do 2 f_equal; lia.
  - cbn [Text.digitsFuel].
    pose proof (Z.mod_pos_bound n 16 ltac:(lia)) as Hmod.
    pose proof (Z.div_mod n 16 ltac:(lia)) as Hdm.
    destruct (Z.eqb_spec (n / 16) 0) as [Hq|Hq].
    + exists 1. split; [lia|].
      split; intros a; simpl; rewrite hexDigit_digitChar by lia; do 2 f_equal; lia.
    + assert (0 <= n / 16 < 16 ^ Z.of_nat (S fuel)) as Hn'.
      { split; [apply Z.div_pos; lia|]. apply Z.div_lt_upper_bound; [lia|].
        replace (Z.of_nat (S (S fuel))) with (1 + Z.of_nat (S fuel)) in Hn by lia.
        rewrite Z.pow_add_r in Hn by lia. lia. }
      destruct (IH (n / 16) (String (Text.digitChar (n mod 16)) acc) Hn')
        as (k & Hk & HP & HA).
      exists (k + 1). split; [lia|].
      split; intros a; [rewrite HP | rewrite HA]; simpl;
        rewrite hexDigit_digitChar by lia; simpl; do 2 f_equal;
        rewrite Z.pow_add_r by lia; lia.
Qed.

Lemma natural16_fuel n : 0 <= n -> n < 16 ^ Z.of_nat (S (Z.to_nat (Z.log2 n))).
Proof.
  intros Hn. destruct (Z.eq_dec n 0) as [->|Hz]; [reflexivity|].
  pose proof (Z.log2_spec n ltac:(lia)) as [_ Hhi].
  pose proof (Z.log2_nonneg n) as Hl.
  eapply Z.lt_le_trans; [exact Hhi|].
  replace (Z.of_nat (S (Z.to_nat (Z.log2 n)))) with (Z.succ (Z.log2 n)) by lia.
  change 16 with (2 ^ 4). rewrite <- Z.pow_mul_r by lia.
  apply Z.pow_le_mono_r; lia.
Qed.

Lemma readPrefix_natural16 n :
  0 <= n -> Text.readPrefix Text.hexDigit 16 (Text.natural 16 n) None = Some n.
Proof.
  intros Hn. unfold Text.natural.
  destruct (read_digitsFuel (Z.to_nat (Z.log2 n)) n "") as (k & _ & HP & _).
  { split; [exact Hn | by apply natural16_fuel]. }
  rewrite HP. reflexivity.
Qed.

Lemma readAll_natural16 n :
  0 <= n -> Text.readAll Text.hexDigit 16 (Text.natural 16 n) None = Some n.
Proof.
  intros Hn. unfold Text.natural.
  destruct (read_digitsFuel (Z.to_nat (Z.log2 n)) n "") as (k & _ & _ & HA).
  { split; [exact Hn | by apply natural16_fuel]. }
  rewrite HA. reflexivity.
Qed.

Lemma parseInt16_0x t :
  Js.parseInt16 (VStr (String "0" (String "x" t)))
  = match Text.readPrefix Text.hexDigit 16 t None with
    | Some n => Int n
    | None => Nan
    end.
Proof.
  unfold Js.parseInt16. simpl Js.toString.
  assert (Text.trimLeft (String "0" (String "x" t)) = String "0" (String "x" t))
    as -> by reflexivity.
  reflexivity.
Qed.

Lemma parseInt16_of_height n :
  0 <= n -> Js.parseInt16 (VStr ("0x" +:+ Js.toString16 (Int n))) = Int n.
Proof.
  intros Hn. unfold Js.toString16, Text.integer.
  destruct (Z.ltb_spec n 0); [lia|].
  change ("0x" +:+ Text.natural 16 n)
    with (String "0" (String "x" (Text.natural 16 n))).
  by rewrite parseInt16_0x, readPrefix_natural16.
Qed.

(** X1. The parameter that [buildHistory] writes for a height,
    ['0x' + n.toString(16)], reads back with [parseInt(_, 16)] (the way the
    program itself reads the heights of headers and blocks) as the same
    height when [n] is not negative; for a negative [n] the text is "0x-..."
    and reads as NaN. *)
Theorem hex_height_round_trip (n : Z) :
  Js.parseInt16 (VStr ("0x" +:+ Js.toString16 (Int n)))
  = if 0 <=? n then Int n else Nan.
Proof.
  destruct (Z.leb_spec 0 n) as [Hn|Hn]; [by apply parseInt16_of_height|].
  unfold Js.toString16, Text.integer.
  destruct (Z.ltb_spec n 0); [|lia]. reflexivity.
Qed.

Lemma heightRequests_asks m first len :
  0 <= first ->
  map (fun r => map Js.parseInt16 (snd r)) (heightRequests m (Int first) (Int len))
  = map (fun h => [h]) (heights first (Z.to_nat len)).
Proof.
  intros Hf. unfold heightRequests, heights. simpl Js.toLength.
  rewrite !map_map. apply map_ext. intros i. simpl.
  f_equal. apply parseInt16_of_height. lia.
Qed.

Lemma rpcBatch_wire node requests p :
  snd (rpcBatch node requests p)
  = mkProc (rpcId p) (histCache p) (histCacheTime p)
           (wire p ++ [Batch (imap (fun i r => mkRequest (Z.of_nat i) (fst r) (snd r))
                                   requests)]).
Proof.
  unfold rpcBatch, bind, ckbRequest, ckbWrite, ckbSettle. simpl.
  destruct (send node _ _) as [e|r]; [reflexivity|].
  unfold batchThen. destruct r; try reflexivity.
  by destruct (List.find _ _).
Qed.

Lemma askedHeights_batch requests :
  askedHeights (Batch (imap (fun i r => mkRequest (Z.of_nat i) (fst r) (snd r)) requests))
  = map (fun r => map Js.parseInt16 (snd r)) requests.
Proof.
  unfold askedHeights. apply list_eq. intros i.
  rewrite !list_lookup_fmap, list_lookup_imap.
  by destruct (requests !! i).
Qed.

(** X2. For a tip height [tip >= 0], with [count = min(60, tip + 1)] and
    [txFetchCount = min(30, count)]: the header batch is one request on the
    wire that asks, in order, for the heights [tip - count + 1 .. tip], and
    the block batch is one request that asks for the last [txFetchCount] of
    them; the block window is never empty and lies inside the header
    window, which starts at a height that is not negative. *)
Theorem cycle_asks_for_its_window (node : Node) (tip : Z) (p : Proc) :
  let count := Z.min 60 (tip + 1) in
  let start := tip - count + 1 in
  let txCount := Z.min 30 count in
  0 <= tip ->
  (exists hb,
      wire (snd (fetchHeaders node (Int tip) p)) = wire p ++ [hb] /\
      askedHeights hb = map (fun h => [h]) (heights start (Z.to_nat count))) /\
  (exists bb,
      wire (snd (fetchBlocks node (Int tip) p)) = wire p ++ [bb] /\
      askedHeights bb
        = map (fun h => [h]) (heights (tip - txCount + 1) (Z.to_nat txCount))) /\
  1 <= txCount <= count /\ count <= 60 /\ 0 <= start <= tip - txCount + 1.
Proof.
  intros count start txCount Htip. split; [|split].
  - eexists. unfold fetchHeaders. rewrite rpcBatch_wire. simpl wire.
    split; [reflexivity|]. rewrite askedHeights_batch.
    change (countOf (Int tip)) with (Int count).
    change (startOf (Int tip)) with (Int start).
    apply heightRequests_asks. subst start count. lia.
  - eexists. unfold fetchBlocks. rewrite rpcBatch_wire. simpl wire.
    split; [reflexivity|]. rewrite askedHeights_batch.
    change (countOf (Int tip)) with (Int count).
    change (Js.min (Int TX_COUNT) (Int count)) with (Int txCount).
    change (Js.add (Js.sub (Int tip) (Int txCount)) (Int 1))
      with (Int (tip - txCount + 1)).
    apply heightRequests_asks. subst txCount count. lia.
  - subst start txCount count. lia.
Qed.

Lemma cycle_asks_for_its_window_witness :
  let count := Z.min 60 (1000 + 1) in
  let start := 1000 - count + 1 in
  let txCount := Z.min 30 count in
  (exists hb,
      wire (snd (fetchHeaders Sample.silent (Int 1000) Sample.fresh))
        = wire Sample.fresh ++ [hb] /\
      askedHeights hb = map (fun h => [h]) (heights start (Z.to_nat count))) /\
  (exists bb,
      wire (snd (fetchBlocks Sample.silent (Int 1000) Sample.fresh))
        = wire Sample.fresh ++ [bb] /\
      askedHeights bb
        = map (fun h => [h]) (heights (1000 - txCount + 1) (Z.to_nat txCount))) /\
  1 <= txCount <= count /\ count <= 60 /\ 0 <= start <= 1000 - txCount + 1.
Proof.
  apply (cycle_asks_for_its_window Sample.silent 1000 Sample.fresh). lia.
Defined.

Example window_of_a_young_chain :
  askedHeights (Batch (imap (fun i r => mkRequest (Z.of_nat i) (fst r) (snd r))
                            (heightRequests "get_header_by_number"
                                            (startOf (Int 2)) (countOf (Int 2)))))
  = [[Int 0]; [Int 1]; [Int 2]].
Proof. reflexivity. Qed.

(** X3. A call of [buildHistory] that finds the cache stale or empty writes
    the two single calls [get_tip_header] and [get_blockchain_info], with
    consecutive ids taken from [rpcId], and after them at most two batches
    and nothing else; [rpcId] has advanced by exactly two when it settles,
    whether it resolves or rejects, and a call that resolves has written
    both batches. *)
Theorem cycle_request_budget (node : Node) (now : Z) (p : Proc) :
  readCache now p = None ->
  exists rest,
    wire (snd (buildHistory node now p))
      = wire p ++ Single (mkRequest (rpcId p) "get_tip_header" [])
               :: Single (mkRequest (rpcId p + 1) "get_blockchain_info" [])
               :: rest /\
    rpcId (snd (buildHistory node now p)) = rpcId p + 2 /\
    Forall isBatch rest /\
    (length rest <= 2)%nat /\
    (forall s, fst (buildHistory node now p) = inr s -> length rest = 2%nat).
Proof.
  intros Hc. rewrite (buildHistory_stale node now p Hc).
  unfold fetchAll, bind.
  pose proof (fetchTipAndInfo_state node p) as Hst.
  destruct (fetchTipAndInfo node p) as [[e|[tipHeader chainInfo]] p1]; simpl in Hst.
  - exists []. subst p1. simpl. rewrite <- app_assoc.
    split; [reflexivity|]. split; [lia|]. split; [constructor|].
    split; [lia | discriminate].
  - unfold afterTipAndInfo.
    destruct (Js.get tipHeader "number") as [n|].
    2:{ exists []. subst p1. simpl. rewrite <- app_assoc.
        split; [reflexivity|]. split; [lia|]. split; [constructor|].
        split; [lia | discriminate]. }
    unfold bind.
    pose proof (rpcBatch_wire node
                  (heightRequests "get_header_by_number"
                     (startOf (Js.parseInt16 n)) (countOf (Js.parseInt16 n))) p1) as Hh.
    fold (fetchHeaders node (Js.parseInt16 n)) in Hh.
    destruct (fetchHeaders node (Js.parseInt16 n) p1) as [[e|hs] p2]; simpl in Hh.
    + eexists [_]. subst p2 p1. simpl. rewrite <- !app_assoc.
      split; [reflexivity|]. split; [lia|].
      split; [repeat constructor; by eexists|].
      split; [simpl; lia | discriminate].
    + pose proof (rpcBatch_wire node
                    (heightRequests "get_block_by_number"
                       (Js.add (Js.sub (Js.parseInt16 n)
                                       (Js.min (Int TX_COUNT) (countOf (Js.parseInt16 n))))
                               (Int 1))
                       (Js.min (Int TX_COUNT) (countOf (Js.parseInt16 n)))) p2) as Hb.
      fold (fetchBlocks node (Js.parseInt16 n)) in Hb.
      destruct (fetchBlocks node (Js.parseInt16 n) p2) as [[e|bs] p3]; simpl in Hb;
        eexists [_; _]; subst p3 p2 p1; simpl; rewrite <- !app_assoc;
        (split; [reflexivity|]); (split; [lia|]);
        (split; [repeat constructor; by eexists|]);
        (split; [simpl; lia | intros; reflexivity]).
Qed.

Lemma cycle_request_budget_witness :
  exists rest,
    wire (snd (buildHistory Sample.healthy 20000 Sample.fresh))
      = wire Sample.fresh
          ++ Single (mkRequest (rpcId Sample.fresh) "get_tip_header" [])
          :: Single (mkRequest (rpcId Sample.fresh + 1) "get_blockchain_info" [])
          :: rest /\
    rpcId (snd (buildHistory Sample.healthy 20000 Sample.fresh))
      = rpcId Sample.fresh + 2 /\
    Forall isBatch rest /\
    (length rest <= 2)%nat /\
    (forall s, fst (buildHistory Sample.healthy 20000 Sample.fresh) = inr s ->
               length rest = 2%nat).
Proof.
  apply (cycle_request_budget Sample.healthy 20000 Sample.fresh). reflexivity.
Defined.

(** ** Request ids *)

Lemma singleIds_app w1 w2 : singleIds (w1 ++ w2) = singleIds w1 ++ singleIds w2.
Proof. unfold singleIds. apply omap_app. Qed.

Lemma rpcCall_effect node m ps p :
  snd (rpcCall node m ps p)
  = mkProc (rpcId p + 1) (histCache p) (histCacheTime p)
           (wire p ++ [Single (mkRequest (rpcId p) m ps)]).
Proof. rewrite rpcCall_state. reflexivity. Qed.

Lemma orderly_rpcCall node m ps : orderly (rpcCall node m ps).
Proof.
  intros p. rewrite rpcCall_effect. simpl. split; [|lia].
  intros [Hs Hb]. unfold idsInOrder. simpl. rewrite singleIds_app. simpl.
  split.
  - apply StronglySorted_app. split; [|split; [exact Hs | repeat constructor]].
    intros x1 x2 H1 H2. apply list_elem_of_singleton in H2. subst x2.
    rewrite Forall_forall in Hb. by apply Hb.
  - apply Forall_app. split.
    + eapply Forall_impl; [exact Hb|]. simpl. intros. lia.
    + repeat constructor. lia.
Qed.

Lemma orderly_rpcBatch node requests : orderly (rpcBatch node requests).
Proof.
  intros p. rewrite rpcBatch_wire. simpl. split; [|lia].
  unfold idsInOrder. simpl. rewrite singleIds_app. simpl. by rewrite app_nil_r.
Qed.

Lemma orderly_ret {A} (a : A) : orderly (ret a).
Proof. intros p. simpl. split; [auto | lia]. Qed.

Lemma orderly_throw {A} e : orderly (@throw A e).
Proof. intros p. simpl. split; [auto | lia]. Qed.

Lemma orderly_bind {A B} (m : M A) (k : A -> M B) :
  orderly m -> (forall a, orderly (k a)) -> orderly (bind m k).
Proof.
  intros Hm Hk p. unfold bind. destruct (Hm p) as [H1 H2].
  destruct (m p) as [[e|a] p1]; simpl in *; [by split|].
  destruct (Hk a p1) as [H3 H4]. split; [auto | lia].
Qed.

Lemma orderly_promiseAll2 {A B} node (a : M A) (b : M B) :
  orderly a -> orderly b -> orderly (promiseAll2 node a b).
Proof.
  intros Ha Hb p. unfold promiseAll2.
  destruct (Ha p) as [H1 H2]. destruct (a p) as [ra p1]. simpl in *.
  destruct (Hb p1) as [H3 H4]. destruct (b p1) as [rb p2]. simpl in *.
  split; [auto | lia].
Qed.

Lemma orderly_fetchAll node : orderly (fetchAll node).
Proof.
  unfold fetchAll. apply orderly_bind.
  - apply orderly_promiseAll2; apply orderly_rpcCall.
  - intros [tipHeader chainInfo]. unfold afterTipAndInfo.
    destruct (Js.get tipHeader "number"); [|apply orderly_throw].
    apply orderly_bind; [apply orderly_rpcBatch|]. intros hs.
    apply orderly_bind; [apply orderly_rpcBatch|]. intros bs.
    apply orderly_ret.
Qed.

Lemma orderly_buildHistory node now : orderly (buildHistory node now).
Proof.
  intros p. destruct (readCache now p) as [s|] eqn:Hc.
  - rewrite (buildHistory_fresh node now p s Hc). simpl. split; [auto | lia].
  - rewrite (buildHistory_stale node now p Hc).
    destruct (orderly_fetchAll node p) as [H1 H2].
    destruct (fetchAll node p) as [[e|[[[tipNum chainInfo] headers] blocks]] p1];
      simpl in *; split; auto.
Qed.

Lemma orderly_perform node a p :
  (idsInOrder p -> idsInOrder (perform node p a)) /\ rpcId p <= rpcId (perform node p a).
Proof.
  destruct a; simpl.
  - apply orderly_rpcCall.
  - apply orderly_rpcBatch.
  - apply orderly_buildHistory.
Qed.

(** X4. Whatever sequence of [rpcCall], [rpcBatch] and [buildHistory] calls a
    process makes, and whatever the node answers (results, errors, timeouts),
    the ids of its single calls are handed out in strictly ascending order
    and all lie below the current [rpcId], which never decreases: no id of a
    single call is ever used twice. *)
Theorem request_ids_never_reused (node : Node) (acts : list action) (p : Proc) :
  idsInOrder p ->
  idsInOrder (performAll node acts p) /\
  rpcId p <= rpcId (performAll node acts p) /\
  NoDup (singleIds (wire (performAll node acts p))).
Proof.
  intros Hp.
  assert (idsInOrder (performAll node acts p) /\
          rpcId p <= rpcId (performAll node acts p)) as [H1 H2].
  { revert p Hp. unfold performAll.
    induction acts as [|a acts IH]; intros p Hp; simpl; [split; [exact Hp | lia]|].
    destruct (orderly_perform node a p) as [Ha Hb].
    destruct (IH (perform node p a) (Ha Hp)) as [H1 H2]. split; [exact H1 | lia]. }
  split; [exact H1|]. split; [exact H2|].
  destruct H1 as [Hs _]. revert Hs.
  generalize (singleIds (wire (performAll node acts p))).
  induction 1 as [|x l _ IH Hx]; constructor; [|exact IH].
  intros Hin. rewrite Forall_forall in Hx. specialize (Hx x Hin). lia.
Qed.

Lemma request_ids_never_reused_witness :
  idsInOrder (performAll Sample.healthy
                [DoHistory 20000; DoCall "get_peers" []; DoHistory 50000] Sample.fresh) /\
  rpcId Sample.fresh <= rpcId (performAll Sample.healthy
                [DoHistory 20000; DoCall "get_peers" []; DoHistory 50000] Sample.fresh) /\
  NoDup (singleIds (wire (performAll Sample.healthy
                [DoHistory 20000; DoCall "get_peers" []; DoHistory 50000] Sample.fresh))).
Proof.
  apply (request_ids_never_reused Sample.healthy
           [DoHistory 20000; DoCall "get_peers" []; DoHistory 50000] Sample.fresh).
  split; constructor.
Defined.

Example ids_of_a_run :
  singleIds (wire (performAll Sample.healthy
                [DoHistory 20000; DoCall "get_peers" []; DoHistory 50000] Sample.fresh))
  = [1; 2; 3; 4; 5].
Proof. vm_compute. reflexivity. Qed.

(** ** The life of a cached snapshot *)

(** X5. A cycle that refreshes the cache at time [now] stores the very
    snapshot it resolves to, stamped [now]; any later call less than 15000 ms
    after [now] resolves to that snapshot without writing to the node or
    changing the process state (whatever the node would have answered), and
    from 15000 ms on the cache counts as stale again. *)
Theorem refreshed_snapshot_is_served
        (node node' : Node) (now soon late : Z) (p p1 : Proc) (s : Snapshot) :
  readCache now p = None ->
  buildHistory node now p = (inr s, p1) ->
  soon - now < HIST_TTL ->
  HIST_TTL <= late - now ->
  cacheSlot p1 = (Some s, now) /\
  buildHistory node' soon p1 = (inr s, p1) /\
  readCache late p1 = None.
Proof.
  intros Hc Hb Hsoon Hlate. rewrite (buildHistory_stale node now p Hc) in Hb.
  destruct (fetchAll node p) as [[e|[[[tipNum chainInfo] headers] blocks]] p0];
    [discriminate|].
  simpl in Hb. injection Hb as <- <-.
  split; [reflexivity|]. split.
  - apply buildHistory_fresh. unfold readCache. simpl.
    destruct (Z.ltb_spec (soon - now) HIST_TTL); [reflexivity | lia].
  - unfold readCache. simpl.
    destruct (Z.ltb_spec (late - now) HIST_TTL); [lia | reflexivity].
Qed.

Lemma refreshed_snapshot_is_served_witness :
  exists s p1,
    buildHistory Sample.healthy 20000 Sample.fresh = (inr s, p1) /\
    cacheSlot p1 = (Some s, 20000) /\
    buildHistory Sample.silent 34999 p1 = (inr s, p1) /\
    readCache 35000 p1 = None.
Proof.
  destruct (buildHistory Sample.healthy 20000 Sample.fresh) as [[e|s] p1] eqn:Hb.
  - vm_compute in Hb. discriminate Hb.
  - exists s, p1. split; [reflexivity|].
    apply (refreshed_snapshot_is_served Sample.healthy Sample.silent
             20000 34999 35000 Sample.fresh p1 s).
    + reflexivity.
    + exact Hb.
    + reflexivity.
    + unfold HIST_TTL. lia.
Defined.

(** ** What a batch resolves to *)

Lemma find_nullish_None elems :
  List.find Js.nullish elems = None <-> Forall (fun r => Js.nullish r = false) elems.
Proof.
  induction elems as [|r elems IH]; simpl; [split; [constructor | reflexivity]|].
  destruct (Js.nullish r) eqn:Hr.
  - split; [discriminate|]. intros H. inversion H; congruence.
  - rewrite IH. split; [by constructor | by inversion 1].
Qed.

(** X6. When [rpcBatch] resolves, the reply was an array without null or
    undefined elements, and the results are the [result] fields of the
    elements of the reply, each exactly once, in some order: as many results
    as the reply has elements, which need not be the number of requests. *)
Theorem rpcBatch_resolves_to_reply_items
        (node : Node) (requests : list (string * list value)) (p : Proc)
        (out : list value) :
  fst (rpcBatch node requests p) = inr out ->
  exists elems,
    send node (length (wire p))
         (Batch (imap (fun i r => mkRequest (Z.of_nat i) (fst r) (snd r)) requests))
      = inr (VArr elems) /\
    Forall (fun r => Js.nullish r = false) elems /\
    Permutation out (map (fun r => Js.prop r "result") elems) /\
    length out = length elems.
Proof.
  unfold rpcBatch, bind, ckbRequest, ckbWrite, ckbSettle. simpl.
  destruct (send node _ _) as [e|r]; [discriminate|].
  unfold batchThen. destruct r; try discriminate.
  destruct (List.find Js.nullish elems) eqn:Hf; [discriminate|].
  simpl. intros [= <-]. exists elems. split; [reflexivity|].
  split; [by apply find_nullish_None|]. split.
  - apply Permutation_map, sortById_Permutation.
  - rewrite length_map. apply Permutation_length, sortById_Permutation.
Qed.

Lemma rpcBatch_resolves_to_reply_items_witness :
  exists elems,
    send (Sample.script [inr (VArr [Sample.envelope 7 (VStr "a")])])
         (length (wire Sample.fresh))
         (Batch (imap (fun i r => mkRequest (Z.of_nat i) (fst r) (snd r))
                      [("m", []); ("m", []); ("m", [])]))
      = inr (VArr elems) /\
    Forall (fun r => Js.nullish r = false) elems /\
    Permutation [VStr "a"] (map (fun r => Js.prop r "result") elems) /\
    length [VStr "a"] = length elems.
Proof.
  apply (rpcBatch_resolves_to_reply_items
           (Sample.script [inr (VArr [Sample.envelope 7 (VStr "a")])])
           [("m", []); ("m", []); ("m", [])] Sample.fresh).
  reflexivity.
Defined.

(** X7. When the reply to a batch is an array in which some element is null
    or undefined, [rpcBatch] rejects with a TypeError, whatever the other
    elements are. *)
Theorem rpcBatch_rejects_null_items
        (node : Node) (requests : list (string * list value)) (p : Proc)
        (elems : list value) :
  send node (length (wire p))
       (Batch (imap (fun i r => mkRequest (Z.of_nat i) (fst r) (snd r)) requests))
    = inr (VArr elems) ->
  Exists (fun r => Js.nullish r = true) elems ->
  exists e, fst (rpcBatch node requests p) = inl e /\ name e = "TypeError".
Proof.
  intros Hs Hex.
  unfold rpcBatch, bind, ckbRequest, ckbWrite, ckbSettle. simpl.
  rewrite Hs. simpl.
  destruct (List.find Js.nullish elems) as [v|] eqn:Hf.
  - eexists. split; reflexivity.
  - apply find_nullish_None in Hf. exfalso.
    apply Exists_exists in Hex as (r & Hin & Hr).
    rewrite Forall_forall in Hf. specialize (Hf r Hin). congruence.
Qed.

Lemma rpcBatch_rejects_null_items_witness :
  exists e,
    fst (rpcBatch (Sample.script [inr (VArr [Sample.envelope 0 (VStr "a"); VNull])])
                  [("m", []); ("m", [])] Sample.fresh) = inl e /\
    name e = "TypeError".
Proof.
  apply (rpcBatch_rejects_null_items
           (Sample.script [inr (VArr [Sample.envelope 0 (VStr "a"); VNull])])
           [("m", []); ("m", [])] Sample.fresh
           [Sample.envelope 0 (VStr "a"); VNull]).
  - reflexivity.
  - apply Exists_cons_tl, Exists_cons_hd. reflexivity.
Defined.

(** ** The transaction count map *)

(** X8. The count that [txMap] holds for a height is the one of the last
    block of the batch reply that is present, has a header and carries that
    height; the map has no entry for a height that no such block carries.
    Blocks that are null or lack a header leave the map alone. *)
Theorem txMap_keeps_last_block_of_a_height (bs : list value) (k : num) :
  buildTxMap bs !! k
  = txCountOf <$> last (filter (fun b => recorded b = true /\ heightOf b = k) bs).
Proof.
  unfold buildTxMap. rewrite fold_recordTx_lookup.
  by destruct (last _).
Qed.

Example txMap_later_block_wins :
  buildTxMap [Sample.block 5 3; VNull; Sample.block 5 8] !! Int 5 = Some (Int 7).
Proof. vm_compute. reflexivity. Qed.

(** ** The rows of [blocks] *)

Lemma buildBlockData_length_all_present
      (txMap : gmap num num) (hs : list value) :
  Forall (fun h => Js.truthy h = true) hs ->
  length (buildBlockData txMap hs) = (length hs - 1)%nat.
Proof.
  intros Hall. destruct hs as [|h0 rest]; [reflexivity|].
  inversion Hall; subst. simpl. rewrite Nat.sub_0_r.
  apply (blockRows_length_iff txMap rest h0). right. by split.
Qed.

(** X9. [blocks] never has more entries than there are headers but one, and
    it has exactly that many if and only if there is at most one header or
    every header of the batch is present (truthy): each missing header costs
    at least one entry. *)
Theorem one_row_per_pair_of_present_headers
        (txMap : gmap num num) (hs : list value) :
  (length (buildBlockData txMap hs) <= length hs - 1)%nat /\
  (length (buildBlockData txMap hs) = (length hs - 1)%nat <->
   (length hs <= 1)%nat \/ Forall (fun h => Js.truthy h = true) hs).
Proof.
  destruct hs as [|h0 rest]; simpl.
  - split; [lia|]. split; [intros _; left; lia | reflexivity].
  - destruct (blockRows_length_iff txMap rest h0) as [Hle Hiff].
    rewrite Nat.sub_0_r. split; [exact Hle|]. rewrite Hiff. split.
    + intros [->|[H0 Hall]]; [left; simpl; lia | right; by constructor].
    + intros [Hl|Hall].
      * left. destruct rest; [reflexivity | simpl in Hl; lia].
      * right. inversion Hall; subst. by split.
Qed.

Lemma blockRows_take_sum txMap (rest : list value) :
  forall (prev : value) (tp : Z) (tr : list Z) (n : nat) (a : Z),
    Js.truthy prev = true ->
    Forall (fun h => Js.truthy h = true) rest ->
    timestampOf prev = Int tp ->
    map timestampOf rest = map Int tr ->
    (n <= length rest)%nat ->
    fold_left (fun s b => Js.add s (BlockData.blockTime b))
              (take n (blockRows txMap prev rest)) (Int a)
    = Int (a + nth n (tp :: tr) 0 - tp).
Proof.
  induction rest as [|h rest IH]; intros prev tp tr n a Hp Hall Htp Htr Hn.
  - destruct n; [|simpl in Hn; lia]. simpl. f_equal. lia.
  - destruct tr as [|t tr]; [discriminate|].
    injection Htr as Ht Htr. inversion Hall as [|? ? Hh Hall']; subst.
    simpl blockRows. unfold blockRow. rewrite Hh, Hp. simpl negb. simpl orb.
    cbv iota. destruct n as [|n]; [simpl; f_equal; lia|].
    simpl take. simpl fold_left.
    unfold timestampOf in Ht, Htp. rewrite Ht, Htp. simpl Js.add.
    change (Js.sub (Int t) (Int tp)) with (Int (t - tp)). cbv iota.
    rewrite (IH h t tr n _ Hh Hall' Ht Htr) by (simpl in Hn; lia).
    change (nth (S n) (tp :: t :: tr) 0) with (nth n (t :: tr) 0).
    f_equal. lia.
Qed.

Lemma buildBlockData_drop txMap (i : nat) :
  forall hs, Forall (fun h => Js.truthy h = true) hs ->
    drop i (buildBlockData txMap hs) = buildBlockData txMap (drop i hs).
Proof.
  induction i as [|i IH]; intros hs Hall; [by rewrite !drop_0|].
  destruct hs as [|h0 hs]; [reflexivity|].
  inversion Hall as [|? ? H0 Hall']; subst.
  destruct hs as [|h1 hs]; [by destruct i|].
  inversion Hall' as [|? ? H1 Hall'']; subst.
  simpl buildBlockData. unfold blockRow. rewrite H0, H1. simpl.
  apply (IH (h1 :: hs) Hall').
Qed.

Lemma sumBlockTime_slice
      (txMap : gmap num num) (hs : list value) (ts : list Z) (i j : nat) :
  Forall (fun h => Js.truthy h = true) hs ->
  map timestampOf hs = map Int ts ->
  (i <= j < length hs)%nat ->
  sumBlockTime (slice i j (buildBlockData txMap hs))
  = Int (nth j ts 0 - nth i ts 0).
Proof.
  intros Hall Hts Hij.
  unfold sumBlockTime, slice. rewrite buildBlockData_drop by exact Hall.
  assert (length ts = length hs) as Hlen
    by (rewrite <- (length_map Int ts), <- Hts; apply length_map).
  destruct (drop i hs) as [|h rest] eqn:Hd.
  { apply (f_equal length) in Hd. rewrite length_drop in Hd. simpl in Hd. lia. }
  destruct (drop i ts) as [|t tr] eqn:Hdt.
  { apply (f_equal length) in Hdt. rewrite length_drop in Hdt. simpl in Hdt. lia. }
  assert (map timestampOf (h :: rest) = map Int (t :: tr)) as Hts'.
  { rewrite <- Hd, <- Hdt.
    change (timestampOf <$> drop i hs = Int <$> drop i ts).
    rewrite !fmap_drop. f_equal. exact Hts. }
  injection Hts' as Ht Htr.
  assert (Forall (fun h => Js.truthy h = true) (h :: rest)) as Hall'.
  { rewrite <- Hd. by apply Forall_drop. }
  inversion Hall' as [|? ? Hh Hrest]; subst.
  simpl buildBlockData.
  rewrite (blockRows_take_sum txMap rest h t tr (j - i) 0 Hh Hrest Ht Htr).
  2:{ apply (f_equal length) in Hd. rewrite length_drop in Hd. simpl in Hd. lia. }
  f_equal.
  assert (nth (j - i) (t :: tr) 0 = nth j ts 0) as ->.
  { rewrite <- Hdt.
    rewrite <- (take_drop i ts) at 2.
    rewrite app_nth2 by (rewrite length_take; lia).
    rewrite length_take. f_equal. lia. }
  assert (t = nth i ts 0) as ->.
  { rewrite <- (take_drop i ts) at 1. rewrite Hdt.
    rewrite app_nth2 by (rewrite length_take; lia).
    rewrite length_take. replace (i - i `min` length ts)%nat with 0%nat by lia.
    reflexivity. }
  lia.
Qed.

Lemma sliceLast_slice {A} (n : nat) (l : list A) :
  sliceLast n l = slice (length l - n) (length l) l.
Proof.
  unfold sliceLast, slice. rewrite take_ge; [reflexivity|].
  rewrite length_drop. lia.
Qed.

(** X10. When every header of the batch is present and its timestamp parses,
    the block times of any run of consecutive entries of [blocks] add up to
    the difference of two timestamps: entries [i .. j-1] sum to the
    timestamp of header [j] minus that of header [i], and the last [n]
    entries (the [recent] of the average, for [n = 20]) sum to the timestamp
    of the last header minus that of the header [n] places before it, or of
    the first header when there are fewer. The sums behind
    [avgBlockTimeSec] and behind each per-block hashrate therefore depend on
    the two headers at the ends of their window only. *)
Theorem block_times_telescope
        (txMap : gmap num num) (hs : list value) (ts : list Z) (i j : nat) :
  Forall (fun h => Js.truthy h = true) hs ->
  map timestampOf hs = map Int ts ->
  (i <= j < length hs)%nat ->
  sumBlockTime (slice i j (buildBlockData txMap hs))
  = Int (nth j ts 0 - nth i ts 0) /\
  forall n : nat,
    sumBlockTime (sliceLast n (buildBlockData txMap hs))
    = Int (nth (length hs - 1) ts 0 - nth (length hs - 1 - n) ts 0).
Proof.
  intros Hall Hts Hij. split; [by apply sumBlockTime_slice|].
  intros n. rewrite sliceLast_slice.
  assert (length (buildBlockData txMap hs) = (length hs - 1)%nat) as ->.
  { apply buildBlockData_length_all_present. exact Hall. }
  apply sumBlockTime_slice; [exact Hall | exact Hts | lia].
Qed.

Lemma block_times_telescope_witness :
  sumBlockTime (slice 1 3 (buildBlockData (∅ : gmap num num) Sample.orderedHeaders))
  = Int (nth 3 [0; 1000; 2000; 10123] 0 - nth 1 [0; 1000; 2000; 10123] 0) /\
  forall n : nat,
    sumBlockTime (sliceLast n (buildBlockData (∅ : gmap num num) Sample.orderedHeaders))
    = Int (nth (length Sample.orderedHeaders - 1) [0; 1000; 2000; 10123] 0
           - nth (length Sample.orderedHeaders - 1 - n) [0; 1000; 2000; 10123] 0).
Proof.
  apply (block_times_telescope ∅ Sample.orderedHeaders [0; 1000; 2000; 10123] 1 3).
  - repeat constructor.
  - reflexivity.
  - simpl. lia.
Defined.

Example recent_block_times_sample :
  sumBlockTime (sliceLast 20 (buildBlockData ∅ Sample.orderedHeaders)) = Int 10123.
Proof. vm_compute. reflexivity. Qed.

(** ** The hashrate *)

(** X11. For a difficulty that is not negative and an average that is neither
    NaN nor plus infinity, the hashrate is computed: it is the difficulty
    divided (towards zero) by a divisor of at least 1, so it lies between 0
    and the difficulty and no division by zero occurs; when the divisor
    exceeds the difficulty the text is "0 H/s". *)
Theorem hashrate_divisor_at_least_one (diff : Z) (avg : spec_float) :
  0 <= diff -> avg <> S754_nan -> avg <> S754_infinity false ->
  exists d hr,
    1 <= d /\ hashrateOver diff avg = Some hr /\ hr = Z.quot diff d /\
    0 <= hr <= diff /\
    (diff < d -> formatHashrate hr = "0 H/s").
Proof.
  intros Hd Hnan Hinf.
  assert (exists d, 1 <= d /\ Js.max1 (Js.mathRound avg) = Js.RInt d) as (d & Hd1 & Hr).
  { destruct avg as [s|[]| |s m e]; simpl; try congruence.
    - exists (Z.max 1 0). split; [lia | reflexivity].
    - exists 1. split; [lia | reflexivity].
    - eexists. split; [|reflexivity]. lia. }
  exists d, (Z.quot diff d). unfold hashrateOver. rewrite Hr. simpl.
  split; [exact Hd1|]. split; [reflexivity|]. split; [reflexivity|].
  rewrite Z.quot_div_nonneg by lia. split.
  - split; [apply Z.div_pos; lia|].
    apply Z.div_le_upper_bound; [lia|]. nia.
  - intros Hlt. by rewrite Z.div_small by lia.
Qed.

Lemma hashrate_divisor_at_least_one_witness :
  exists d hr,
    1 <= d /\ hashrateOver 7 (Js.fdiv (Js.ofZ 1) (Js.ofZ 4)) = Some hr /\
    hr = Z.quot 7 d /\ 0 <= hr <= 7 /\
    (7 < d -> formatHashrate hr = "0 H/s").
Proof.
  apply (hashrate_divisor_at_least_one 7 (Js.fdiv (Js.ofZ 1) (Js.ofZ 4)));
    [lia | vm_compute; discriminate | vm_compute; discriminate].
Defined.

Lemma fdiv_nan_l y : Js.fdiv S754_nan y = S754_nan.
Proof. by destruct y. Qed.

Lemma fold_add_nan (l : list BlockData.t) :
  fold_left (fun s b => Js.add s (BlockData.blockTime b)) l Nan = Nan.
Proof. induction l as [|b l IH]; [reflexivity | exact IH]. Qed.

Lemma sumBlockTime_nan (l : list BlockData.t) :
  Exists (fun b => BlockData.blockTime b = Nan) l ->
  forall a, fold_left (fun s b => Js.add s (BlockData.blockTime b)) l a = Nan.
Proof.
  induction 1 as [b l Hb|b l _ IH]; intros a; simpl.
  - rewrite Hb. destruct a; apply fold_add_nan.
  - apply IH.
Qed.

(** X12. When one of the last 20 entries of [blocks] has a block time that is
    NaN (the timestamp of its header or of the header before it does not
    parse), the cycle still assembles a snapshot: [avgBlockTimeSec] is
    "NaN", [networkHashrate] is the placeholder and [hashratePerBlock] is
    empty, whatever the difficulty. *)
Theorem unparseable_timestamp_disables_hashrate
        (tip : num) (ci : value) (hs bs : list value) :
  let s := assemble tip ci hs bs in
  Exists (fun b => BlockData.blockTime b = Nan) (sliceLast 20 (blocks s)) ->
  avgBlockTimeSec s = "NaN" /\
  networkHashrate s = unavailable /\
  hashratePerBlock s = [].
Proof.
  intros s Hex. subst s.
  pose proof (assemble_hashrates tip ci hs bs) as Heq.
  rewrite assemble_avg. rewrite assemble_blocks in Hex.
  set (bd := buildBlockData (buildTxMap bs) hs) in *.
  assert (avgSecOf bd = S754_nan) as Havg.
  { unfold avgSecOf, averageSec, sumBlockTime.
    rewrite (sumBlockTime_nan _ Hex). simpl Js.toFloat.
    by rewrite !fdiv_nan_l. }
  rewrite Havg in *. split; [reflexivity|].
  unfold hashrates in Heq.
  destruct (parseDifficulty ci); simpl in Heq; by injection Heq as -> ->.
Qed.

Lemma unparseable_timestamp_disables_hashrate_witness :
  let s := assemble (Int 1) Sample.chainInfo
                    [Sample.header 0 0; VObj [("number", Sample.hex 1)]] [] in
  avgBlockTimeSec s = "NaN" /\
  networkHashrate s = unavailable /\
  hashratePerBlock s = [].
Proof.
  apply (unparseable_timestamp_disables_hashrate
           (Int 1) Sample.chainInfo
           [Sample.header 0 0; VObj [("number", Sample.hex 1)]] []).
  vm_compute. apply Exists_cons_hd. reflexivity.
Defined.

(** X13. When [blocks] is empty (a chain of one block, or no two consecutive
    headers present), the average is taken over a length of 1 instead of 0:
    [avgBlockTimeSec] is "0.00", the hashrate is the difficulty itself
    (divided by 1), or the placeholder when the difficulty cannot be read,
    and [hashratePerBlock] is empty. *)
Theorem empty_history_divides_by_one
        (tip : num) (ci : value) (hs bs : list value) :
  let s := assemble tip ci hs bs in
  blocks s = [] ->
  avgBlockTimeSec s = "0.00" /\
  hashratePerBlock s = [] /\
  networkHashrate s = match parseDifficulty ci with
                      | Some diff => formatHashrate diff
                      | None => unavailable
                      end.
Proof.
  intros s Hb. subst s.
  pose proof (assemble_hashrates tip ci hs bs) as Heq.
  rewrite assemble_avg. rewrite assemble_blocks in Hb. rewrite Hb in *.
  split; [vm_compute; reflexivity|].
  unfold hashrates in Heq.
  destruct (parseDifficulty ci) as [diff|]; [|by injection Heq as -> ->].
  assert (hashrateOver diff (avgSecOf []) = Some diff) as Hh.
  { unfold hashrateOver.
    assert (Js.toBigInt (Js.max1 (Js.mathRound (avgSecOf []))) = Some 1) as ->
      by (vm_compute; reflexivity).
    by rewrite Z.quot_1_r. }
  rewrite Hh in Heq. by injection Heq as -> ->.
Qed.

Lemma empty_history_divides_by_one_witness :
  let s := assemble (Int 0) Sample.chainInfo [Sample.header 0 0] [] in
  avgBlockTimeSec s = "0.00" /\
  hashratePerBlock s = [] /\
  networkHashrate s = match parseDifficulty Sample.chainInfo with
                      | Some diff => formatHashrate diff
                      | None => unavailable
                      end.
Proof.
  apply (empty_history_divides_by_one (Int 0) Sample.chainInfo [Sample.header 0 0] []).
  reflexivity.
Defined.

Lemma ofZ_signed (s : bool) k :
  0 < k < 2 ^ 53 ->
  exists m, Js.ofZ (if s then - k else k) = S754_finite s m (Zdigits2 k - 53) /\
            Zdigits2 (Z.pos m) = 53 /\ 1 <= Zdigits2 k <= 53.
Proof.
  intros Hk. destruct s.
  - destruct (ofZ_small_neg k Hk) as (m & H1 & _ & H2 & H3). by exists m.
  - destruct (ofZ_small k Hk) as (m & H1 & _ & H2 & H3). by exists m.
Qed.

(** The mean of fewer than 2^53 block times whose sum is below 2^53 in
    magnitude, in seconds, is a finite double. *)
Lemma mean_settled a N :
  Z.abs a < 2 ^ 53 -> 0 < N < 2 ^ 53 ->
  settled (Js.fdiv (Js.fdiv (Js.ofZ a) (Js.ofZ N)) (Js.ofZ 1000)).
Proof.
  intros Ha HN.
  destruct (ofZ_small N HN) as (m2 & Hof2 & _ & Hd2 & Hr2).
  destruct (Z.eq_dec a 0) as [->|Hz].
  - unfold Js.fdiv. rewrite Hof2. reflexivity.
  - set (s := a <? 0).
    assert (a = if s then - Z.abs a else Z.abs a) as ->
      by (unfold s; destruct (Z.ltb_spec a 0); lia).
    destruct (ofZ_signed s (Z.abs a) ltac:(lia)) as (m1 & Hof1 & Hd1 & Hr1).
    unfold Js.fdiv, Js.prec, Js.emax. rewrite Hof1, Hof2, ofZ_1000.
    destruct (SFdiv_finite s m1 (Zdigits2 (Z.abs a) - 53) m2 (Zdigits2 N - 53) Hd1 Hd2)
      as (q & m & e & _ & -> & He & Hm & _); [lia|].
    destruct (SFdiv_finite s m e 8796093022208000 (-43))
      as (q' & m' & e' & _ & -> & _);
      [apply Zdigits2_range; lia | reflexivity | lia | exact I].
Qed.

Lemma hashrateOver_settled diff x :
  settled x -> exists hr, hashrateOver diff x = Some hr.
Proof.
  unfold hashrateOver. destruct x as [s|s| |s m e]; simpl; try done; eauto.
Qed.

Lemma fold_add_modest (l : list BlockData.t) :
  Forall (fun b => modest (BlockData.blockTime b)) l ->
  forall a,
    match fold_left (fun s b => Js.add s (BlockData.blockTime b)) l (Int a) with
    | Nan => True
    | Int z => Z.abs z <= Z.abs a + Z.of_nat (length l) * 2 ^ 48
    end.
Proof.
  induction 1 as [|b l Hb _ IH]; intros a; [simpl; lia|].
  simpl fold_left. destruct (BlockData.blockTime b) as [|t]; simpl Js.add.
  - by rewrite fold_add_nan.
  - specialize (IH (a + t)). destruct (fold_left _ l (Int (a + t))); [exact I|].
    simpl in Hb. rewrite length_cons. lia.
Qed.

Lemma hashPoint_defined diff (bd : list BlockData.t) (i : nat) b :
  Forall (fun b => modest (BlockData.blockTime b)) bd ->
  (window <= i)%nat -> bd !! i = Some b ->
  exists r, hashPoint diff bd i = Some (HashPoint.mk (BlockData.number b) r).
Proof.
  intros Hall Hi Hb. unfold hashPoint. rewrite Hb.
  pose proof (lookup_lt_Some _ _ _ Hb) as Hlt.
  set (sl := slice (i - window) i bd).
  assert (length sl = window) as Hlen.
  { unfold sl, slice. rewrite length_take, length_drop. unfold window in *. lia. }
  assert (Forall (fun b => modest (BlockData.blockTime b)) sl) as Hsl.
  { unfold sl, slice. by apply Forall_take, Forall_drop. }
  rewrite Hlen.
  pose proof (fold_add_modest sl Hsl 0) as Hsum. fold (sumBlockTime sl) in Hsum.
  destruct (sumBlockTime sl) as [|z].
  - simpl. eauto.
  - rewrite Hlen in Hsum.
    pose proof (mean_settled z (Z.of_nat window)) as Hset. simpl Js.toFloat.
    destruct (Js.isPositive _); [|eauto].
    destruct (hashrateOver_settled diff _ (Hset ltac:(unfold window in *; lia)
                                                ltac:(unfold window; lia)))
      as [hr ->].
    eauto.
Qed.

Lemma hashPoints_numbers diff (bd : list BlockData.t) :
  Forall (fun b => modest (BlockData.blockTime b)) bd ->
  forall (n a : nat), (window <= a)%nat -> (a + n = length bd)%nat ->
    map HashPoint.number (hashPoints diff bd (seq a n))
    = map BlockData.number (drop a bd).
Proof.
  intros Hall n. induction n as [|n IH]; intros a Ha Hlen.
  - simpl. by rewrite drop_ge by lia.
  - destruct (lookup_lt_is_Some_2 bd a ltac:(lia)) as [b Hb].
    simpl seq. simpl hashPoints.
    destruct (hashPoint_defined diff bd a b Hall Ha Hb) as [r ->].
    simpl. rewrite (drop_S _ _ _ Hb). simpl. f_equal.
    apply IH; lia.
Qed.

(** X14. Once the difficulty has been read and the overall hashrate computed,
    the per-block loop runs to its end, provided every block time is NaN or
    an integer below 2^48 ms in magnitude: [networkHashrate] is the formatted
    overall rate, and [hashratePerBlock] has exactly one point for each
    entry of [blocks] from the eleventh on, carrying the heights of those
    entries in the same order (none at all when [blocks] has ten entries or
    fewer). *)
Theorem hashratePerBlock_one_point_per_block
        (tip : num) (ci : value) (hs bs : list value) (diff hr : Z) :
  let s := assemble tip ci hs bs in
  parseDifficulty ci = Some diff ->
  hashrateOver diff (avgSecOf (blocks s)) = Some hr ->
  Forall (fun b => modest (BlockData.blockTime b)) (blocks s) ->
  networkHashrate s = formatHashrate hr /\
  map HashPoint.number (hashratePerBlock s)
  = map BlockData.number (drop window (blocks s)).
Proof.
  intros s Hd Hh Hall. subst s.
  pose proof (assemble_hashrates tip ci hs bs) as Heq.
  rewrite assemble_blocks in *.
  set (bd := buildBlockData (buildTxMap bs) hs) in *.
  unfold hashrates in Heq. rewrite Hd, Hh in Heq.
  injection Heq as -> ->.
  split; [reflexivity|].
  destruct (Nat.le_gt_cases window (length bd)) as [Hge|Hlt].
  - apply hashPoints_numbers; [exact Hall | lia | lia].
  - replace (length bd - window)%nat with 0%nat by lia.
    simpl. by rewrite drop_ge by lia.
Qed.

Lemma Forall_modest_times (l : list BlockData.t) :
  Forall modest (map BlockData.blockTime l) ->
  Forall (fun b => modest (BlockData.blockTime b)) l.
Proof.
  induction l as [|b l IH]; inversion 1; subst; constructor; auto.
Qed.

Lemma hashratePerBlock_one_point_per_block_witness :
  let s := assemble (Int 12) Sample.chainInfo steadyHeaders [] in
  networkHashrate s = formatHashrate 1250000000000 /\
  map HashPoint.number (hashratePerBlock s)
  = map BlockData.number (drop window (blocks s)).
Proof.
  apply (hashratePerBlock_one_point_per_block
           (Int 12) Sample.chainInfo steadyHeaders [] (10 ^ 13) 1250000000000).
  - vm_compute. reflexivity.
  - vm_compute. reflexivity.
  - apply Forall_modest_times.
    replace (map BlockData.blockTime
                 (blocks (assemble (Int 12) Sample.chainInfo steadyHeaders [])))
      with (replicate 12 (Int 8000)) by (vm_compute; reflexivity).
    repeat constructor.
Defined.

Example hashratePerBlock_steady :
  hashratePerBlock (assemble (Int 12) Sample.chainInfo steadyHeaders [])
  = [HashPoint.mk (Int 11) (Int 1); HashPoint.mk (Int 12) (Int 1)].
Proof. vm_compute. reflexivity. Qed.

(** ** The body of a proxied request *)











Example body_of_three_chunks :
  received (fun d => d) ["{"; "a"; "}"] = ("{a}", 3).
Proof. reflexivity. Qed.

(** A two-byte character split over two chunks: each half decodes to U+FFFD
    on its own, and the body holds six bytes for the two received. *)
Lemma body_of_a_split_character (decode : string -> string) :
  decode (String (ascii_of_nat 195) "") = replacement ->
  decode (String (ascii_of_nat 169) "") = replacement ->
  received decode [String (ascii_of_nat 195) ""; String (ascii_of_nat 169) ""]
  = (replacement +:+ replacement, 2) /\
  String.length (replacement +:+ replacement) = 6%nat.
Proof.
  intros H1 H2. split; [|reflexivity].
  unfold received. simpl fold_left. unfold onData. simpl.
  by rewrite H1, H2.
Qed.

(** ** The epoch of the status page *)

Lemma land_65535_range z : 0 <= Z.land z 65535 < 65536.
Proof.
  change 65535 with (Z.ones 16). rewrite Z.land_ones by lia.
  change 65536 with (2 ^ 16). apply Z.mod_pos_bound. lia.
Qed.

Lemma fdiv_small_nonneg a b :
  0 <= a < 2 ^ 53 -> 0 < b < 2 ^ 53 -> nonnegFinite (Js.fdiv (Js.ofZ a) (Js.ofZ b)).
Proof.
  intros Ha Hb.
  destruct (ofZ_small b Hb) as (m2 & Hof2 & _ & Hd2 & Hr2).
  destruct (Z.eq_dec a 0) as [->|Hz].
  - unfold Js.fdiv. rewrite Hof2. reflexivity.
  - destruct (ofZ_small a ltac:(lia)) as (m1 & Hof1 & _ & Hd1 & Hr1).
    unfold Js.fdiv, Js.prec, Js.emax. rewrite Hof1, Hof2.
    destruct (SFdiv_finite false m1 (Zdigits2 a - 53) m2 (Zdigits2 b - 53) Hd1 Hd2)
      as (q & m & e & _ & -> & _); [lia|]. exact I.
Qed.

(** X16. Whenever the epoch block of [buildShowData] decodes the [epoch]
    field of the tip header without raising, the epoch number, the block
    index and the epoch length it reads are 16-bit values, and [epochPct]
    is a finite number that is not negative - never NaN or an infinity - and
    is 0 when the length is 0. *)
Theorem epoch_fields_in_range (tip : value) (e : Epoch) :
  decodeEpoch tip = Some e ->
  0 <= epochNum e < 65536 /\ 0 <= epochIdx e < 65536 /\
  0 <= epochLength e < 65536 /\
  nonnegFinite (epochPct e) /\
  (epochLength e = 0 -> epochPct e = S754_zero false).
Proof.
  unfold decodeEpoch.
  destruct (Js.get tip "epoch") as [epochHex|]; [|discriminate].
  destruct (bigIntOfHex epochHex) as [v|]; [|discriminate].
  intros He. apply (inj Some) in He. subst e.
  cbn [epochNum epochIdx epochLength epochPct].
  pose proof (land_65535_range (Z.shiftr v 32)) as H1.
  pose proof (land_65535_range v) as H2.
  pose proof (land_65535_range (Z.shiftr v 16)) as H3.
  split; [exact H1|]. split; [exact H2|]. split; [exact H3|].
  destruct (Z.ltb_spec 0 (Z.land (Z.shiftr v 16) 65535)) as [Hpos|Hz].
  - split; [|lia]. apply fdiv_small_nonneg; lia.
  - split; [exact I | reflexivity].
Qed.

Lemma epoch_fields_in_range_witness :
  let e := mkEpoch 42 500 1000 (Js.fdiv (Js.ofZ 500) (Js.ofZ 1000)) in
  0 <= epochNum e < 65536 /\ 0 <= epochIdx e < 65536 /\
  0 <= epochLength e < 65536 /\
  nonnegFinite (epochPct e) /\
  (epochLength e = 0 -> epochPct e = S754_zero false).
Proof.
  apply (epoch_fields_in_range (VObj [("epoch", VStr "0x2a03e801f4")])).
  vm_compute. reflexivity.
Defined.

Lemma isSpace_hexDigit c d : Text.hexDigit c = Some d -> Text.isSpace c = false.
Proof.
  destruct c as [[] [] [] [] [] [] [] []]; vm_compute; congruence.
Qed.

Lemma readAll_trimRight s :
  forall acc v, Text.readAll Text.hexDigit 16 s acc = Some v -> Text.trimRight s = s.
Proof.
  induction s as [|c s IH]; intros acc v H; [reflexivity|].
  simpl in H. destruct (Text.hexDigit c) as [d|] eqn:Hc; [|discriminate].
  simpl. rewrite (IH _ _ H). destruct s; [|reflexivity].
  by rewrite (isSpace_hexDigit c d Hc).
Qed.

Lemma bigIntOfHex_natural n :
  0 <= n -> bigIntOfHex (VStr ("0x" +:+ Text.natural 16 n)) = Some n.
Proof.
  intros Hn. pose proof (readAll_natural16 n Hn) as Hr.
  change ("0x" +:+ Text.natural 16 n)
    with (String "0" (String "x" (Text.natural 16 n))).
  unfold bigIntOfHex. simpl Text.stripHexPrefix. simpl default.
  by rewrite (readAll_trimRight _ _ _ Hr).
Qed.

Lemma testbit_above_16 x n : 0 <= x < 65536 -> 16 <= n -> Z.testbit x n = false.
Proof.
  intros Hx Hn.
  rewrite <- (Z.mod_small x (2 ^ 16)) by (change (2 ^ 16) with 65536; lia).
  rewrite <- Z.land_ones by lia.
  rewrite Z.land_spec, Z.ones_spec_high by lia. apply andb_false_r.
Qed.

Lemma testbit_ones_16 n : 0 <= n -> Z.testbit 65535 n = (n <? 16).
Proof.
  intros Hn. change 65535 with (Z.ones 16).
  destruct (Z.ltb_spec n 16).
  - apply Z.ones_spec_low. lia.
  - apply Z.ones_spec_high. lia.
Qed.

Lemma epochWord_fields num idx len :
  0 <= num < 65536 -> 0 <= idx < 65536 -> 0 <= len < 65536 ->
  Z.land (Z.shiftr (epochWord num idx len) 32) 65535 = num /\
  Z.land (epochWord num idx len) 65535 = idx /\
  Z.land (Z.shiftr (epochWord num idx len) 16) 65535 = len.
Proof.
  intros Hnum Hidx Hlen. unfold epochWord.
  split; [|split]; apply Z.bits_inj'; intros n Hn;
    rewrite Z.land_spec, testbit_ones_16 by lia;
    rewrite ?Z.shiftr_spec by lia;
    rewrite !Z.lor_spec, !Z.shiftl_spec by lia;
    destruct (Z.ltb_spec n 16) as [Hlo|Hhi];
    rewrite ?andb_true_r, ?andb_false_r.
  - replace (n + 32 - 32) with n by lia.
    rewrite (testbit_above_16 len (n + 32 - 16)), (testbit_above_16 idx (n + 32)) by lia.
    by rewrite !orb_false_r.
  - symmetry. by apply testbit_above_16.
  - rewrite (Z.testbit_neg_r num (n - 32)), (Z.testbit_neg_r len (n - 16)) by lia.
    reflexivity.
  - symmetry. by apply testbit_above_16.
  - replace (n + 16 - 16) with n by lia.
    rewrite (Z.testbit_neg_r num (n + 16 - 32)), (testbit_above_16 idx (n + 16)) by lia.
    by rewrite orb_false_r.
  - symmetry. by apply testbit_above_16.
Qed.

Lemma epochWord_nonneg num idx len :
  0 <= num -> 0 <= idx -> 0 <= len -> 0 <= epochWord num idx len.
Proof.
  intros. unfold epochWord. rewrite !Z.lor_nonneg, !Z.shiftl_nonneg. lia.
Qed.

(** X17. The epoch block decodes the layout that its comment describes: for
    16-bit values [num], [idx] and [len], a tip header whose [epoch] is the
    hexadecimal text of the word with [idx] in bits 0-15, [len] in bits
    16-31 and [num] in bits 32-47 yields exactly these three values, and
    [epochPct] is the quotient [idx / len] in doubles, or 0 when [len] is
    0. *)
Theorem epoch_round_trip (num idx len : Z) :
  0 <= num < 65536 -> 0 <= idx < 65536 -> 0 <= len < 65536 ->
  decodeEpoch (VObj [("epoch", VStr ("0x" +:+ Text.natural 16 (epochWord num idx len)))])
  = Some (mkEpoch num idx len
                  (if 0 <? len then Js.fdiv (Js.ofZ idx) (Js.ofZ len)
                   else S754_zero false)).
Proof.
  intros Hnum Hidx Hlen.
  destruct (epochWord_fields num idx len Hnum Hidx Hlen) as (H1 & H2 & H3).
  unfold decodeEpoch.
  change (Js.get (VObj [("epoch", VStr ("0x" +:+ Text.natural 16 (epochWord num idx len)))])
                 "epoch")
    with (Some (VStr ("0x" +:+ Text.natural 16 (epochWord num idx len)))).
  cbv beta iota.
  rewrite bigIntOfHex_natural by (apply epochWord_nonneg; lia).
  by rewrite H1, H2, H3.
Qed.

Lemma epoch_round_trip_witness :
  decodeEpoch (VObj [("epoch", VStr ("0x" +:+ Text.natural 16 (epochWord 42 500 1000)))])
  = Some (mkEpoch 42 500 1000
                  (if 0 <? 1000 then Js.fdiv (Js.ofZ 500) (Js.ofZ 1000)
                   else S754_zero false)).
Proof.
  apply (epoch_round_trip 42 500 1000); lia.
Defined.

Example epoch_text : Text.natural 16 (epochWord 42 500 1000) = "2a03e801f4".
Proof. reflexivity. Qed.

(** ** The uptime of the status page *)

(** Rounding a quotient of 53 or 54 bits: as [binary_round_aux_quotient],
    and an even quotient is not rounded down. *)
Lemma binary_round_aux_quotient_even (s : bool) q e l :
  2 ^ 52 <= q < 2 ^ 54 -> -1074 <= e <= 960 ->
  exists m e2,
    binary_round_aux 53 1024 s q e l = S754_finite s m e2 /\
    e <= e2 <= e + 2 /\ 2 ^ 52 <= Z.pos m < 2 ^ 53 /\
    q - 1 <= Z.pos m * 2 ^ (e2 - e) <= q + 2 /\
    (Z.even q = true -> q <= Z.pos m * 2 ^ (e2 - e)).
Proof.
  intros Hq He. unfold binary_round_aux.
  destruct (Z.ltb_spec q (2 ^ 53)) as [Hlt|Hge].
  - rewrite shr_fexp_canonical by (try (apply Zdigits2_range; lia); lia).
    rewrite loc_of_shr_record_of_loc.
    assert (shr_m (shr_record_of_loc q l) = q) as -> by (by destruct l as [|[]]).
    pose proof (round_nearest_even_near q l) as Hr.
    destruct (renormalise s (round_nearest_even q l) e) as (m & e2 & -> & He2 & Hm & Hv);
      [lia | lia |].
    exists m, e2. repeat split; lia.
  - destruct (shr_fexp_54 q e l) as (mrs & -> & Hmrs);
      [lia | apply Zdigits2_range; lia | lia |].
    pose proof (round_nearest_even_near (shr_m mrs) (loc_of_shr_record mrs)) as Hr.
    rewrite Hmrs in Hr.
    assert (2 ^ 52 <= q / 2 < 2 ^ 53) as Hh.
    { split; [apply Z.div_le_lower_bound; lia | apply Z.div_lt_upper_bound; lia]. }
    destruct (renormalise s (round_nearest_even (shr_m mrs) (loc_of_shr_record mrs)) (e + 1))
      as (m & e2 & -> & He2 & Hm & Hv); [rewrite Hmrs; lia | lia |].
    exists m, e2. split; [reflexivity|]. split; [lia|]. split; [exact Hm|].
    replace (e2 - e) with ((e2 - (e + 1)) + 1) by lia.
    rewrite Z.pow_add_r by lia. rewrite Z.mul_assoc, Hv, Hmrs.
    pose proof (Z.div_mod q 2 ltac:(lia)) as Hdm.
    pose proof (Z.mod_pos_bound q 2 ltac:(lia)) as Hmod.
    change (2 ^ 1) with 2. split; [lia|].
    intros Hev. rewrite Zeven_mod in Hev. apply Z.eqb_eq in Hev. lia.
Qed.

Lemma SFdiv_finite_even (s : bool) m1 e1 m2 e2 :
  Zdigits2 (Z.pos m1) = 53 -> Zdigits2 (Z.pos m2) = 53 ->
  -1000 <= e1 - e2 <= 1000 ->
  exists q m e,
    Z.pos m2 * q <= Z.pos m1 * 2 ^ 53 < Z.pos m2 * (q + 1) /\
    SFdiv 53 1024 (S754_finite s m1 e1) (S754_finite false m2 e2)
      = S754_finite s m e /\
    e1 - e2 - 53 <= e <= e1 - e2 - 51 /\
    q - 1 <= Z.pos m * 2 ^ (e - (e1 - e2 - 53)) <= q + 2 /\
    (Z.even q = true -> q <= Z.pos m * 2 ^ (e - (e1 - e2 - 53))).
Proof.
  intros H1 H2 He.
  pose proof (Zdigits2_53_range m1 H1) as R1.
  pose proof (Zdigits2_53_range m2 H2) as R2.
  unfold SFdiv, SFdiv_core_binary. rewrite H1, H2, fexp_binary64.
  replace (Z.min (Z.max (53 + e1 - (53 + e2) - 53) (-1074)) (e1 - e2))
    with (e1 - e2 - 53) by lia.
  replace (e1 - e2 - (e1 - e2 - 53)) with 53 by lia.
  rewrite Z.shiftl_mul_pow2 by lia.
  pose proof (Z_div_mod (Z.pos m1 * 2 ^ 53) (Z.pos m2) ltac:(lia)) as Hdiv.
  destruct (Z.div_eucl (Z.pos m1 * 2 ^ 53) (Z.pos m2)) as [q r].
  destruct Hdiv as [Heq Hr].
  assert (2 ^ 52 <= q < 2 ^ 54) as Hq by nia.
  destruct (binary_round_aux_quotient_even s q (e1 - e2 - 53)
              (new_location (Z.pos m2) r)) as (m & e & Hres & Hbe & Hm & Hv & Hev);
    [exact Hq | lia |].
  exists q, m, e. rewrite Bool.xorb_false_r, Hres.
  split; [lia|]. split; [reflexivity|]. split; [lia|]. split; [exact Hv | exact Hev].
Qed.

Lemma Zdigits2_le k n : 0 < k < 2 ^ n -> 0 <= n -> Zdigits2 k <= n.
Proof.
  intros Hk Hn. pose proof (Zdigits2_bounds k ltac:(lia)) as [Hlo _].
  destruct (Z.le_gt_cases (Zdigits2 k) n) as [H|H]; [exact H|].
  assert (2 ^ n <= 2 ^ (Zdigits2 k - 1)) by (apply Z.pow_le_mono_r; lia). lia.
Qed.

(** The floor of a quotient of integers, computed in doubles, is the
    integer quotient. *)
Lemma floor_fdiv a b :
  0 <= a < 2 ^ 51 -> 0 < b < 2 ^ 53 ->
  Arith.floor (Js.fdiv (Js.ofZ a) (Js.ofZ b)) = Js.RInt (a / b).
Proof.
  intros Ha Hb.
  destruct (ofZ_small b Hb) as (m2 & Hof2 & Hm2 & Hd2 & Hr2).
  destruct (Z.eq_dec a 0) as [->|Hz].
  { unfold Js.fdiv. rewrite Hof2. reflexivity. }
  destruct (ofZ_small a ltac:(lia)) as (m1 & Hof1 & Hm1 & Hd1 & Hr1).
  pose proof (Zdigits2_le a 51 ltac:(lia) ltac:(lia)) as Hda.
  pose proof (Zdigits2_bounds b ltac:(lia)) as [_ Hbhi].
  set (da := Zdigits2 a) in *. set (db := Zdigits2 b) in *.
  unfold Js.fdiv, Js.prec, Js.emax. rewrite Hof1, Hof2.
  destruct (SFdiv_finite_even false m1 (da - 53) m2 (db - 53) Hd1 Hd2)
    as (q & m & e & Hq & -> & He & Hv & Hev); [lia|].
  replace (da - 53 - (db - 53) - 53) with (da - db - 53) in * by lia.
  replace (da - 53 - (db - 53) - 51) with (da - db - 51) in * by lia.
  unfold Arith.floor. destruct (Z.leb_spec 0 e) as [H0|H0]; [lia|].
  f_equal. simpl Js.signed.
  set (P := 2 ^ (- e)). set (S := 2 ^ (e - (da - db - 53))) in *.
  set (T := 2 ^ (53 + db - da)). set (U := 2 ^ (53 - db)) in *.
  assert (0 < P) as HP by (apply Z.pow_pos_nonneg; lia).
  assert (0 < S) as HS by (apply Z.pow_pos_nonneg; lia).
  assert (0 < U) as HU by (apply Z.pow_pos_nonneg; lia).
  assert (T = P * S) as HT.
  { unfold T, P, S. rewrite <- Z.pow_add_r by lia. f_equal. lia. }
  assert (4 * b < T) as HTb.
  { unfold T. replace (53 + db - da) with (2 + (51 - da) + db) by lia.
    rewrite !Z.pow_add_r by lia. change (2 ^ 2) with 4.
    assert (1 <= 2 ^ (51 - da)) by (apply (pow2_small_range (51 - da) (51 - da)); lia).
    nia. }
  assert (Z.pos m1 * 2 ^ 53 = a * T * U) as Hnum.
  { rewrite Hm1. unfold T, U. rewrite <- !Z.mul_assoc, <- !Z.pow_add_r by lia.
    f_equal. f_equal. lia. }
  rewrite Hnum, Hm2 in Hq. fold U in Hq.
  assert (b * q <= a * T < b * (q + 1)) as Hq'.
  { clear - Hq HU. nia. }
  pose proof (Z.div_mod a b ltac:(lia)) as Hdm.
  pose proof (Z.mod_pos_bound a b ltac:(lia)) as Hmod.
  set (Q := a / b) in *. set (r := a mod b) in *.
  assert (0 <= Q) as HQ by (apply Z.div_pos; lia).
  assert (Q * T <= Z.pos m * S < (Q + 1) * T) as [Hlo Hhi].
  { split.
    - destruct (Z.eq_dec r 0) as [Hr0|Hr0].
      + assert (q = Q * T) as Hqe.
        { assert (a * T = b * (Q * T)) as Hx by (rewrite Hdm, Hr0; ring).
          rewrite Hx in Hq'. clear - Hq' Hb. nia. }
        assert (Z.even q = true) as Heven.
        { rewrite Hqe, Z.even_mul. apply orb_true_iff. right.
          unfold T. rewrite Z.even_pow by lia. reflexivity. }
        specialize (Hev Heven). lia.
      + assert (b * (Q * T + 4) < b * (q + 1)) as Hx.
        { eapply Z.le_lt_trans; [|exact (proj2 Hq')].
          rewrite Hdm. clear - HTb Hmod Hr0 Hb HQ.
          assert (4 * b <= r * T) by nia. nia. }
        assert (Q * T + 4 < q + 1) by (clear - Hx Hb; nia). lia.
    - assert (b * (Z.pos m * S) < b * ((Q + 1) * T)) as Hx.
      { assert (b * (Z.pos m * S) <= a * T + 2 * b) as Hy by (clear - Hv Hq' Hb; nia).
        eapply Z.le_lt_trans; [exact Hy|]. rewrite Hdm.
        clear - HTb Hmod Hb HQ.
        assert (r * T <= (b - 1) * T) by nia. nia. }
      clear - Hx Hb. nia. }
  symmetry. apply (Z.div_unique _ _ Q (Z.pos m - Q * P)); [|ring].
  left. rewrite HT in Hlo, Hhi. clear - Hlo Hhi HS HP. split; nia.
Qed.

(** X18. For an uptime of [n] seconds, [0 < n < 2^51], given as a JSON
    number, [formatUptime] prints the whole days [n / 86400], the hours
    [(n mod 86400) / 3600], below 24, and the minutes [(n mod 3600) / 60],
    below 60, exactly as integers (the floating-point divisions of the
    source lose nothing): days, hours and minutes when there is at least
    one day, hours and minutes when there is at least one hour, minutes
    only otherwise; the seconds beyond the last whole minute are dropped. *)
Theorem formatUptime_days_hours_minutes (n : Z) :
  0 < n < 2 ^ 51 ->
  let d := n / 86400 in
  let h := n mod 86400 / 3600 in
  let m := n mod 3600 / 60 in
  formatUptime (VNum n)
  = (if 0 <? d then
       Text.natural 10 d +:+ "d " +:+ Text.natural 10 h +:+ "h "
       +:+ Text.natural 10 m +:+ "m"
     else if 0 <? h then Text.natural 10 h +:+ "h " +:+ Text.natural 10 m +:+ "m"
     else Text.natural 10 m +:+ "m") /\
  0 <= h < 24 /\ 0 <= m < 60 /\
  86400 * d + 3600 * h + 60 * m <= n < 86400 * d + 3600 * h + 60 * m + 60.
Proof.
  intros Hn d h m.
  pose proof (Z.mod_pos_bound n 86400 ltac:(lia)) as H1.
  pose proof (Z.mod_pos_bound n 3600 ltac:(lia)) as H2.
  assert (0 <= d) as Hd by (apply Z.div_pos; lia).
  assert (0 <= h < 24) as Hh.
  { split; [apply Z.div_pos; lia | apply Z.div_lt_upper_bound; lia]. }
  assert (0 <= m < 60) as Hm.
  { split; [apply Z.div_pos; lia | apply Z.div_lt_upper_bound; lia]. }
  split; [|split; [exact Hh | split; [exact Hm|]]].
  - unfold formatUptime.
    assert (Js.truthy (VNum n) = true) as ->
      by (simpl; destruct (Z.eqb_spec n 0); [lia | reflexivity]).
    simpl negb. cbv iota. simpl Js.toNumber. unfold Arith.rem.
    change (86400 =? 0) with false. change (3600 =? 0) with false. cbv iota.
    rewrite !Z.rem_mod_nonneg by lia. simpl Js.toFloat.
    rewrite !floor_fdiv by lia.
    fold d h m. simpl Arith.positive. simpl Arith.show.
    unfold Text.integer.
    destruct (Z.ltb_spec d 0); [lia|].
    destruct (Z.ltb_spec h 0); [lia|].
    destruct (Z.ltb_spec m 0); [lia|]. reflexivity.
  - subst d h m.
    pose proof (Z.div_mod n 86400 ltac:(lia)).
    pose proof (Z.div_mod (n mod 86400) 3600 ltac:(lia)).
    pose proof (Z.div_mod (n mod 3600) 60 ltac:(lia)).
    pose proof (Z.mod_pos_bound (n mod 3600) 60 ltac:(lia)).
    assert (n mod 3600 = (n mod 86400) mod 3600) as Hmm.
    { change 86400 with (24 * 3600). rewrite Z.mul_comm.
      symmetry. rewrite Z.rem_mul_r by lia.
      rewrite Z.mul_comm, Z.mod_add by lia. apply Z.mod_mod. lia. }
    lia.
Qed.

Lemma formatUptime_days_hours_minutes_witness :
  let d := 90061 / 86400 in
  let h := 90061 mod 86400 / 3600 in
  let m := 90061 mod 3600 / 60 in
  formatUptime (VNum 90061)
  = (if 0 <? d then
       Text.natural 10 d +:+ "d " +:+ Text.natural 10 h +:+ "h "
       +:+ Text.natural 10 m +:+ "m"
     else if 0 <? h then Text.natural 10 h +:+ "h " +:+ Text.natural 10 m +:+ "m"
     else Text.natural 10 m +:+ "m") /\
  0 <= h < 24 /\ 0 <= m < 60 /\
  86400 * d + 3600 * h + 60 * m <= 90061 < 86400 * d + 3600 * h + 60 * m + 60.
Proof.
  apply (formatUptime_days_hours_minutes 90061). lia.
Defined.

Example formatUptime_a_day : formatUptime (VNum 90061) = "1d 1h 1m".
Proof. vm_compute. reflexivity. Qed.

Example formatUptime_half_a_minute : formatUptime (VNum 30) = "0m".
Proof. vm_compute. reflexivity. Qed.

Example formatUptime_zero : formatUptime (VNum 0) = "—".
Proof. reflexivity. Qed.

Example formatUptime_missing : formatUptime VUndef = "—".
Proof. reflexivity. Qed.
